(** * cpp-smtp-porting: the DNS decoder, the domains cache, the SMTP prober
      and the Base64 codec, embedded from the C++ sources.

    The first part transcribes the C++ functions, one definition per
    function or loop; what a definition adds for the proofs (a bound on the
    iterations, an invariant) says so.  The second part states and proves
    the properties.  The conventions are the same throughout:

    - [uint8_t], [uint16_t], [uint32_t] values are integers in [Z]; where the
      C++ type truncates, the [mod] is written out;
    - [size_t] offsets and lengths are [nat] (no computation below can reach
      the 64-bit limit: offsets never exceed a buffer length by more than a
      few bytes);
    - a C++ function that can throw returns a [result]: [Ok v], [Throw e]
      (an exception object) or [OutOfBounds i], the undefined behaviour of
      reading index [i] past the end of a buffer;
    - reference parameters that are written ([size_t& offset]) are returned
      next to the value. *)

From Stdlib Require Import ZArith Lia List Ascii String.
From Stdlib.Strings Require Import Byte.
From stdpp Require Import gmap strings list fin_maps.

Local Open Scope Z_scope.

(** ** Results of fallible code *)

Inductive result (E A : Type) : Type :=
| Ok (a : A)
| Throw (e : E)
| OutOfBounds (index : nat).

Arguments Ok {E A} a.
Arguments Throw {E A} e.
Arguments OutOfBounds {E A} index.

#[global] Instance result_ret {E : Type} : MRet (result E) := fun A a => Ok a.

#[global] Instance result_bind {E : Type} : MBind (result E) := fun A B k r =>
  match r with
  | Ok a => k a
  | Throw e => Throw e
  | OutOfBounds i => OutOfBounds i
  end.

#[global] Instance byte_eq_decision : EqDecision byte := Byte.byte_eq_dec.

(** The value of a byte as an unsigned 8-bit integer. *)
Definition byte_val (b : byte) : Z := Z.of_N (Byte.to_N b).

(** The byte holding the low 8 bits of an integer. *)
Definition byte_of_Z (z : Z) : byte :=
  match Byte.of_N (Z.to_N (z mod 256)) with
  | Some b => b
  | None => x00
  end.

(** ** dns_extractor.cpp *)

Module dns.

Record DNSHeader : Type := {
  id : Z;
  flags : Z;
  qdcount : Z;
  ancount : Z;
  nscount : Z;
  arcount : Z
}.

Record DNSQuestion : Type := {
  qname : string;
  qtype : Z;
  qclass : Z
}.

Record DNSResourceRecord : Type := {
  name : string;
  type : Z;
  rclass : Z;
  ttl : Z;
  rdlength : Z;
  rdata : list byte
}.

Record DNSMessage : Type := {
  header : DNSHeader;
  questions : list DNSQuestion;
  answers : list DNSResourceRecord;
  authorities : list DNSResourceRecord;
  additionals : list DNSResourceRecord
}.

(** [DNSParseError] carries only its message. *)
Inductive DNSParseError : Type :=
| ParseError (what : string).

(** sizeof(DNSHeader): six uint16_t fields. *)
Definition sizeof_DNSHeader : nat := 12.

(** [buffer[i]]: the buffer is the list of the bytes that really exist;
    reading past them is undefined behaviour. *)
Definition read (buffer : list byte) (i : nat) : result DNSParseError Z :=
  match buffer !! i with
  | Some b => Ok (byte_val b)
  | None => OutOfBounds i
  end.

(** [buffer + start, buffer + start + n): the range copied by
    [std::string::append] and [std::copy]. *)
Definition read_range (buffer : list byte) (start n : nat)
  : result DNSParseError (list byte) :=
  if decide (start + n <= List.length buffer)%nat
  then Ok (take n (drop start buffer))
  else OutOfBounds (Nat.max start (List.length buffer)).

(** ReadUInt16: no bounds check in the source. *)
Definition ReadUInt16 (buffer : list byte) (offset : nat)
  : result DNSParseError (Z * nat) :=
  hi ← read buffer offset;
  lo ← read buffer (offset + 1);
  Ok (Z.lor (Z.shiftl hi 8) lo mod 2 ^ 16, (offset + 2)%nat).

(** ReadUInt32: no bounds check in the source. *)
Definition ReadUInt32 (buffer : list byte) (offset : nat)
  : result DNSParseError (Z * nat) :=
  b0 ← read buffer offset;
  b1 ← read buffer (offset + 1);
  b2 ← read buffer (offset + 2);
  b3 ← read buffer (offset + 3);
  Ok (Z.lor (Z.lor (Z.lor (Z.shiftl b0 24) (Z.shiftl b1 16)) (Z.shiftl b2 8)) b3
        mod 2 ^ 32,
      (offset + 4)%nat).

(** *** ExtractDomainName *)

(** The local variables of ExtractDomainName that live across iterations. *)
Record name_state : Type := {
  offset : nat;
  domain : string;
  jumps : nat;
  originalOffset : nat;
  jumped : bool
}.

Definition maxJumps : nat := 128.

(** [((labelLength & 0x3F) << 8) | buffer[offset + 1]], stored in a
    uint16_t: the 14-bit target of a compression pointer. *)
Definition pointer_target (labelLength low : Z) : Z :=
  Z.lor (Z.shiftl (Z.land labelLength 0x3F) 8) low mod 2 ^ 16.

(** What one evaluation of the while condition and body does. *)
Inductive iteration : Type :=
| Exit                          (* labelLength = 0: the loop ends *)
| Jump (st : name_state)        (* a compression pointer was followed *)
| Label (st : name_state).      (* a regular label was appended *)

Definition ExtractDomainName_body (buffer : list byte) (length : nat)
  (st : name_state) : result DNSParseError iteration :=
  labelLength ← read buffer (offset st);
  if decide (labelLength = 0) then Ok Exit
  else if decide (Z.land labelLength 0xC0 = 0xC0) then
    if decide (length < offset st + 2)%nat
    then Throw (ParseError "Invalid compression pointer")
    else if decide (maxJumps < jumps st)%nat
    then Throw (ParseError "Too many compression jumps")
    else
      low ← read buffer (offset st + 1);
      let pointerOffset := pointer_target labelLength low in
      if decide (Z.of_nat length <= pointerOffset)
      then Throw (ParseError "Invalid compression pointer offset")
      else Ok (Jump {| offset := Z.to_nat pointerOffset;
                       domain := domain st;
                       jumps := S (jumps st);
                       originalOffset :=
                         if jumped st then originalOffset st
                         else (originalOffset st + 2)%nat;
                       jumped := true |})
  else
    if decide (length < offset st + 1 + Z.to_nat labelLength)%nat
    then Throw (ParseError "Label length exceeds buffer")
    else
      label ← read_range buffer (offset st + 1) (Z.to_nat labelLength);
      let domain1 :=
        if decide (domain st = EmptyString) then domain st
        else (domain st +:+ ".")%string in
      let offset' := (offset st + (Z.to_nat labelLength + 1))%nat in
      Ok (Label {| offset := offset';
                   domain := domain1 +:+ string_of_list_byte label;
                   jumps := jumps st;
                   originalOffset :=
                     if jumped st then originalOffset st else offset';
                   jumped := jumped st |}).

(** The while loop.  [None] means that [fuel] iterations were not enough;
    [ExtractDomainName_fuel] below is always enough. *)
Fixpoint ExtractDomainName_loop (fuel : nat) (buffer : list byte) (length : nat)
  (st : name_state) : option (result DNSParseError name_state) :=
  match fuel with
  | O => None
  | S fuel' =>
      match ExtractDomainName_body buffer length st with
      | Ok Exit => Some (Ok st)
      | Ok (Jump st') => ExtractDomainName_loop fuel' buffer length st'
      | Ok (Label st') => ExtractDomainName_loop fuel' buffer length st'
      | Throw e => Some (Throw e)
      | OutOfBounds i => Some (OutOfBounds i)
      end
  end.

(** The number of compression pointers the loop follows: the [Jump]
    iterations of the same run. *)
Fixpoint pointers_followed (fuel : nat) (buffer : list byte) (length : nat)
  (st : name_state) : nat :=
  match fuel with
  | O => O
  | S fuel' =>
      match ExtractDomainName_body buffer length st with
      | Ok (Jump st') => S (pointers_followed fuel' buffer length st')
      | Ok (Label st') => pointers_followed fuel' buffer length st'
      | _ => O
      end
  end.

(** A bound on the iterations left from a state: every pointer raises
    [jumps], which stops at [maxJumps + 2]; every label moves [offset]
    towards [length]. *)
Definition iterations_left (length : nat) (st : name_state) : nat :=
  ((maxJumps + 2 - jumps st) * S length + (length - offset st) + 1)%nat.

Definition initial_state (offset : nat) : name_state :=
  {| offset := offset; domain := EmptyString; jumps := 0;
     originalOffset := offset; jumped := false |}.

Definition ExtractDomainName_fuel (length : nat) (offset : nat) : nat :=
  iterations_left length (initial_state offset).

(** The loop run from a state, with the fuel that state needs. *)
Definition ExtractDomainName_from (buffer : list byte) (length : nat)
  (st : name_state) : option (result DNSParseError name_state) :=
  ExtractDomainName_loop (iterations_left length st) buffer length st.

(** [reaches buffer length st st']: the loop started in [st] arrives at the
    top of an iteration in [st']. *)
Inductive reaches (buffer : list byte) (length : nat)
  : name_state -> name_state -> Prop :=
| reaches_refl st : reaches buffer length st st
| reaches_jump st st' st'' :
    ExtractDomainName_body buffer length st = Ok (Jump st') ->
    reaches buffer length st' st'' -> reaches buffer length st st''
| reaches_label st st' st'' :
    ExtractDomainName_body buffer length st = Ok (Label st') ->
    reaches buffer length st' st'' -> reaches buffer length st st''.

(** The code after the loop: the new value of the caller's offset. *)
Definition final_offset (st : name_state) : nat :=
  if jumped st then originalOffset st else S (offset st).

(** ExtractDomainName(buffer, length, offset): the name and the new offset. *)
Definition ExtractDomainName (buffer : list byte) (length : nat) (offset : nat)
  : result DNSParseError (string * nat) :=
  match ExtractDomainName_loop (ExtractDomainName_fuel length offset)
          buffer length (initial_state offset) with
  | Some (Ok st) => Ok (domain st, final_offset st)
  | Some (Throw e) => Throw e
  | Some (OutOfBounds i) => OutOfBounds i
  | None => Throw (ParseError "unreachable")
  end.

(** *** Questions, resource records, messages *)

(** ParseHeader returns false on a short buffer, true with the header
    otherwise. *)
Definition ParseHeader (buffer : list byte) (length : nat)
  : result DNSParseError (option DNSHeader) :=
  if decide (length < sizeof_DNSHeader)%nat then Ok None
  else
    let offset := 0%nat in
    '(id, offset) ← ReadUInt16 buffer offset;
    '(flags, offset) ← ReadUInt16 buffer offset;
    '(qdcount, offset) ← ReadUInt16 buffer offset;
    '(ancount, offset) ← ReadUInt16 buffer offset;
    '(nscount, offset) ← ReadUInt16 buffer offset;
    '(arcount, offset) ← ReadUInt16 buffer offset;
    Ok (Some {| id := id; flags := flags; qdcount := qdcount;
                ancount := ancount; nscount := nscount; arcount := arcount |}).

(** [try { ... } catch (const DNSParseError&) { return false; }]: the
    exception becomes the value [None]; undefined behaviour is not caught. *)
Definition catch_false {A : Type} (r : result DNSParseError A)
  : result DNSParseError (option A) :=
  match r with
  | Ok a => Ok (Some a)
  | Throw _ => Ok None
  | OutOfBounds i => OutOfBounds i
  end.

Definition ParseQuestion (buffer : list byte) (length : nat) (offset : nat)
  : result DNSParseError (option (DNSQuestion * nat)) :=
  catch_false (
    '(qname, offset) ← ExtractDomainName buffer length offset;
    '(qtype, offset) ← ReadUInt16 buffer offset;
    '(qclass, offset) ← ReadUInt16 buffer offset;
    Ok ({| qname := qname; qtype := qtype; qclass := qclass |}, offset)).

Definition ParseResourceRecord (buffer : list byte) (length : nat) (offset : nat)
  : result DNSParseError (option (DNSResourceRecord * nat)) :=
  catch_false (
    '(name, offset) ← ExtractDomainName buffer length offset;
    '(type, offset) ← ReadUInt16 buffer offset;
    '(rclass, offset) ← ReadUInt16 buffer offset;
    '(ttl, offset) ← ReadUInt32 buffer offset;
    '(rdlength, offset) ← ReadUInt16 buffer offset;
    if decide (length < offset + Z.to_nat rdlength)%nat
    then Throw (ParseError "Buffer too small for RDATA")
    else
      rdata ← read_range buffer offset (Z.to_nat rdlength);
      Ok ({| name := name; type := type; rclass := rclass; ttl := ttl;
             rdlength := rdlength; rdata := rdata |},
          (offset + Z.to_nat rdlength)%nat)).

(** One of the four [for] loops of ParseMessage: [count] items are parsed
    and pushed; the first failure ends the whole parse with false. *)
Fixpoint parse_many {A : Type}
  (parse : nat -> result DNSParseError (option (A * nat)))
  (count : nat) (offset : nat) (items : list A)
  : result DNSParseError (bool * list A * nat) :=
  match count with
  | O => Ok (true, items, offset)
  | S count' =>
      r ← parse offset;
      match r with
      | None => Ok (false, items, offset)
      | Some (item, offset') => parse_many parse count' offset' (items ++ [item])
      end
  end.

(** ParseMessage on a message that was just constructed, as main.cpp calls
    it: the four vectors are empty when the call starts.  The result is the
    returned bool and the message as it was filled ([None]: the header was
    not written).  [ParseMessage_into] below is the function on a message
    in any state. *)
Definition ParseMessage (buffer : list byte) (length : nat)
  : result DNSParseError (bool * option DNSMessage) :=
  if decide (length < sizeof_DNSHeader)%nat
  then Throw (ParseError "Buffer too small for DNS header")
  else
    h ← ParseHeader buffer length;
    match h with
    | None => Ok (false, None)
    | Some header =>
        let offset := sizeof_DNSHeader in
        let message qs an ns ar :=
          Some {| header := header; questions := qs; answers := an;
                  authorities := ns; additionals := ar |} in
        '(ok, qs, offset) ←
          parse_many (ParseQuestion buffer length)
            (Z.to_nat (qdcount header)) offset [];
        if negb ok then Ok (false, message qs [] [] []) else
        '(ok, an, offset) ←
          parse_many (ParseResourceRecord buffer length)
            (Z.to_nat (ancount header)) offset [];
        if negb ok then Ok (false, message qs an [] []) else
        '(ok, ns, offset) ←
          parse_many (ParseResourceRecord buffer length)
            (Z.to_nat (nscount header)) offset [];
        if negb ok then Ok (false, message qs an ns []) else
        '(ok, ar, offset) ←
          parse_many (ParseResourceRecord buffer length)
            (Z.to_nat (arcount header)) offset [];
        Ok (ok, message qs an ns ar)
    end.


(** Not a function of the source: the bytes of a name written without
    compression, each label after its length byte, a zero byte at the
    end.  It states what ExtractDomainName reads back. *)
Definition wire_labels (labels : list (list byte)) : list byte :=
  concat (map (fun label => byte_of_Z (Z.of_nat (List.length label)) :: label) labels)
  ++ [x00].

(** Where the caller's offset will land, as the loop goes from the offset
    [start]: before the first jump it follows the cursor; the first jump
    fixes it two bytes after the pointer, inside the buffer. *)
Definition offset_tracked (buffer : list byte) (start : nat) (st : name_state)
  : Prop :=
  if jumped st
  then (start < originalOffset st <= List.length buffer)%nat
  else (originalOffset st = offset st /\ start <= offset st)%nat.

End dns.

(** The buffer main.cpp hands to ParseMessage: a header that announces one
    question and one answer, and nothing after it. *)
Definition main_dns_message : list byte :=
  [x00; x01; x81; x80; x00; x01; x00; x01; x00; x00; x00; x00].

(** ** domains_cache.cpp *)

Module cache.

(** A [steady_clock::time_point] is an integer, the number of nanoseconds
    the clock has counted, and [chrono::seconds] an integer number of
    seconds; both are held in signed 64-bit integers (libstdc++, libc++ and
    MSVC agree on this).  Every operation holds [cache_mutex_] from its
    first to its last statement, so it is one atomic function of the cache;
    [now] is the value [steady_clock::now()] returns inside it. *)
Record CacheEntry : Type := {
  domain : string;
  ip_address : string;
  expiration_time : Z
}.

Record DomainsCache : Type := {
  cache_ : gmap string CacheEntry;
  ttl_ : Z
}.

(** A result of signed 64-bit arithmetic: the value itself when it fits,
    and otherwise (undefined behaviour in C++) the two's complement value
    the compilers in use give. *)
Definition wrap64 (z : Z) : Z := (z + 2 ^ 63) mod 2 ^ 64 - 2 ^ 63.

Definition fits64 (z : Z) : Prop := - 2 ^ 63 <= z < 2 ^ 63.

(** [steady_clock::now() + ttl_]: the seconds are converted to nanoseconds,
    then added to the time point. *)
Definition expiration (now ttl : Z) : Z :=
  wrap64 (now + wrap64 (ttl * 1000000000)).

Definition AddDomain (now : Z) (domain ip_address : string) (c : DomainsCache)
  : DomainsCache :=
  let entry := {| domain := domain; ip_address := ip_address;
                  expiration_time := expiration now (ttl_ c) |} in
  {| cache_ := <[domain := entry]> (cache_ c); ttl_ := ttl_ c |}.

(** GetDomain: [Some ip] is the result true with [ip_address] set to [ip];
    [None] is the result false ([ip_address] untouched). *)
Definition GetDomain (now : Z) (domain : string) (c : DomainsCache)
  : option string * DomainsCache :=
  match cache_ c !! domain with
  | Some it =>
      if decide (now < expiration_time it) then (Some (ip_address it), c)
      else (None, {| cache_ := delete domain (cache_ c); ttl_ := ttl_ c |})
  | None => (None, c)
  end.

Definition Cleanup (now : Z) (c : DomainsCache) : DomainsCache :=
  {| cache_ := filter (fun kv => ¬ (expiration_time kv.2 <= now)) (cache_ c);
     ttl_ := ttl_ c |}.

(** The constructor: an empty map and the given time to live. *)
Definition new (ttl : Z) : DomainsCache := {| cache_ := ∅; ttl_ := ttl |}.

(** A use of the cache is a sequence of calls of its three public member
    functions, each with the clock value it reads (the mutex makes the calls
    of several threads one sequence). *)
Inductive call : Type :=
| CallAddDomain (now : Z) (domain ip_address : string)
| CallGetDomain (now : Z) (domain : string)
| CallCleanup (now : Z).

Definition perform (c : DomainsCache) (op : call) : DomainsCache :=
  match op with
  | CallAddDomain now domain ip_address => AddDomain now domain ip_address c
  | CallGetDomain now domain => (GetDomain now domain c).2
  | CallCleanup now => Cleanup now c
  end.

Definition perform_all (c : DomainsCache) (ops : list call) : DomainsCache :=
  fold_left perform ops c.

Definition is_AddDomain (op : call) : bool :=
  match op with
  | CallAddDomain _ _ _ => true
  | _ => false
  end.

(** What holds of a cache that started empty with time to live [ttl] and
    served the calls [ops]. *)
Definition served (ttl : Z) (ops : list call) (c : DomainsCache) : Prop :=
  ttl_ c = ttl
  /\ (size (cache_ c) <= List.length (List.filter is_AddDomain ops))%nat
  /\ forall k e,
       cache_ c !! k = Some e ->
       domain e = k
       /\ exists now, In (CallAddDomain now k (ip_address e)) ops
                      /\ expiration_time e = expiration now ttl.

End cache.

(** ** socket_task.h, socket_task.cpp *)

Module network.

Inductive TaskStatus : Type := SUCCESS | CONTINUE | ERROR | TIMEOUT.

End network.

(** ** smtp_bruteforcer.cpp *)

Module smtp.

Inductive exception : Type :=
| SMTPException (what : string)
| SocketException (what : string)
| SSLException (what : string).

Record AuthResult : Type := {
  success : bool;
  error_message : string;
  response_code : Z;
  username : string;
  password : string
}.

Record BruteForceParams : Type := {
  usernames : list string;
  passwords : list string;
  max_concurrent_connections : nat;
  stop_on_success : bool
}.

Inductive AuthMethod : Type := LOGIN | PLAIN | CRAM_MD5 | AUTO.

#[global] Instance AuthMethod_eq_decision : EqDecision AuthMethod.
Proof. solve_decision. Defined.

Inductive SMTPState : Type :=
| INIT
| CONNECTED
| EHLO_SENT
| AUTH_STARTED
| AUTH_USERNAME
| AUTH_PASSWORD
| AUTH_COMPLETE
| ERROR.

(** *** namespace utils, and the C library calls it makes *)

Module utils.

Definition code (c : ascii) : Z := Z.of_N (N_of_ascii c).

(** std::isdigit and std::isspace in the "C" locale. *)
Definition isdigit (c : ascii) : bool := (48 <=? code c) && (code c <=? 57).

Definition isspace (c : ascii) : bool :=
  (code c =? 32) || ((9 <=? code c) && (code c <=? 13)).

Fixpoint skip_spaces (s : string) : string :=
  match s with
  | String c s' => if isspace c then skip_spaces s' else s
  | EmptyString => s
  end.

(** The value of the longest prefix of decimal digits, after [acc]. *)
Fixpoint digits (acc : Z) (s : string) : Z :=
  match s with
  | String c s' => if isdigit c then digits (10 * acc + (code c - 48)) s' else acc
  | EmptyString => acc
  end.

(** std::stoi(str), base 10: leading white space is skipped, one sign is
    accepted, then the longest run of digits is read; what follows is
    ignored.  [None] is an exception: std::invalid_argument when there is no
    digit to read, std::out_of_range when the value does not fit an int. *)
Definition stoi (str : string) : option Z :=
  let s := skip_spaces str in
  let '(negative, s) :=
    match s with
    | String c s' =>
        if Ascii.eqb c "-" then (true, s')
        else if Ascii.eqb c "+" then (false, s')
        else (false, s)
    | EmptyString => (false, s)
    end in
  match s with
  | String c _ =>
      if isdigit c then
        let v := digits 0 s in
        let v := if negative : bool then - v else v in
        if decide (- 2 ^ 31 <= v < 2 ^ 31) then Some v else None
      else None
  | EmptyString => None
  end.

Definition GetResponseCode (response : string) : Z :=
  if decide (String.length response < 3)%nat then 0
  else
    match stoi (substring 0 3 response) with
    | Some v => v
    | None => 0                       (* catch (...) *)
    end.

Definition IsSuccessResponse (response : string) : bool :=
  if decide (String.length response < 3)%nat then false
  else
    let code := GetResponseCode response in
    (200 <=? code) && (code <? 400).

(** ::toupper in the "C" locale: the letters a to z lose 32, every other
    character is returned as it is. *)
Definition toupper (c : ascii) : ascii :=
  if (97 <=? code c) && (code c <=? 122)
  then ascii_of_N (Z.to_N (code c - 32))
  else c.

(** std::transform(s.begin(), s.end(), s.begin(), f). *)
Fixpoint transform (f : ascii -> ascii) (s : string) : string :=
  match s with
  | String c s' => String (f c) (transform f s')
  | EmptyString => EmptyString
  end.

Definition GetAuthMethodString (method : AuthMethod) : string :=
  match method with
  | LOGIN => "LOGIN"
  | PLAIN => "PLAIN"
  | CRAM_MD5 => "CRAM-MD5"
  | AUTO => "LOGIN"                   (* default *)
  end.

Definition ParseAuthMethod (method_str : string) : AuthMethod :=
  let upper_method := transform toupper method_str in
  if decide (upper_method = "LOGIN"%string) then LOGIN
  else if decide (upper_method = "PLAIN"%string) then PLAIN
  else if decide (upper_method = "CRAM-MD5"%string) then CRAM_MD5
  else AUTO.

End utils.

(** *** SocketTask::Receive over a scripted peer *)

(** What the peer does next: it delivers bytes, closes the connection in
    order (under TLS with a close_notify alert), stays silent until the
    timeout, or the read fails: [recv] returns SOCKET_ERROR, [error] being
    the text the system has for the error, or under TLS [SSL_read] returns
    0 or less, [error] being the number SSL_get_error gives, in decimal.  A
    script that has run out is a peer that stays silent. *)
Inductive recv_event : Type :=
| Data (bytes : string)
| Closed
| Timeout
| Failed (error : string).

(** What SSL_get_error gives when the peer has closed the connection with
    a close_notify alert. *)
Definition SSL_ERROR_ZERO_RETURN : string := "6".

(** Receive(buffer, length): the bytes that were stored in [buffer] (their
    number is the int returned) and what is left of the script. *)
Definition Receive (use_ssl_ : bool) (length : nat) (net : list recv_event)
  : result exception (string * list recv_event) :=
  if decide (length = 0)%nat then Ok (EmptyString, net)
  else
    match net with
    | [] => Throw (SocketException "Receive timeout")
    | Timeout :: _ => Throw (SocketException "Receive timeout")
    | Failed error :: _ =>
        if use_ssl_ then Throw (SSLException ("SSL read failed: " +:+ error))
        else Throw (SocketException ("Receive failed: " +:+ error))
    | Closed :: net' =>
        if use_ssl_
        then Throw (SSLException ("SSL read failed: " +:+ SSL_ERROR_ZERO_RETURN))
        else Ok (EmptyString, net')
    | Data bytes :: net' =>
        if decide (String.length bytes = 0)%nat then
          if use_ssl_
          then Throw (SSLException ("SSL read failed: " +:+ SSL_ERROR_ZERO_RETURN))
          else Ok (EmptyString, net')
        else if decide (String.length bytes <= length)%nat then Ok (bytes, net')
        else Ok (substring 0 length bytes,
                 Data (substring length (String.length bytes - length) bytes) :: net')
    end.

(** The exceptions of Receive: the timeout, the failed [recv] on a
    connection without TLS, the failed [SSL_read] under TLS. *)
Definition receive_error (use_ssl_ : bool) (e : exception) : Prop :=
  e = SocketException "Receive timeout"
  \/ (use_ssl_ = false
      /\ exists error, e = SocketException ("Receive failed: " +:+ error))
  \/ (use_ssl_ = true
      /\ exists ssl_error, e = SSLException ("SSL read failed: " +:+ ssl_error)).

(** The characters of a char array up to its first NUL, as
    [response += buffer] reads them. *)
Fixpoint c_str (buffer : string) : string :=
  match buffer with
  | String c buffer' =>
      if decide (c = "000"%char) then EmptyString else String c (c_str buffer')
  | EmptyString => EmptyString
  end.

(** A chunk as the peer delivers it: not empty, within the buffer of
    ReadResponse, and without a NUL character. *)
Definition whole_chunk (chunk : string) : Prop :=
  (1 <= String.length chunk <= 1023)%nat
  /\ Forall (fun c => c <> "000"%char) (list_ascii_of_string chunk).

(** The test that ends the loop of ReadResponse. *)
Definition complete_response (response : string) : bool :=
  match response with
  | String c0 (String c1 (String c2 (String c3 _))) =>
      bool_decide (c3 = " "%char)
      && utils.isdigit c0 && utils.isdigit c1 && utils.isdigit c2
  | _ => false
  end.

(** The [while (true)] loop of ReadResponse; the result is the bool
    returned, [response] and what is left of the script. *)
Fixpoint ReadResponse_loop (fuel : nat) (use_ssl_ : bool)
  (net : list recv_event) (response : string)
  : option (result exception (bool * string * list recv_event)) :=
  match fuel with
  | O => None
  | S fuel' =>
      match Receive use_ssl_ 1023 net with
      | Ok (buffer, net') =>
          if decide (String.length buffer = 0)%nat
          then Some (Ok (false, response, net'))
          else
            let response := (response +:+ c_str buffer)%string in
            if complete_response response
            then Some (Ok (true, response, net'))
            else ReadResponse_loop fuel' use_ssl_ net' response
      | Throw e => Some (Throw e)
      | OutOfBounds i => Some (OutOfBounds i)
      end
  end.

(** Every call of Receive that does not end the loop takes bytes or an
    event off the script. *)
Fixpoint script_size (net : list recv_event) : nat :=
  match net with
  | [] => O
  | Data bytes :: net' => S (String.length bytes + script_size net')
  | _ :: net' => S (script_size net')
  end.

Definition ReadResponse (use_ssl_ : bool) (net : list recv_event)
  : result exception (bool * string * list recv_event) :=
  match ReadResponse_loop (S (script_size net)) use_ssl_ net EmptyString with
  | Some r => r
  | None => Throw (SocketException "unreachable")
  end.

(** ProcessResponse: the AuthResult handed to the callback (the function
    itself returns its [success]). *)
Definition ProcessResponse (use_ssl_ : bool)
  (current_username_ current_password_ : string) (net : list recv_event)
  : result exception (AuthResult * list recv_event) :=
  '(ok, response, net') ← ReadResponse use_ssl_ net;
  if negb ok
  then Throw (SMTPException "Failed to read authentication response")
  else
    Ok ({| success := utils.IsSuccessResponse response;
           response_code := utils.GetResponseCode response;
           error_message := response;
           username := current_username_;
           password := current_password_ |}, net').

(** "\r\n", and the final reply of the multi-line rejection scenario. *)
Definition CRLF : string := String "013" (String "010" EmptyString).

Definition rejection_reply : string :=
  ("535-5.7.8 authentication failed" +:+ CRLF +:+ "535 5.7.8 try later" +:+ CRLF)%string.

(** *** The EHLO reply and the choice of the AUTH command *)

(** std::getline(iss, line): the characters up to the next line feed, which
    is taken off the stream and not stored, or up to the end of the stream;
    [None] (the stream fails) when the stream has no character left. *)
Fixpoint up_to_line_feed (iss : string) : string * string :=
  match iss with
  | String c iss' =>
      if decide (c = "010"%char) then (EmptyString, iss')
      else let '(line, rest) := up_to_line_feed iss' in (String c line, rest)
  | EmptyString => (EmptyString, EmptyString)
  end.

Definition getline (iss : string) : option (string * string) :=
  match iss with
  | EmptyString => None
  | _ => Some (up_to_line_feed iss)
  end.

(** [while (auth_line >> method) methods.push_back(method)]: operator>>
    skips white space, then stores the characters up to the next white
    space or the end of the stream; it fails when it finds no character to
    store.  [method] is what the extraction under way has stored. *)
Fixpoint extract_methods (method : string) (auth_line : string) : list string :=
  match auth_line with
  | String c auth_line' =>
      if utils.isspace c then
        if decide (method = EmptyString) then extract_methods EmptyString auth_line'
        else method :: extract_methods EmptyString auth_line'
      else extract_methods (method +:+ String c EmptyString) auth_line'
  | EmptyString =>
      if decide (method = EmptyString) then [] else [method]
  end.

(** The loop of GetSupportedAuthMethods; [line.find] is [index 0], and
    [substr(pos)] the characters from [pos] to the end.  Every call of
    getline takes a character off the stream, so the length of the reply
    and one are enough iterations. *)
Fixpoint GetSupportedAuthMethods_loop (fuel : nat) (iss : string) : list string :=
  match fuel with
  | O => []
  | S fuel' =>
      match getline iss with
      | None => []
      | Some (line, iss') =>
          match index 0 "AUTH " line with
          | Some pos =>
              extract_methods EmptyString
                (substring (pos + 5) (String.length line - (pos + 5)) line)
          | None => GetSupportedAuthMethods_loop fuel' iss'
          end
      end
  end.

Definition GetSupportedAuthMethods (ehlo_response : string) : list string :=
  GetSupportedAuthMethods_loop (S (String.length ehlo_response)) ehlo_response.

(** The method HandleAuth settles on: the configured one, or with AUTO the
    result of the loop over [supported_auth_methods_]. *)
Fixpoint HandleAuth_loop (supported : list string) (method : AuthMethod)
  : AuthMethod :=
  match supported with
  | [] => method
  | supported0 :: supported' =>
      let method := utils.ParseAuthMethod supported0 in
      if decide (method <> AUTO) then method
      else HandleAuth_loop supported' method
  end.

Definition HandleAuth_method (auth_method : AuthMethod)
  (supported_auth_methods_ : list string) : AuthMethod :=
  if decide (auth_method = AUTO)
  then HandleAuth_loop supported_auth_methods_ auth_method
  else auth_method.

Definition auth_cmd (method : AuthMethod) : string :=
  ("AUTH " +:+ utils.GetAuthMethodString method +:+ CRLF)%string.

(** *** SMTPBruteForceTask::Initialize and Execute *)

(** The members of the task that Initialize and Execute write and the
    handlers leave alone.  [retry_count_] is an int: the model counts in Z,
    which is the code while fewer than 2^31 - 1 exceptions were counted. *)
Record SMTPBruteForceTask : Type := {
  state_ : SMTPState;
  retry_count_ : Z
}.

(** A task as its constructor leaves it. *)
Definition new_task : SMTPBruteForceTask :=
  {| state_ := INIT; retry_count_ := 0 |}.

(** SocketTask::Initialize returns true, or throws when no socket could be
    created (the text of the system error, which the message carries, is
    left out). *)
Definition SocketTask_Initialize (socket_created : bool) : result exception bool :=
  if socket_created then Ok true
  else Throw (SocketException "Failed to create socket").

Definition Initialize (socket_created : bool) (t : SMTPBruteForceTask)
  : result exception (bool * SMTPBruteForceTask) :=
  ok ← SocketTask_Initialize socket_created;
  if negb ok then Ok (false, t)
  else Ok (true, {| state_ := INIT; retry_count_ := 0 |}).

(** What the handlers do when one call of Execute calls them: each returns
    a bool or throws.  Execute calls each at most once. *)
Record handlers : Type := {
  HandleConnect : result exception bool;
  HandleEHLO : result exception bool;
  HandleStartTLS : result exception bool;
  HandleAuth : result exception bool;
  HandleUsername : result exception bool;
  HandlePassword : result exception bool;
  ProcessResponse_result : result exception bool
}.

Definition set_state (state : SMTPState) (t : SMTPBruteForceTask)
  : SMTPBruteForceTask :=
  {| state_ := state; retry_count_ := retry_count_ t |}.

(** The try block of Execute. *)
Definition Execute_try (use_tls : bool) (h : handlers) (t : SMTPBruteForceTask)
  : result exception (network.TaskStatus * SMTPBruteForceTask) :=
  match state_ t with
  | INIT =>
      ok ← HandleConnect h;
      if negb ok then Ok (network.ERROR, t)
      else Ok (network.CONTINUE, set_state CONNECTED t)
  | CONNECTED =>
      ok ← HandleEHLO h;
      if negb ok then Ok (network.ERROR, t)
      else Ok (network.CONTINUE, set_state EHLO_SENT t)
  | EHLO_SENT =>
      tls_failed ← (if use_tls : bool
                    then ok ← HandleStartTLS h; Ok (negb ok)
                    else Ok false);
      if tls_failed : bool then Ok (network.ERROR, t)
      else
        ok ← HandleAuth h;
        if negb ok then Ok (network.ERROR, t)
        else Ok (network.CONTINUE, set_state AUTH_STARTED t)
  | AUTH_STARTED =>
      ok ← HandleUsername h;
      if negb ok then Ok (network.ERROR, t)
      else Ok (network.CONTINUE, set_state AUTH_USERNAME t)
  | AUTH_USERNAME =>
      ok ← HandlePassword h;
      if negb ok then Ok (network.ERROR, t)
      else Ok (network.CONTINUE, set_state AUTH_PASSWORD t)
  | AUTH_PASSWORD =>
      ok ← ProcessResponse_result h;
      if negb ok then Ok (network.ERROR, t)
      else Ok (network.SUCCESS, set_state AUTH_COMPLETE t)
  | ERROR => Ok (network.ERROR, t)
  | AUTH_COMPLETE => Ok (network.ERROR, t)          (* default *)
  end.

(** Execute: the try block, and the handler for SMTPException and the
    classes derived from it.  [socket_created] is what the Initialize called
    by the handler finds; its result is not looked at. *)
Definition Execute (retry_count : Z) (use_tls socket_created : bool)
  (h : handlers) (t : SMTPBruteForceTask)
  : result exception (network.TaskStatus * SMTPBruteForceTask) :=
  match Execute_try use_tls h t with
  | Throw (SMTPException _) =>
      let t := {| state_ := state_ t; retry_count_ := retry_count_ t + 1 |} in
      if decide (retry_count_ t < retry_count) then
        '(_, t) ← Initialize socket_created t;
        Ok (network.CONTINUE, t)
      else Ok (network.ERROR, t)
  | r => r
  end.



(** The place of a state in the order of the dialogue. *)
Definition rank (state : SMTPState) : nat :=
  match state with
  | INIT => 0
  | CONNECTED => 1
  | EHLO_SENT => 2
  | AUTH_STARTED => 3
  | AUTH_USERNAME => 4
  | AUTH_PASSWORD => 5
  | AUTH_COMPLETE => 6
  | ERROR => 7
  end.

(** Execute called again and again, as long as it returns; [calls] gives
    for each call what the handlers do and whether a socket can be created.
    The result lists the statuses returned. *)
Fixpoint Execute_all (retry_count : Z) (use_tls : bool)
  (calls : list (handlers * bool)) (t : SMTPBruteForceTask)
  : result exception (list network.TaskStatus * SMTPBruteForceTask) :=
  match calls with
  | [] => Ok ([], t)
  | (h, socket_created) :: calls' =>
      '(status, t) ← Execute retry_count use_tls socket_created h t;
      '(statuses, t) ← Execute_all retry_count use_tls calls' t;
      Ok (status :: statuses, t)
  end.

(** *** SMTPBruteForcer *)

(** Where a worker thread stands: at the top of its while loop, past the
    test of the stop flag and about to draw, inside the task of a
    credential pair it drew, or past the loop. *)
Inductive worker : Type :=
| Idle
| Drawing
| Busy (username password : string)
| Exited.

(** The shared state of the orchestrator.  [probed] is not a member of the
    class: it lists the pairs whose task has run, in the order the
    attempts were counted. *)
Record SMTPBruteForcer : Type := {
  params_ : BruteForceParams;
  stop_requested_ : bool;
  attempts_count_ : nat;
  current_user_index_ : nat;
  current_pass_index_ : nat;
  worker_threads_ : list worker;
  probed : list (string * string)
}.

(** [v[i]] on a std::vector: out of range is undefined behaviour. *)
Definition at_index (v : list string) (i : nat) : result exception string :=
  match v !! i with
  | Some x => Ok x
  | None => OutOfBounds i
  end.

(** GetNextCredentials, under [credentials_mutex_]: the pair returned and
    the new indices. *)
Definition GetNextCredentials (f : SMTPBruteForcer)
  : result exception (string * string * SMTPBruteForcer) :=
  if decide (List.length (usernames (params_ f)) <= current_user_index_ f)%nat
  then Ok (EmptyString, EmptyString, f)
  else
    username ← at_index (usernames (params_ f)) (current_user_index_ f);
    password ← at_index (passwords (params_ f)) (current_pass_index_ f);
    let pass_index := S (current_pass_index_ f) in
    let wrap := bool_decide (List.length (passwords (params_ f)) <= pass_index)%nat in
    Ok (username, password,
        {| params_ := params_ f;
           stop_requested_ := stop_requested_ f;
           attempts_count_ := attempts_count_ f;
           current_user_index_ :=
             if wrap then S (current_user_index_ f) else current_user_index_ f;
           current_pass_index_ := if wrap then 0%nat else pass_index;
           worker_threads_ := worker_threads_ f;
           probed := probed f |}).

Definition set_worker (w : nat) (state : worker) (f : SMTPBruteForcer)
  : SMTPBruteForcer :=
  {| params_ := params_ f;
     stop_requested_ := stop_requested_ f;
     attempts_count_ := attempts_count_ f;
     current_user_index_ := current_user_index_ f;
     current_pass_index_ := current_pass_index_ f;
     worker_threads_ := <[w := state]> (worker_threads_ f);
     probed := probed f |}.

(** The next move of worker thread [w] in WorkerThread.  An idle worker
    tests the stop flag; a drawing worker calls GetNextCredentials and
    tests the pair; a busy worker finishes its task, [task_success] telling
    whether the task reported a successful authentication to
    ProcessResult. *)
Definition WorkerThread_step (w : nat) (task_success : bool) (f : SMTPBruteForcer)
  : result exception SMTPBruteForcer :=
  match worker_threads_ f !! w with
  | None => Ok f
  | Some Exited => Ok f
  | Some Idle =>
      if stop_requested_ f then Ok (set_worker w Exited f)
      else Ok (set_worker w Drawing f)
  | Some Drawing =>
      '(username, password, f) ← GetNextCredentials f;
      if bool_decide (username = EmptyString) && bool_decide (password = EmptyString)
      then Ok (set_worker w Exited f)
      else Ok (set_worker w (Busy username password) f)
  | Some (Busy username password) =>
      Ok {| params_ := params_ f;
            stop_requested_ :=
              if task_success && stop_on_success (params_ f) then true
              else stop_requested_ f;
            attempts_count_ := S (attempts_count_ f);
            current_user_index_ := current_user_index_ f;
            current_pass_index_ := current_pass_index_ f;
            worker_threads_ := <[w := Idle]> (worker_threads_ f);
            probed := probed f ++ [(username, password)] |}
  end.

(** A schedule names, move after move, the worker that moves. *)
Fixpoint run (schedule : list (nat * bool)) (f : SMTPBruteForcer)
  : result exception SMTPBruteForcer :=
  match schedule with
  | [] => Ok f
  | (w, task_success) :: schedule' =>
      f' ← WorkerThread_step w task_success f;
      run schedule' f'
  end.

(** The orchestrator after Start(). *)
Definition Start (params : BruteForceParams) : SMTPBruteForcer :=
  {| params_ := params;
     stop_requested_ := false;
     attempts_count_ := 0;
     current_user_index_ := 0;
     current_pass_index_ := 0;
     worker_threads_ := replicate (max_concurrent_connections params) Idle;
     probed := [] |}.

(** The pairs that the indices have not passed yet: the rest of the
    current user's row, then the rows of the users after. *)
Definition remaining (f : SMTPBruteForcer) : list (string * string) :=
  match drop (current_user_index_ f) (usernames (params_ f)) with
  | [] => []
  | username :: users =>
      map (pair username) (drop (current_pass_index_ f) (passwords (params_ f)))
      ++ list_prod users (passwords (params_ f))
  end.

(** The pairs whose task is running. *)
Fixpoint busy_pairs (workers : list worker) : list (string * string) :=
  match workers with
  | [] => []
  | Busy username password :: workers' => (username, password) :: busy_pairs workers'
  | _ :: workers' => busy_pairs workers'
  end.

(** The first [n] pairs GetNextCredentials returns, call after call. *)
Fixpoint draw (n : nat) (f : SMTPBruteForcer)
  : result exception (list (string * string)) :=
  match n with
  | O => Ok []
  | S n' =>
      '(username, password, f') ← GetNextCredentials f;
      pairs ← draw n' f';
      Ok ((username, password) :: pairs)
  end.

(** What every state of a run satisfies, when [passwords] is not empty:
    the pairs behind the indices, in the order of the cartesian product,
    are the pairs that were probed or are being probed. *)
Record consistent (params : BruteForceParams) (f : SMTPBruteForcer) : Prop := {
  consistent_params : params_ f = params;
  consistent_index :
    (current_pass_index_ f < List.length (passwords params))%nat;
  consistent_workers :
    List.length (worker_threads_ f) = max_concurrent_connections params;
  consistent_handed :
    exists handed,
      handed ++ remaining f = list_prod (usernames params) (passwords params)
      /\ handed ≡ₚ probed f ++ busy_pairs (worker_threads_ f)
}.

(** While no stop was requested, a worker has left its loop only if the
    indices are past the last pair. *)
Definition exhausted_if_exited (f : SMTPBruteForcer) : Prop :=
  stop_requested_ f = false -> Exited ∈ worker_threads_ f -> remaining f = [].

(** A worker that is not inside a task. *)
Definition not_busy (state : worker) : Prop :=
  match state with
  | Busy _ _ => False
  | _ => True
  end.

(** The pair of two empty strings is never given to a task. *)
Definition never_probes_empty (f : SMTPBruteForcer) : Prop :=
  ((EmptyString, EmptyString) ∉ probed f)
  /\ ((EmptyString, EmptyString) ∉ busy_pairs (worker_threads_ f)).

(** A worker that is past the test of the stop flag and has not come back
    to it counts for one. *)
Definition flying (state : worker) : nat :=
  match state with
  | Drawing | Busy _ _ => 1
  | _ => 0
  end.

Fixpoint in_flight (workers : list worker) : nat :=
  match workers with
  | [] => O
  | state :: workers' => (flying state + in_flight workers')%nat
  end.

End smtp.

(** ** base64.cpp *)

Module Base64.

(** A std::string and a std::vector<uint8_t> are both sequences of 8-bit
    units: [list byte]. *)

Inductive Base64Error : Type :=
| Error (what : string).

Definition encoding_table : list byte :=
  list_byte_of_string
    "ABCDEFGHIJKLMNOPQRSTUVWXYZabcdefghijklmnopqrstuvwxyz0123456789+/".

(** [encoding_table[k]]. *)
Definition encoding_at (k : Z) : byte :=
  default x00 (encoding_table !! Z.to_nat k).

(** InitDecodingTable: 256 entries, 0xFF everywhere but at the 64
    characters of the alphabet. *)
Definition decoding_table : list Z :=
  foldl (fun table i => <[Z.to_nat (byte_val (encoding_at (Z.of_nat i))) := Z.of_nat i]> table)
    (replicate 256 0xFF) (seq 0 64).

(** [decoding_table[static_cast<unsigned char>(c)]]. *)
Definition decoding_at (c : byte) : Z :=
  default 0xFF (decoding_table !! Z.to_nat (byte_val c)).

(** std::isspace in the "C" locale. *)
Definition isspace (c : byte) : bool :=
  (byte_val c =? 32) || ((9 <=? byte_val c) && (byte_val c <=? 13)).

(** The four characters pushed for one group of three octets. *)
Definition encode_triple (octet_a octet_b octet_c : Z) : list byte :=
  let triple := (Z.shiftl octet_a 16 + Z.shiftl octet_b 8 + octet_c) mod 2 ^ 32 in
  [encoding_at (Z.land (Z.shiftr triple 18) 0x3F);
   encoding_at (Z.land (Z.shiftr triple 12) 0x3F);
   encoding_at (Z.land (Z.shiftr triple 6) 0x3F);
   encoding_at (Z.land triple 0x3F)].

(** The while loop of Encode: [input] is what lies at and after index [i];
    a missing second or third octet is 0. *)
Fixpoint Encode_loop (input : list byte) (output : list byte) : list byte :=
  match input with
  | [] => output
  | [a] => output ++ encode_triple (byte_val a) 0 0
  | [a; b] => output ++ encode_triple (byte_val a) (byte_val b) 0
  | a :: b :: c :: input' =>
      Encode_loop input' (output ++ encode_triple (byte_val a) (byte_val b) (byte_val c))
  end.

(** "Add padding if necessary": the last one or two characters of the
    [output_length] pushed are overwritten. *)
Definition add_padding (length : nat) (output : list byte) : list byte :=
  let output_length := (4 * ((length + 2) / 3))%nat in
  let padding := (3 - length mod 3)%nat in
  if decide (padding < 3)%nat then
    let output := <[(output_length - 1)%nat := "="%byte]> output in
    if decide (padding = 2)%nat
    then <[(output_length - 2)%nat := "="%byte]> output
    else output
  else output.

(** Encode(input, length). *)
Definition Encode (input : list byte) : list byte :=
  let length := List.length input in
  if decide (length = 0)%nat then []
  else add_padding length (Encode_loop input []).

(** The encoding written group by group, the padding put in the last
    group; [Encode_groups] below shows that Encode computes it. *)
Fixpoint encode_groups (input : list byte) : list byte :=
  match input with
  | [] => []
  | [a] => take 2 (encode_triple (byte_val a) 0 0) ++ ["="%byte; "="%byte]
  | [a; b] => take 3 (encode_triple (byte_val a) (byte_val b) 0) ++ ["="%byte]
  | a :: b :: c :: input' =>
      encode_triple (byte_val a) (byte_val b) (byte_val c) ++ encode_groups input'
  end.

(** The for loop of IsValid, at index [i] with [input] the characters at
    and after it; [length] is the length of the whole string. *)
Fixpoint IsValid_loop (length : nat) (input : list byte) (i : nat) (padding : nat)
  : bool :=
  match input with
  | [] => true
  | c :: input' =>
      if decide (c = "="%byte) then
        let padding := S padding in
        if decide (2 < padding)%nat then false
        else if decide (i < length - 2)%nat then false
        else IsValid_loop length input' (S i) padding
      else if decide (0 < padding)%nat then false
      else if negb (isspace c) && (decoding_at c =? 0xFF) then false
      else IsValid_loop length input' (S i) padding
  end.

Definition IsValid (input : list byte) : bool :=
  if decide (List.length input = 0)%nat then true
  else if decide (List.length input mod 4 ≠ 0)%nat then false
  else IsValid_loop (List.length input) input 0 0.

(** A character that IsValid lets pass before the padding: white space or
    one of the alphabet. *)
Definition body_char (c : byte) : Prop :=
  c <> "="%byte /\ (isspace c = true \/ c ∈ encoding_table).

(** [input[i + k]], where [input] is the part of the string at and after
    index [i]: one past the end is the terminating NUL, further is
    undefined behaviour. *)
Definition char_at (input : list byte) (i k : nat) : result Base64Error byte :=
  match input !! k with
  | Some c => Ok c
  | None => if decide (k = List.length input) then Ok x00 else OutOfBounds (i + k)
  end.

Definition sextet (c : byte) : Z :=
  if decide (c = "="%byte) then 0 else decoding_at c.

(** [if (output.size() < output.capacity()) output.push_back(x)]. *)
Definition push_back_within (capacity : nat) (output : list byte) (x : Z)
  : list byte :=
  if decide (List.length output < capacity)%nat then output ++ [byte_of_Z x]
  else output.

(** The three guarded push_back of one group of four characters. *)
Definition decode_quad (capacity : nat) (output : list byte)
  (sextet_a sextet_b sextet_c sextet_d : Z) : list byte :=
  let triple :=
    (Z.shiftl sextet_a 18 + Z.shiftl sextet_b 12 + Z.shiftl sextet_c 6 + sextet_d)
      mod 2 ^ 32 in
  let output := push_back_within capacity output (Z.land (Z.shiftr triple 16) 0xFF) in
  let output := push_back_within capacity output (Z.land (Z.shiftr triple 8) 0xFF) in
  push_back_within capacity output (Z.land triple 0xFF).

(** The while loop of DecodeBytes, at index [i] with [input] the characters
    at and after it.  White space is skipped only before the first
    character of a group; the other three are read where they stand. *)
Fixpoint DecodeBytes_loop (capacity : nat) (input : list byte) (i : nat)
  (output : list byte) : result Base64Error (list byte) :=
  match input with
  | [] => Ok output
  | c0 :: input1 =>
      if isspace c0 then DecodeBytes_loop capacity input1 (S i) output
      else
        match input1 with
        | c1 :: c2 :: c3 :: input4 =>
            DecodeBytes_loop capacity input4 (i + 4)
              (decode_quad capacity output (sextet c0) (sextet c1) (sextet c2) (sextet c3))
        | _ =>
            c1 ← char_at input i 1;
            c2 ← char_at input i 2;
            c3 ← char_at input i 3;
            Ok (decode_quad capacity output (sextet c0) (sextet c1) (sextet c2) (sextet c3))
        end
  end.

(** "Calculate output size": the number of '=' among the last two
    characters. *)
Definition count_padding (input : list byte) : nat :=
  let length := List.length input in
  ((if decide (input !! (length - 1)%nat = Some "="%byte) then 1 else 0)
   + (if decide ((1 < length)%nat /\ input !! (length - 2)%nat = Some "="%byte)
      then 1 else 0))%nat.

(** DecodeBytes.  [output.reserve(n)] on the empty vector gives the
    capacity [n] exactly, as the standard libraries in use do; the guarded
    push_back above never reallocate, so the capacity stays [n]. *)
Definition DecodeBytes (input : list byte) : result Base64Error (list byte) :=
  if negb (IsValid input) then Throw (Error "Invalid base64 string")
  else
    let padding := count_padding input in
    let capacity := (List.length input / 4 * 3 - padding)%nat in
    DecodeBytes_loop capacity input 0 [].

(** Decode: the decoded bytes as a string. *)
Definition Decode (input : list byte) : result Base64Error (list byte) :=
  DecodeBytes input.

(** EncodeByte and DecodeByte, on the 8-bit value of the character. *)
Definition EncodeByte (b : Z) : byte := encoding_at (Z.land b 0x3F).

Definition DecodeByte (c : byte) : Z := decoding_at c.

End Base64.


(** * Properties *)

(** ** The DNS decoder *)

Section dns_loop.
Import dns.
Variables (buffer : list byte) (length : nat).

Lemma byte_val_range (b : byte) : 0 <= byte_val b < 256.
Proof.
  unfold byte_val. pose proof (Byte.to_N_bounded b) as H.
  lia.
Qed.

Lemma read_Ok_range i v : read buffer i = Ok v -> 0 <= v < 256.
Proof.
  unfold read. destruct (buffer !! i); [|discriminate].
  intros [= <-]. apply byte_val_range.
Qed.

(** Case analysis on every test and read of the loop body. *)
Ltac break_body :=
  unfold ExtractDomainName_body;
  repeat match goal with
    | |- context [read ?b ?i] =>
        let E := fresh "Hread" in destruct (read b i) eqn:E; simpl
    | |- context [read_range ?b ?i ?n] =>
        let E := fresh "Hrange" in destruct (read_range b i n) eqn:E; simpl
    | |- context [decide ?P] => destruct (decide P); simpl
    end;
  try discriminate.

Lemma pointer_target_range l lo : 0 <= pointer_target l lo < 2 ^ 16.
Proof. unfold pointer_target. apply Z.mod_pos_bound. lia. Qed.

(** An iteration that goes on leaves fewer iterations to run. *)
Lemma body_Jump_decreases st st' :
  ExtractDomainName_body buffer length st = Ok (Jump st') ->
  (jumps st <= maxJumps /\ jumps st' = S (jumps st) /\ offset st' < length
   /\ iterations_left length st' < iterations_left length st)%nat.
Proof.
  break_body; intros [= <-]; simpl;
    unfold iterations_left, maxJumps in *; simpl;
    match goal with |- context [pointer_target ?l ?lo] =>
      pose proof (pointer_target_range l lo) end;
    nia.
Qed.

Lemma body_Label_decreases st st' :
  ExtractDomainName_body buffer length st = Ok (Label st') ->
  (jumps st' = jumps st /\ offset st < offset st' <= length
   /\ iterations_left length st' < iterations_left length st)%nat.
Proof.
  break_body;
    match goal with H : read _ _ = Ok _ |- _ => apply read_Ok_range in H end;
    intros [= <-]; simpl; unfold iterations_left; simpl; lia.
Qed.

Lemma iterations_left_S st : exists n, iterations_left length st = S n.
Proof. unfold iterations_left. rewrite Nat.add_1_r. eauto. Qed.

(** The loop stops within [iterations_left] iterations. *)
Lemma loop_terminates fuel st :
  (iterations_left length st <= fuel)%nat ->
  exists r, ExtractDomainName_loop fuel buffer length st = Some r.
Proof.
  revert st. induction fuel as [|fuel IH]; intros st Hfuel.
  - destruct (iterations_left_S st) as [n Hn]. lia.
  - simpl. destruct (ExtractDomainName_body buffer length st) as [[|st'|st']| |] eqn:Hb;
      eauto.
    + apply body_Jump_decreases in Hb. apply IH. lia.
    + apply body_Label_decreases in Hb. apply IH. lia.
Qed.

(** More fuel does not change a result. *)
Lemma loop_more_fuel fuel fuel' st r :
  ExtractDomainName_loop fuel buffer length st = Some r ->
  (fuel <= fuel')%nat ->
  ExtractDomainName_loop fuel' buffer length st = Some r.
Proof.
  revert fuel' st. induction fuel as [|fuel IH]; intros fuel' st H Hle; [discriminate|].
  destruct fuel' as [|fuel']; [lia|]. simpl in *.
  destruct (ExtractDomainName_body buffer length st) as [[|st'|st']| |]; auto;
    apply IH; auto; lia.
Qed.

Lemma loop_enough_fuel fuel st :
  (iterations_left length st <= fuel)%nat ->
  ExtractDomainName_loop fuel buffer length st = ExtractDomainName_from buffer length st.
Proof.
  intros Hle. unfold ExtractDomainName_from.
  destruct (loop_terminates (iterations_left length st) st) as [r Hr]; [lia|].
  rewrite Hr. eapply loop_more_fuel; eauto.
Qed.

(** The run from a state is the run from any state it reaches. *)
Lemma reaches_same_result st st' :
  reaches buffer length st st' ->
  ExtractDomainName_from buffer length st = ExtractDomainName_from buffer length st'.
Proof.
  induction 1 as [st|st st' st'' Hb _ IH|st st' st'' Hb _ IH]; [reflexivity| |].
  - rewrite <- IH. unfold ExtractDomainName_from at 1.
    pose proof (body_Jump_decreases _ _ Hb) as (_ & _ & _ & Hlt).
    destruct (iterations_left length st) as [|n] eqn:Hn; [lia|].
    simpl. rewrite Hb. apply loop_enough_fuel. lia.
  - rewrite <- IH. unfold ExtractDomainName_from at 1.
    pose proof (body_Label_decreases _ _ Hb) as (_ & _ & Hlt).
    destruct (iterations_left length st) as [|n] eqn:Hn; [lia|].
    simpl. rewrite Hb. apply loop_enough_fuel. lia.
Qed.

(** The pointers followed from a state are bounded by what the jump counter
    still allows. *)
Lemma pointers_followed_le fuel st :
  (pointers_followed fuel buffer length st <= S maxJumps - jumps st)%nat.
Proof.
  revert st. induction fuel as [|fuel IH]; intros st; simpl; [lia|].
  destruct (ExtractDomainName_body buffer length st) as [[|st'|st']| |] eqn:Hb; try lia.
  - apply body_Jump_decreases in Hb as (? & Hj & _). specialize (IH st'). lia.
  - apply body_Label_decreases in Hb as (Hj & _). specialize (IH st'). lia.
Qed.

End dns_loop.

Section dns_pointers.
Import dns.
Variable buffer : list byte.

(** The state a followed pointer leads to. *)
Lemma body_at_pointer st b0 b1 :
  buffer !! offset st = Some b0 ->
  buffer !! (offset st + 1)%nat = Some b1 ->
  Z.land (byte_val b0) 0xC0 = 0xC0 ->
  ExtractDomainName_body buffer (List.length buffer) st =
    if decide (maxJumps < jumps st)%nat
    then Throw (ParseError "Too many compression jumps")
    else if decide (Z.of_nat (List.length buffer)
                    <= pointer_target (byte_val b0) (byte_val b1))
    then Throw (ParseError "Invalid compression pointer offset")
    else Ok (Jump {| offset := Z.to_nat (pointer_target (byte_val b0) (byte_val b1));
                     domain := domain st;
                     jumps := S (jumps st);
                     originalOffset :=
                       if jumped st then originalOffset st
                       else (originalOffset st + 2)%nat;
                     jumped := true |}).
Proof.
  intros H0 H1 Hptr. unfold ExtractDomainName_body, read.
  rewrite H0, H1. simpl.
  apply lookup_lt_Some in H1.
  destruct (decide (byte_val b0 = 0)) as [Hz|_].
  { rewrite Hz in Hptr. discriminate. }
  rewrite decide_True by done.
  rewrite (decide_False (P := (List.length buffer < offset st + 2)%nat)) by lia.
  reflexivity.
Qed.

(** A pointer to itself is followed until the jump counter stops it. *)
Lemma self_pointer_throws b0 b1 k : forall st,
  (S (S maxJumps) - jumps st = k)%nat ->
  buffer !! offset st = Some b0 ->
  buffer !! (offset st + 1)%nat = Some b1 ->
  Z.land (byte_val b0) 0xC0 = 0xC0 ->
  pointer_target (byte_val b0) (byte_val b1) = Z.of_nat (offset st) ->
  ExtractDomainName_from buffer (List.length buffer) st
  = Some (Throw (ParseError "Too many compression jumps")).
Proof.
  induction k as [|k IH]; intros st Hk H0 H1 Hptr Hself;
    unfold ExtractDomainName_from;
    destruct (iterations_left_S (List.length buffer) st) as [n Hn];
    rewrite Hn; simpl; rewrite (body_at_pointer st b0 b1) by done.
  - rewrite decide_True by (unfold maxJumps in *; lia). reflexivity.
  - destruct (decide (maxJumps < jumps st)%nat) as [|Hj]; [reflexivity|].
    pose proof (lookup_lt_Some _ _ _ H0).
    rewrite decide_False by lia.
    rewrite Hself, Nat2Z.id.
    set (st' := {| offset := offset st |}).
    assert (Hdec : (iterations_left (List.length buffer) st' <= n)%nat).
    { unfold iterations_left, maxJumps in *. simpl. nia. }
    rewrite (loop_enough_fuel _ _ _ _ Hdec).
    apply IH; simpl; auto. unfold maxJumps in *. lia.
Qed.

End dns_pointers.

(** C1 (amended).  When decoding a name reaches a 2-byte compression
    pointer whose 14-bit target is not an index of the buffer
    (target >= N), or is the pointer's own position, ExtractDomainName
    throws DNSParseError, the only error the decoder has. *)
Theorem pointer_past_end_or_to_itself_rejected
  (buffer : list byte) (offset : nat) (st : dns.name_state) (b0 b1 : byte) :
  dns.reaches buffer (List.length buffer) (dns.initial_state offset) st ->
  buffer !! dns.offset st = Some b0 ->
  buffer !! (dns.offset st + 1)%nat = Some b1 ->
  Z.land (byte_val b0) 0xC0 = 0xC0 ->
  Z.of_nat (List.length buffer) <= dns.pointer_target (byte_val b0) (byte_val b1)
  \/ dns.pointer_target (byte_val b0) (byte_val b1) = Z.of_nat (dns.offset st) ->
  exists what,
    dns.ExtractDomainName buffer (List.length buffer) offset
    = Throw (dns.ParseError what).
Proof.
  intros Hreach H0 H1 Hptr Htarget.
  assert (Hfrom : exists what,
    dns.ExtractDomainName_from buffer (List.length buffer) st
    = Some (Throw (dns.ParseError what))).
  { destruct Htarget as [Hout|Hself].
    - unfold dns.ExtractDomainName_from.
      destruct (iterations_left_S (List.length buffer) st) as [n Hn].
      rewrite Hn. simpl. rewrite (body_at_pointer buffer st b0 b1) by done.
      destruct (decide (dns.maxJumps < dns.jumps st)%nat); [eauto|].
      rewrite decide_True by done. eauto.
    - eexists. eapply self_pointer_throws; eauto. }
  destruct Hfrom as [what Hfrom]. exists what.
  unfold dns.ExtractDomainName.
  change (dns.ExtractDomainName_loop _ buffer _ (dns.initial_state offset))
    with (dns.ExtractDomainName_from buffer (List.length buffer) (dns.initial_state offset)).
  rewrite (reaches_same_result _ _ _ _ Hreach), Hfrom. reflexivity.
Qed.

(** A witness for C1 (amended): a pointer at offset 0 of a 2-byte buffer
    whose target is 5. *)
Lemma pointer_past_end_or_to_itself_rejected_witness :
  exists what,
    dns.ExtractDomainName [xc0; x05] 2 0 = Throw (dns.ParseError what).
Proof.
  apply (pointer_past_end_or_to_itself_rejected
           [xc0; x05] 0 (dns.initial_state 0) xc0 x05).
  - apply dns.reaches_refl.
  - reflexivity.
  - reflexivity.
  - reflexivity.
  - left. vm_compute. discriminate.
Defined.

(** C1, as stated, fails: the first name of this 18-byte message is the
    pointer C0 0E at offset 12, whose target 14 lies after it.  The pointer
    is followed, the name decodes to the empty name, and the message is
    accepted. *)
Lemma forward_pointer_accepted :
  let buffer := [x00; x01; x01; x00; x00; x01; x00; x00; x00; x00; x00; x00;
                 xc0; x0e; x00; x01; x00; x01] in
  buffer !! 12%nat = Some xc0 /\ buffer !! 13%nat = Some x0e
  /\ 12 <= dns.pointer_target (byte_val xc0) (byte_val x0e)
  /\ dns.ExtractDomainName buffer 18 12 = Ok (EmptyString, 14%nat)
  /\ dns.ParseMessage buffer 18
     = Ok (true,
           Some {| dns.header := {| dns.id := 1; dns.flags := 256; dns.qdcount := 1;
                                    dns.ancount := 0; dns.nscount := 0;
                                    dns.arcount := 0 |};
                   dns.questions := [{| dns.qname := EmptyString; dns.qtype := 1;
                                        dns.qclass := 1 |}];
                   dns.answers := []; dns.authorities := [];
                   dns.additionals := [] |}).
Proof. vm_compute. repeat split; discriminate. Qed.

(** C7 (amended).  For every buffer, length and starting offset the loop of
    ExtractDomainName stops (with the name state, an exception or a read
    past the buffer) within the fuel the model gives it, more fuel changes
    nothing, and the run follows at most maxJumps + 1 = 129 compression
    pointers, whatever the length of the buffer. *)
Theorem name_decoding_terminates_within_jump_limit
  (buffer : list byte) (length offset : nat) :
  (exists r,
     forall fuel, (dns.ExtractDomainName_fuel length offset <= fuel)%nat ->
       dns.ExtractDomainName_loop fuel buffer length (dns.initial_state offset)
       = Some r)
  /\ (forall fuel,
        dns.pointers_followed fuel buffer length (dns.initial_state offset)
        <= 129)%nat.
Proof.
  split.
  - destruct (loop_terminates buffer length (dns.ExtractDomainName_fuel length offset)
                (dns.initial_state offset)) as [r Hr]; [reflexivity|].
    exists r. intros fuel Hfuel. eapply loop_more_fuel; eauto.
  - intros fuel.
    pose proof (pointers_followed_le buffer length fuel (dns.initial_state offset)) as H.
    simpl in H. unfold dns.maxJumps in H. lia.
Qed.

(** C7, as stated, fails: in the 2-byte buffer C0 00 the pointer at offset
    0 points to itself; it is followed 129 times before the jump counter
    throws, more than the length of the buffer. *)
Lemma self_pointer_followed_129_times :
  dns.pointers_followed (dns.ExtractDomainName_fuel 2 0) [xc0; x00] 2
    (dns.initial_state 0) = 129%nat
  /\ dns.ExtractDomainName [xc0; x00] 2 0
     = Throw (dns.ParseError "Too many compression jumps")
  /\ ~ (dns.pointers_followed (dns.ExtractDomainName_fuel 2 0) [xc0; x00] 2
          (dns.initial_state 0) <= List.length [xc0; x00])%nat.
Proof.
  assert (H : dns.pointers_followed (dns.ExtractDomainName_fuel 2 0) [xc0; x00] 2
                (dns.initial_state 0) = 129%nat) by (vm_compute; reflexivity).
  split; [exact H|]. split; [vm_compute; reflexivity|].
  rewrite H. simpl. lia.
Qed.

(** C4: the decoder reads past the end of its buffer.  On the 12-byte
    message of main.cpp the first question's name is read at index 12; a
    name whose last label ends the buffer is read at index N; a fixed field
    is read without any test. *)
Theorem decoder_reads_past_buffer_end :
  dns.ParseMessage main_dns_message 12 = OutOfBounds 12
  /\ dns.ExtractDomainName [x03; x61; x62; x63] 4 0 = OutOfBounds 4
  /\ dns.ReadUInt16 [x00] 0 = OutOfBounds 1
  /\ dns.ParseMessage (main_dns_message ++ [x00; x00; x01]) 15 = OutOfBounds 15.
Proof. vm_compute. auto. Qed.

(** A query for example.com with one answer whose name is a pointer to
    offset 12: the answer's name is the question's, and its rdata the four
    bytes that end the buffer. *)
Example compressed_answer_decoded :
  let buffer :=
    [x00; x01; x81; x80; x00; x01; x00; x01; x00; x00; x00; x00;
     x07; x65; x78; x61; x6d; x70; x6c; x65; x03; x63; x6f; x6d; x00;
     x00; x01; x00; x01;
     xc0; x0c; x00; x01; x00; x01; x00; x00; x00; x3c; x00; x04;
     x5d; xb8; xd8; x22] in
  dns.ParseMessage buffer (List.length buffer)
  = Ok (true,
        Some {| dns.header := {| dns.id := 1; dns.flags := 0x8180; dns.qdcount := 1;
                                 dns.ancount := 1; dns.nscount := 0;
                                 dns.arcount := 0 |};
                dns.questions := [{| dns.qname := "example.com"; dns.qtype := 1;
                                     dns.qclass := 1 |}];
                dns.answers := [{| dns.name := "example.com"; dns.type := 1;
                                   dns.rclass := 1; dns.ttl := 60;
                                   dns.rdlength := 4;
                                   dns.rdata := [x5d; xb8; xd8; x22] |}];
                dns.authorities := []; dns.additionals := [] |}).
Proof. vm_compute. reflexivity. Qed.

(** What the decoder does test: a buffer shorter than a header is refused
    before any read. *)
Lemma short_buffer_rejected (buffer : list byte) (length : nat) :
  (length < 12)%nat ->
  dns.ParseMessage buffer length
  = Throw (dns.ParseError "Buffer too small for DNS header").
Proof.
  intros H. unfold dns.ParseMessage, dns.sizeof_DNSHeader.
  rewrite decide_True by lia. reflexivity.
Qed.

(** ** The domains cache *)

(** C5.  GetDomain returns an address exactly when the key has an entry
    whose expiry lies after the clock value, and that address is the
    entry's; on an entry that has expired it reports absence and erases
    the entry, which leaves the map strictly smaller. *)
Theorem GetDomain_fresh_or_erased (now : Z) (k : string) (c : cache.DomainsCache) :
  (forall address,
     (cache.GetDomain now k c).1 = Some address
     <-> exists e, cache.cache_ c !! k = Some e
                   /\ cache.ip_address e = address
                   /\ now < cache.expiration_time e)
  /\ (forall e,
        cache.cache_ c !! k = Some e -> cache.expiration_time e <= now ->
        (cache.GetDomain now k c).1 = None
        /\ cache.cache_ (cache.GetDomain now k c).2 = delete k (cache.cache_ c)
        /\ cache.cache_ (cache.GetDomain now k c).2 !! k = None
        /\ (size (cache.cache_ (cache.GetDomain now k c).2)
            < size (cache.cache_ c))%nat).
Proof.
  unfold cache.GetDomain. split.
  - intros address. destruct (cache.cache_ c !! k) as [it|] eqn:Hk; simpl.
    + case_decide; simpl; split.
      * intros [= <-]. eauto.
      * intros (e & [= <-] & <- & _). reflexivity.
      * discriminate.
      * intros (e & [= <-] & _ & Hlt). lia.
    + split; [discriminate|]. intros (e & He & _). discriminate.
  - intros e He Hexp. rewrite He. rewrite decide_False by lia. simpl.
    split; [reflexivity|]. split; [reflexivity|].
    split; [apply lookup_delete_eq|].
    pose proof (map_size_delete k (cache.cache_ c)) as Hs.
    rewrite He in Hs. simpl in Hs. 
    assert (size (cache.cache_ c) <> 0)%nat.
    { intros H0. apply map_size_empty_inv in H0. rewrite H0 in He.
      rewrite lookup_empty in He. discriminate. }
    lia.
Qed.

(** The expiry scenario of the cache: a 10-second cache, an insert at
    clock value 0, a hit 5 seconds later, a miss 11 seconds later that
    empties the map. *)
Example cache_expiry_scenario :
  let c0 := {| cache.cache_ := ∅; cache.ttl_ := 10 |} in
  let c1 := cache.AddDomain 0 "a" "1" c0 in
  cache.GetDomain 5000000000 "a" c1 = (Some "1"%string, c1)
  /\ (cache.GetDomain 11000000000 "a" c1).1 = None
  /\ size (cache.cache_ (cache.GetDomain 11000000000 "a" c1).2) = 0%nat.
Proof.
  cbv zeta. unfold cache.GetDomain, cache.AddDomain.
  cbn [cache.cache_ cache.ttl_].
  rewrite lookup_insert_eq.
  change (cache.expiration 0 10) with 10000000000.
  cbn [cache.expiration_time cache.ip_address].
  rewrite decide_True by lia. rewrite decide_False by lia.
  split; [reflexivity|]. split; [reflexivity|].
  cbn [snd cache.cache_]. rewrite delete_insert_eq, delete_empty.
  apply map_size_empty.
Qed.

(** ** SMTP replies and their classification *)

Section smtp_replies.
Import smtp smtp.utils.

Lemma isdigit_code c : isdigit c = true -> 48 <= code c <= 57.
Proof. unfold isdigit. intros H. apply andb_true_iff in H. lia. Qed.

Lemma isdigit_not_space c : isdigit c = true -> isspace c = false.
Proof. intros H%isdigit_code. unfold isspace. lia. Qed.

Lemma isdigit_not_sign c :
  isdigit c = true -> Ascii.eqb c "-" = false /\ Ascii.eqb c "+" = false.
Proof.
  intros H%isdigit_code.
  split; apply Ascii.eqb_neq; intros ->; vm_compute in H; destruct H; auto.
Qed.

(** stoi on three digits, whatever follows them. *)
Lemma stoi_three_digits c0 c1 c2 :
  isdigit c0 = true -> isdigit c1 = true -> isdigit c2 = true ->
  stoi (String c0 (String c1 (String c2 EmptyString)))
  = Some (100 * (code c0 - 48) + 10 * (code c1 - 48) + (code c2 - 48)).
Proof.
  intros H0 H1 H2. unfold stoi. simpl.
  rewrite (isdigit_not_space _ H0).
  destruct (isdigit_not_sign _ H0) as [-> ->].
  rewrite H0. simpl. rewrite H0, H1, H2.
  apply isdigit_code in H0, H1, H2.
  rewrite decide_True by lia. f_equal; lia.
Qed.

(** stoi stops at the first character that is not a digit. *)
Lemma stoi_one_digit c0 c1 s :
  isdigit c0 = true -> isdigit c1 = false ->
  stoi (String c0 (String c1 s)) = Some (code c0 - 48).
Proof.
  intros H0 H1. unfold stoi. simpl.
  rewrite (isdigit_not_space _ H0).
  destruct (isdigit_not_sign _ H0) as [-> ->].
  rewrite H0. simpl. rewrite H0, H1.
  apply isdigit_code in H0.
  rewrite decide_True by lia. f_equal; lia.
Qed.

Lemma stoi_two_digits c0 c1 c2 s :
  isdigit c0 = true -> isdigit c1 = true -> isdigit c2 = false ->
  stoi (String c0 (String c1 (String c2 s)))
  = Some (10 * (code c0 - 48) + (code c1 - 48)).
Proof.
  intros H0 H1 H2. unfold stoi. simpl.
  rewrite (isdigit_not_space _ H0).
  destruct (isdigit_not_sign _ H0) as [-> ->].
  rewrite H0. simpl. rewrite H0, H1, H2.
  apply isdigit_code in H0, H1.
  rewrite decide_True by lia. f_equal; lia.
Qed.

(** stoi throws when the first character starts no number. *)
Lemma stoi_no_number c s :
  isdigit c = false -> isspace c = false ->
  c <> "-"%char -> c <> "+"%char ->
  stoi (String c s) = None.
Proof.
  intros Hd Hs Hm Hp. unfold stoi. simpl. rewrite Hs.
  apply Ascii.eqb_neq in Hm, Hp. rewrite Hm, Hp, Hd. reflexivity.
Qed.

(** stoi skips white space before the number. *)
Lemma stoi_skips_space c s : isspace c = true -> stoi (String c s) = stoi s.
Proof. intros H. unfold stoi. simpl. rewrite H. reflexivity. Qed.

Lemma stoi_last_digit c : isdigit c = true -> stoi (String c EmptyString) = Some (code c - 48).
Proof.
  intros H. unfold stoi. simpl. rewrite (isdigit_not_space _ H).
  destruct (isdigit_not_sign _ H) as [-> ->]. rewrite H. simpl. rewrite H.
  apply isdigit_code in H. rewrite decide_True by lia. f_equal; lia.
Qed.

Lemma stoi_last_two_digits c0 c1 :
  isdigit c0 = true -> isdigit c1 = true ->
  stoi (String c0 (String c1 EmptyString))
  = Some (10 * (code c0 - 48) + (code c1 - 48)).
Proof.
  intros H0 H1. unfold stoi. simpl. rewrite (isdigit_not_space _ H0).
  destruct (isdigit_not_sign _ H0) as [-> ->]. rewrite H0. simpl.
  rewrite H0, H1. apply isdigit_code in H0, H1.
  rewrite decide_True by lia. f_equal; lia.
Qed.

(** stoi reads one sign, and then wants a digit at once. *)
Lemma stoi_sign_then_digits c0 c1 s :
  c0 = "-"%char \/ c0 = "+"%char -> isdigit c1 = true ->
  - 2 ^ 31 < digits 0 (String c1 s) < 2 ^ 31 ->
  stoi (String c0 (String c1 s))
  = Some ((if Ascii.eqb c0 "-" then -1 else 1) * digits 0 (String c1 s)).
Proof.
  intros [-> | ->] H1 Hrange; unfold stoi; cbn [skip_spaces];
    change (isspace "-") with false; change (isspace "+") with false;
    cbv iota; cbn [Ascii.eqb Bool.eqb]; cbv iota; rewrite H1;
    cbv zeta; cbv iota; (rewrite decide_True by lia); f_equal; lia.
Qed.

Lemma stoi_sign_then_no_digit c0 s :
  c0 = "-"%char \/ c0 = "+"%char ->
  match s with
  | String c1 _ => isdigit c1 = false
  | EmptyString => True
  end ->
  stoi (String c0 s) = None.
Proof.
  intros [-> | ->] H; unfold stoi; cbn [skip_spaces];
    change (isspace "-") with false; change (isspace "+") with false;
    cbv iota; cbn [Ascii.eqb Bool.eqb]; cbv iota;
    (destruct s as [|c1 s]; [reflexivity|rewrite H; reflexivity]).
Qed.

Lemma substring_3 c0 c1 c2 rest :
  substring 0 3 (String c0 (String c1 (String c2 rest)))
  = String c0 (String c1 (String c2 EmptyString)).
Proof. simpl. destruct rest; reflexivity. Qed.

(** The success flag and the response code are read off the same parse. *)
Lemma IsSuccessResponse_iff response :
  IsSuccessResponse response = true <-> 200 <= GetResponseCode response < 400.
Proof.
  unfold IsSuccessResponse, GetResponseCode.
  case_decide; [split; [discriminate|lia]|].
  rewrite andb_true_iff. lia.
Qed.

End smtp_replies.

(** C8 (amended).  The response code is the number the first three
    characters denote when all three are ASCII digits; when only the first
    one or two are digits it is the number these denote; it is 0 when the
    reply has fewer than three characters, and 0 when its first character
    is neither a digit, nor a sign, nor white space.  After a sign or
    white space it is the integer std::stoi reads from the first three
    characters, 0 if there is none: white space is skipped; one sign is
    read, and a digit must follow it at once; the digits that follow, up to
    the third character, are the number, negated after a minus sign. *)
Theorem GetResponseCode_leading_digits_or_zero :
  (forall c0 c1 c2 rest,
     smtp.utils.isdigit c0 = true -> smtp.utils.isdigit c1 = true ->
     smtp.utils.isdigit c2 = true ->
     smtp.utils.GetResponseCode (String c0 (String c1 (String c2 rest)))
     = 100 * (smtp.utils.code c0 - 48) + 10 * (smtp.utils.code c1 - 48)
       + (smtp.utils.code c2 - 48))
  /\ (forall c0 c1 c2 rest,
        smtp.utils.isdigit c0 = true -> smtp.utils.isdigit c1 = true ->
        smtp.utils.isdigit c2 = false ->
        smtp.utils.GetResponseCode (String c0 (String c1 (String c2 rest)))
        = 10 * (smtp.utils.code c0 - 48) + (smtp.utils.code c1 - 48))
  /\ (forall c0 c1 c2 rest,
        smtp.utils.isdigit c0 = true -> smtp.utils.isdigit c1 = false ->
        smtp.utils.GetResponseCode (String c0 (String c1 (String c2 rest)))
        = smtp.utils.code c0 - 48)
  /\ (forall response,
        (String.length response < 3)%nat -> smtp.utils.GetResponseCode response = 0)
  /\ (forall c0 rest,
        smtp.utils.isdigit c0 = false -> smtp.utils.isspace c0 = false ->
        c0 <> "-"%char -> c0 <> "+"%char ->
        smtp.utils.GetResponseCode (String c0 rest) = 0)
  (* a sign first *)
  /\ (forall c0 c1 c2 rest,
        c0 = "-"%char \/ c0 = "+"%char ->
        smtp.utils.isdigit c1 = true -> smtp.utils.isdigit c2 = true ->
        smtp.utils.GetResponseCode (String c0 (String c1 (String c2 rest)))
        = (if Ascii.eqb c0 "-" then -1 else 1)
          * (10 * (smtp.utils.code c1 - 48) + (smtp.utils.code c2 - 48)))
  /\ (forall c0 c1 c2 rest,
        c0 = "-"%char \/ c0 = "+"%char ->
        smtp.utils.isdigit c1 = true -> smtp.utils.isdigit c2 = false ->
        smtp.utils.GetResponseCode (String c0 (String c1 (String c2 rest)))
        = (if Ascii.eqb c0 "-" then -1 else 1) * (smtp.utils.code c1 - 48))
  /\ (forall c0 c1 c2 rest,
        c0 = "-"%char \/ c0 = "+"%char ->
        smtp.utils.isdigit c1 = false ->
        smtp.utils.GetResponseCode (String c0 (String c1 (String c2 rest))) = 0)
  (* white space first *)
  /\ (forall c0 c1 c2 rest,
        smtp.utils.isspace c0 = true ->
        smtp.utils.isdigit c1 = true -> smtp.utils.isdigit c2 = true ->
        smtp.utils.GetResponseCode (String c0 (String c1 (String c2 rest)))
        = 10 * (smtp.utils.code c1 - 48) + (smtp.utils.code c2 - 48))
  /\ (forall c0 c1 c2 rest,
        smtp.utils.isspace c0 = true ->
        smtp.utils.isdigit c1 = true -> smtp.utils.isdigit c2 = false ->
        smtp.utils.GetResponseCode (String c0 (String c1 (String c2 rest)))
        = smtp.utils.code c1 - 48)
  /\ (forall c0 c1 c2 rest,
        smtp.utils.isspace c0 = true ->
        c1 = "-"%char \/ c1 = "+"%char ->
        smtp.utils.isdigit c2 = true ->
        smtp.utils.GetResponseCode (String c0 (String c1 (String c2 rest)))
        = (if Ascii.eqb c1 "-" then -1 else 1) * (smtp.utils.code c2 - 48))
  /\ (forall c0 c1 c2 rest,
        smtp.utils.isspace c0 = true -> smtp.utils.isspace c1 = true ->
        smtp.utils.isdigit c2 = true ->
        smtp.utils.GetResponseCode (String c0 (String c1 (String c2 rest)))
        = smtp.utils.code c2 - 48)
  /\ (forall c0 c1 c2 rest,
        smtp.utils.isspace c0 = true ->
        smtp.utils.isdigit c1 = false -> smtp.utils.isdigit c2 = false ->
        smtp.utils.GetResponseCode (String c0 (String c1 (String c2 rest))) = 0)
  /\ (forall c0 c1 c2 rest,
        smtp.utils.isspace c0 = true ->
        smtp.utils.isdigit c1 = false -> smtp.utils.isspace c1 = false ->
        c1 <> "-"%char -> c1 <> "+"%char ->
        smtp.utils.GetResponseCode (String c0 (String c1 (String c2 rest))) = 0).
Proof.
  assert (forall c0 c1 c2 rest,
            smtp.utils.GetResponseCode (String c0 (String c1 (String c2 rest)))
            = match smtp.utils.stoi (String c0 (String c1 (String c2 EmptyString))) with
              | Some v => v
              | None => 0
              end) as Hthree.
  { intros c0 c1 c2 rest. unfold smtp.utils.GetResponseCode.
    rewrite decide_False by (simpl; lia). rewrite substring_3. reflexivity. }
  split; [|split; [|split; [|split; [|split; [|split; [|split; [|split;
    [|split; [|split; [|split; [|split; [|split]]]]]]]]]]]].
  - intros c0 c1 c2 rest H0 H1 H2. unfold smtp.utils.GetResponseCode.
    rewrite decide_False by (simpl; lia).
    rewrite substring_3, stoi_three_digits by done. reflexivity.
  - intros c0 c1 c2 rest H0 H1 H2. unfold smtp.utils.GetResponseCode.
    rewrite decide_False by (simpl; lia).
    rewrite substring_3, stoi_two_digits by done. reflexivity.
  - intros c0 c1 c2 rest H0 H1. unfold smtp.utils.GetResponseCode.
    rewrite decide_False by (simpl; lia).
    rewrite substring_3, stoi_one_digit by done. reflexivity.
  - intros response H. unfold smtp.utils.GetResponseCode.
    rewrite decide_True by done. reflexivity.
  - intros c0 rest Hd Hs Hm Hp. unfold smtp.utils.GetResponseCode.
    case_decide as Hlen; [reflexivity|].
    destruct rest as [|c1 [|c2 rest]]; [simpl in Hlen; lia..|].
    rewrite substring_3, stoi_no_number by done. reflexivity.
  - intros c0 c1 c2 rest Hsign H1 H2. rewrite Hthree.
    pose proof (isdigit_code _ H1). pose proof (isdigit_code _ H2).
    rewrite stoi_sign_then_digits; [ | exact Hsign | exact H1 | ];
      simpl; rewrite H1, H2; [f_equal; lia|lia].
  - intros c0 c1 c2 rest Hsign H1 H2. rewrite Hthree.
    pose proof (isdigit_code _ H1).
    rewrite stoi_sign_then_digits; [ | exact Hsign | exact H1 | ];
      simpl; rewrite H1, H2; [f_equal; lia|lia].
  - intros c0 c1 c2 rest Hsign H1. rewrite Hthree.
    rewrite stoi_sign_then_no_digit; [reflexivity|exact Hsign|exact H1].
  - intros c0 c1 c2 rest H0 H1 H2. rewrite Hthree.
    rewrite (stoi_skips_space _ _ H0), stoi_last_two_digits by done. reflexivity.
  - intros c0 c1 c2 rest H0 H1 H2. rewrite Hthree.
    rewrite (stoi_skips_space _ _ H0), stoi_one_digit by done. reflexivity.
  - intros c0 c1 c2 rest H0 Hsign H2. rewrite Hthree.
    pose proof (isdigit_code _ H2).
    rewrite (stoi_skips_space _ _ H0).
    rewrite stoi_sign_then_digits; [ | exact Hsign | exact H2 | ];
      simpl; rewrite H2; [f_equal; lia|lia].
  - intros c0 c1 c2 rest H0 H1 H2. rewrite Hthree.
    rewrite (stoi_skips_space _ _ H0), (stoi_skips_space _ _ H1).
    rewrite stoi_last_digit by done. reflexivity.
  - intros c0 c1 c2 rest H0 H1 H2. rewrite Hthree.
    rewrite (stoi_skips_space _ _ H0).
    assert (smtp.utils.stoi (String c2 EmptyString) = None) as Hlast.
    { destruct (smtp.utils.isspace c2) eqn:Hs2;
        [rewrite (stoi_skips_space _ _ Hs2); reflexivity|].
      destruct (ascii_dec c2 "-") as [->|Hm]; [reflexivity|].
      destruct (ascii_dec c2 "+") as [->|Hp]; [reflexivity|].
      apply stoi_no_number; assumption. }
    destruct (smtp.utils.isspace c1) eqn:Hs1;
      [rewrite (stoi_skips_space _ _ Hs1), Hlast; reflexivity|].
    destruct (ascii_dec c1 "-") as [->|Hm];
      [rewrite stoi_sign_then_no_digit; [reflexivity|left; reflexivity|exact H2]|].
    destruct (ascii_dec c1 "+") as [->|Hp];
      [rewrite stoi_sign_then_no_digit; [reflexivity|right; reflexivity|exact H2]|].
    rewrite stoi_no_number by assumption. reflexivity.
  - intros c0 c1 c2 rest H0 H1 Hs1 Hm Hp. rewrite Hthree.
    rewrite (stoi_skips_space _ _ H0), stoi_no_number by assumption. reflexivity.
Qed.

(** A witness for C8 (amended): the codes of "535 5.7.8 try later", of
    "25", of "OK go", of "-12 odd" and of " 25 queued". *)
Lemma GetResponseCode_leading_digits_or_zero_witness :
  smtp.utils.GetResponseCode "535 5.7.8 try later" = 535
  /\ smtp.utils.GetResponseCode "25" = 0
  /\ smtp.utils.GetResponseCode "OK go" = 0
  /\ smtp.utils.GetResponseCode "-12 odd" = -12
  /\ smtp.utils.GetResponseCode " 25 queued" = 25.
Proof.
  destruct GetResponseCode_leading_digits_or_zero
    as (Hdigits & _ & _ & Hshort & Hother & Hsign & _ & _ & Hspace & _).
  split; [|split; [|split; [|split]]].
  - apply (Hdigits "5"%char "3"%char "5"%char " 5.7.8 try later"%string);
      reflexivity.
  - apply Hshort. simpl. lia.
  - apply (Hother "O"%char "K go"%string);
      [reflexivity|reflexivity|discriminate|discriminate].
  - apply (Hsign "-"%char "1"%char "2"%char " odd"%string);
      [left; reflexivity|reflexivity|reflexivity].
  - apply (Hspace " "%char "2"%char "5"%char " queued"%string); reflexivity.
Defined.

(** C8, as stated, fails: the first three characters of these replies are
    not all digits, and their response code is not 0. *)
Lemma GetResponseCode_reads_partial_numbers :
  smtp.utils.GetResponseCode "2xx done" = 2
  /\ smtp.utils.GetResponseCode " 25 queued" = 25
  /\ smtp.utils.GetResponseCode "-12 odd" = -12
  /\ smtp.utils.isdigit "x" = false
  /\ smtp.utils.isdigit " " = false
  /\ smtp.utils.isdigit "-" = false.
Proof. vm_compute. repeat split. Qed.

(** C3.  In every AuthResult that ProcessResponse builds from a final
    reply, the success flag holds exactly when the response code lies in
    [200, 400). *)
Theorem success_iff_code_2xx_3xx
  (use_ssl_ : bool) (current_username_ current_password_ : string)
  (net net' : list smtp.recv_event) (o : smtp.AuthResult) :
  smtp.ProcessResponse use_ssl_ current_username_ current_password_ net
  = Ok (o, net') ->
  (smtp.success o = true <-> 200 <= smtp.response_code o < 400).
Proof.
  unfold smtp.ProcessResponse.
  destruct (smtp.ReadResponse use_ssl_ net) as [[[ok response] net1]| |];
    simpl; try discriminate.
  destruct ok; simpl; try discriminate.
  intros [= <- <-]. simpl. apply IsSuccessResponse_iff.
Qed.

(** A witness for C3: the outcome of the reply "235 ok\r\n". *)
Lemma success_iff_code_2xx_3xx_witness :
  let o := {| smtp.success := true;
              smtp.error_message := ("235 ok" +:+ smtp.CRLF)%string;
              smtp.response_code := 235;
              smtp.username := "alice"; smtp.password := "s3cret" |} in
  smtp.ProcessResponse false "alice" "s3cret"
    [smtp.Data ("235 ok" +:+ smtp.CRLF)%string] = Ok (o, [])
  /\ (smtp.success o = true <-> 200 <= smtp.response_code o < 400).
Proof.
  assert (H : smtp.ProcessResponse false "alice" "s3cret"
                [smtp.Data ("235 ok" +:+ smtp.CRLF)%string]
              = Ok ({| smtp.success := true;
                       smtp.error_message := ("235 ok" +:+ smtp.CRLF)%string;
                       smtp.response_code := 235;
                       smtp.username := "alice"; smtp.password := "s3cret" |}, []))
    by (vm_compute; reflexivity).
  split; [exact H|].
  exact (success_iff_code_2xx_3xx false "alice" "s3cret" _ _ _ H).
Defined.

Section smtp_continuation.
Import smtp.

(** Appending leaves the first four characters where they are, so a
    response that starts with a continuation line never passes the test
    of ReadResponse. *)
Lemma complete_response_app c0 c1 c2 c3 rest more :
  complete_response (String c0 (String c1 (String c2 (String c3 rest))) +:+ more)
  = complete_response (String c0 (String c1 (String c2 (String c3 rest)))).
Proof. reflexivity. Qed.

Lemma ReadResponse_loop_never_completes fuel use_ssl_ : forall net c0 c1 c2 rest,
  match ReadResponse_loop fuel use_ssl_ net
          (String c0 (String c1 (String c2 (String "-" rest)))) with
  | Some (Ok (true, _, _)) => False
  | _ => True
  end.
Proof.
  induction fuel as [|fuel IH]; intros net c0 c1 c2 rest; simpl; [exact I|].
  destruct (Receive use_ssl_ 1023 net) as [[buffer net']| |]; try exact I.
  case_decide; [exact I|]. simpl. apply IH.
Qed.

End smtp_continuation.

Section smtp_receive.
Import smtp.

Lemma substring_length_le s : forall n m,
  (String.length (substring n m s) <= m)%nat.
Proof.
  induction s as [|c s IH]; intros [|n] [|m]; simpl; try lia.
  - specialize (IH 0%nat m). lia.
  - apply (IH n 0%nat).
  - apply (IH n (S m)).
Qed.

(** A call of Receive that delivers bytes shortens the script. *)
Lemma Receive_shortens use_ssl_ net buffer net' :
  Receive use_ssl_ 1023 net = Ok (buffer, net') ->
  String.length buffer <> 0%nat ->
  (script_size net' < script_size net)%nat.
Proof.
  unfold Receive. rewrite decide_False by lia.
  destruct net as [|[bytes| | |error] net]; try discriminate.
  - repeat case_decide; destruct use_ssl_; try discriminate;
      intros [= <- <-] Hlen; simpl in *; try lia.
    + pose proof (substring_length_le bytes 1023 (String.length bytes - 1023)). lia.
    + pose proof (substring_length_le bytes 1023 (String.length bytes - 1023)). lia.
  - destruct use_ssl_; try discriminate. intros [= <- <-] Hlen. simpl in *. lia.
  - destruct use_ssl_; discriminate.
Qed.

(** The loop of ReadResponse ends within the fuel ReadResponse gives it. *)
Lemma ReadResponse_loop_terminates use_ssl_ fuel : forall net response,
  (script_size net < fuel)%nat ->
  exists r, ReadResponse_loop fuel use_ssl_ net response = Some r.
Proof.
  induction fuel as [|fuel IH]; intros net response Hfuel; [lia|].
  simpl. destruct (Receive use_ssl_ 1023 net) as [[buffer net']| |] eqn:Hrecv; eauto.
  case_decide as Hlen; eauto.
  destruct (complete_response _); eauto.
  apply IH. pose proof (Receive_shortens _ _ _ _ Hrecv Hlen). lia.
Qed.

End smtp_receive.

(** C2: ReadResponse does not frame multi-line replies.  Its test looks at
    column 4 of the whole response, which holds '-' once a continuation
    line has arrived, so the rejection reply is never returned: the loop
    asks the peer for more until the receive times out, or reports
    failure when the peer closes; ProcessResponse then builds no
    AuthResult.  The single-line reply is framed and classified. *)
Theorem multi_line_reply_is_not_framed :
  smtp.ProcessResponse false "alice" "s3cret" [smtp.Data smtp.rejection_reply]
  = Throw (smtp.SocketException "Receive timeout")
  /\ smtp.ProcessResponse false "alice" "s3cret"
       [smtp.Data smtp.rejection_reply; smtp.Closed]
     = Throw (smtp.SMTPException "Failed to read authentication response")
  /\ smtp.ProcessResponse false "alice" "s3cret"
       [smtp.Data ("535-5.7.8 authentication failed" +:+ smtp.CRLF)%string;
        smtp.Data ("535 5.7.8 try later" +:+ smtp.CRLF)%string]
     = Throw (smtp.SocketException "Receive timeout")
  /\ smtp.ProcessResponse false "alice" "s3cret"
       [smtp.Data ("535 5.7.8 try later" +:+ smtp.CRLF)%string]
     = Ok ({| smtp.success := false;
              smtp.error_message := ("535 5.7.8 try later" +:+ smtp.CRLF)%string;
              smtp.response_code := 535;
              smtp.username := "alice"; smtp.password := "s3cret" |}, []).
Proof. vm_compute. repeat split. Qed.

(** ** The orchestrator *)

Section orchestrator.
Import smtp.

Lemma GetNextCredentials_exhausted f :
  (List.length (usernames (params_ f)) <= current_user_index_ f)%nat ->
  GetNextCredentials f = Ok (EmptyString, EmptyString, f).
Proof. intros H. unfold GetNextCredentials. rewrite decide_True by done. reflexivity. Qed.

(** GetNextCredentials touches the two indices only. *)
Lemma GetNextCredentials_frame f username password f' :
  GetNextCredentials f = Ok (username, password, f') ->
  params_ f' = params_ f /\ stop_requested_ f' = stop_requested_ f
  /\ attempts_count_ f' = attempts_count_ f
  /\ worker_threads_ f' = worker_threads_ f /\ probed f' = probed f.
Proof.
  unfold GetNextCredentials. case_decide.
  - intros [= <- <- <-]. auto.
  - destruct (at_index (usernames _) _); simpl; try discriminate.
    destruct (at_index (passwords _) _); simpl; try discriminate.
    intros [= <- <- <-]. simpl. auto.
Qed.

(** GetNextCredentials returns the head of [remaining] and leaves its
    tail; when nothing remains it returns the pair of empty strings. *)
Lemma GetNextCredentials_remaining f :
  (current_pass_index_ f < List.length (passwords (params_ f)))%nat ->
  match remaining f with
  | [] => GetNextCredentials f = Ok (EmptyString, EmptyString, f)
  | (username, password) :: rest =>
      exists f', GetNextCredentials f = Ok (username, password, f')
                 /\ remaining f' = rest
                 /\ (current_pass_index_ f' < List.length (passwords (params_ f')))%nat
  end.
Proof.
  intros Hpass. unfold remaining, GetNextCredentials.
  destruct (decide (List.length (usernames (params_ f)) <= current_user_index_ f)%nat)
    as [Hge|Hlt].
  { rewrite drop_ge by done. reflexivity. }
  destruct (lookup_lt_is_Some_2 (usernames (params_ f)) (current_user_index_ f))
    as [u Hu]; [lia|].
  destruct (lookup_lt_is_Some_2 (passwords (params_ f)) (current_pass_index_ f))
    as [p Hp]; [lia|].
  rewrite (drop_S _ _ _ Hu), (drop_S _ _ _ Hp). simpl.
  unfold at_index. rewrite Hu, Hp. simpl.
  eexists. split; [reflexivity|]. simpl.
  case_bool_decide as Hwrap; simpl.
  - rewrite (drop_ge (passwords (params_ f)) (S (current_pass_index_ f))) by lia.
    simpl. split; [|lia].
    destruct (drop (S (current_user_index_ f)) (usernames (params_ f))); reflexivity.
  - rewrite (drop_S _ _ _ Hu). split; [reflexivity|lia].
Qed.

(** Once nothing remains, every call returns the pair of empty strings. *)
Lemma draw_exhausted k f :
  GetNextCredentials f = Ok (EmptyString, EmptyString, f) ->
  draw k f = Ok (replicate k (EmptyString, EmptyString)).
Proof.
  intros H. induction k as [|k IH]; simpl; [reflexivity|].
  rewrite H. simpl. rewrite IH. reflexivity.
Qed.

Lemma draw_remaining n : forall f k,
  (current_pass_index_ f < List.length (passwords (params_ f)))%nat ->
  List.length (remaining f) = n ->
  draw (n + k) f = Ok (remaining f ++ replicate k (EmptyString, EmptyString)).
Proof.
  induction n as [|n IH]; intros f k Hpass Hlen;
    pose proof (GetNextCredentials_remaining f Hpass) as Hnext;
    destruct (remaining f) as [|[u p] rest]; try discriminate.
  - simpl. apply draw_exhausted. exact Hnext.
  - destruct Hnext as (f' & Hget & Hrest & Hpass').
    simpl. rewrite Hget. simpl.
    rewrite (IH f' k Hpass') by (rewrite Hrest; simpl in Hlen; lia).
    simpl. rewrite Hrest. reflexivity.
Qed.

(** How a move of one worker changes the pairs being probed. *)
Lemma busy_pairs_idle ws x y : forall w,
  ws !! w = Some x -> not_busy x -> not_busy y ->
  busy_pairs (<[w := y]> ws) = busy_pairs ws.
Proof.
  induction ws as [|z ws IH]; intros [|w] H Hx Hy; simpl in *; try discriminate.
  - injection H as ->. destruct x, y; simpl in *; done.
  - destruct z; simpl; rewrite ?(IH w); auto.
Qed.

Lemma busy_pairs_take ws x u p : forall w,
  ws !! w = Some x -> not_busy x ->
  busy_pairs (<[w := Busy u p]> ws) ≡ₚ (u, p) :: busy_pairs ws.
Proof.
  induction ws as [|z ws IH]; intros [|w] H Hx; simpl in *; try discriminate.
  - injection H as ->. destruct x; simpl in *; done.
  - destruct z; simpl; rewrite ?(IH w); auto. apply perm_swap.
Qed.

Lemma busy_pairs_finish ws u p : forall w,
  ws !! w = Some (Busy u p) ->
  busy_pairs ws ≡ₚ (u, p) :: busy_pairs (<[w := Idle]> ws).
Proof.
  induction ws as [|x ws IH]; intros [|w] H; simpl in *; try discriminate.
  - injection H as ->. reflexivity.
  - destruct x; simpl; rewrite ?(IH w H); auto. apply perm_swap.
Qed.

Lemma Exited_after_insert (ws : list worker) (w : nat) (x : worker) :
  x <> Exited -> Exited ∈ <[w := x]> ws -> Exited ∈ ws.
Proof.
  intros Hx [i Hi]%list_elem_of_lookup.
  apply list_lookup_insert_Some in Hi as [(_ & Heq & _)|(_ & Hi)]; [done|].
  apply list_elem_of_lookup. eauto.
Qed.

End orchestrator.

Section orchestrator_runs.
Import smtp.
Variable params : BruteForceParams.
Hypothesis passwords_not_empty : passwords params <> [].
Hypothesis no_empty_pair :
  ~ (EmptyString ∈ usernames params /\ EmptyString ∈ passwords params).

Lemma busy_pairs_replicate_Idle n : busy_pairs (replicate n Idle) = [].
Proof. induction n; simpl; auto. Qed.

Lemma busy_pairs_all_Exited ws : Forall (eq Exited) ws -> busy_pairs ws = [].
Proof. induction 1 as [|x ws <- _ IH]; simpl; auto. Qed.

Lemma remaining_Start :
  remaining (Start params) = list_prod (usernames params) (passwords params).
Proof.
  clear passwords_not_empty no_empty_pair.
  unfold remaining. simpl. destruct (usernames params); reflexivity.
Qed.

Lemma Start_consistent :
  consistent params (Start params) /\ exhausted_if_exited (Start params).
Proof.
  split.
  - constructor; simpl.
    + reflexivity.
    + clear no_empty_pair. destruct (passwords params); [done|simpl; lia].
    + apply length_replicate.
    + exists []. rewrite remaining_Start, busy_pairs_replicate_Idle. auto.
  - intros _ [H _]%elem_of_replicate. discriminate.
Qed.

(** A pair that remains is a pair of the product, so not the empty pair. *)
Lemma remaining_head_not_empty f handed u p rest :
  handed ++ remaining f = list_prod (usernames params) (passwords params) ->
  remaining f = (u, p) :: rest ->
  bool_decide (u = EmptyString) && bool_decide (p = EmptyString) = false.
Proof.
  intros Hprod Hrem. apply andb_false_iff.
  destruct (decide (u = EmptyString)) as [->|Hu];
    [|left; by apply bool_decide_eq_false].
  destruct (decide (p = EmptyString)) as [->|Hp];
    [|right; by apply bool_decide_eq_false].
  exfalso. apply no_empty_pair.
  assert (Hin : In (EmptyString, EmptyString)
                  (list_prod (usernames params) (passwords params))).
  { rewrite <- Hprod, Hrem. apply in_or_app. right. left. reflexivity. }
  apply in_prod_iff in Hin as [H1 H2].
  split; apply list_elem_of_In; assumption.
Qed.

(** Every move of a worker keeps the invariant, and none reads out of
    range. *)
Lemma WorkerThread_step_consistent w task_success f :
  consistent params f -> exhausted_if_exited f ->
  exists f', WorkerThread_step w task_success f = Ok f'
             /\ consistent params f' /\ exhausted_if_exited f'.
Proof.
  intros [Hparams Hindex Hworkers (handed & Hprod & Hperm)] Hexit.
  unfold WorkerThread_step.
  destruct (worker_threads_ f !! w) as [[| |u p|]|] eqn:Hw.
  - (* Idle *)
    destruct (stop_requested_ f) eqn:Hstop.
    + eexists. split; [reflexivity|]. split.
      * constructor; simpl; auto.
        -- by rewrite length_insert.
        -- exists handed. rewrite (busy_pairs_idle _ Idle) by done. auto.
      * intros Hs. simpl in Hs. congruence.
    + eexists. split; [reflexivity|]. split.
      * constructor; simpl; auto.
        -- by rewrite length_insert.
        -- exists handed. rewrite (busy_pairs_idle _ Idle) by done. auto.
      * intros Hs Hin. simpl in *.
        apply Exited_after_insert in Hin; [|discriminate]. by apply Hexit.
  - (* Drawing *)
    pose proof (GetNextCredentials_remaining f) as Hnext.
    rewrite Hparams in Hnext. specialize (Hnext Hindex).
    destruct (remaining f) as [|[u p] rest] eqn:Hrem.
    + rewrite Hnext. simpl.
      eexists. split; [reflexivity|]. split.
      * constructor; simpl; auto.
        -- by rewrite length_insert.
        -- exists handed. rewrite (busy_pairs_idle _ Drawing) by done.
           unfold remaining in *. simpl. rewrite Hrem. auto.
      * intros _ _. unfold remaining in *. simpl. exact Hrem.
    + destruct Hnext as (f1 & Hget & Hrest & Hindex1).
      rewrite Hget. simpl.
      rewrite (remaining_head_not_empty f handed u p rest)
        by (rewrite ?Hrem; done).
      apply GetNextCredentials_frame in Hget
        as (Hp1 & Hs1 & Ha1 & Hw1 & Hpr1).
      eexists. split; [reflexivity|]. split.
      * constructor; simpl.
        -- congruence.
        -- rewrite <- Hparams, <- Hp1. exact Hindex1.
        -- rewrite length_insert. congruence.
        -- exists (handed ++ [(u, p)]). split.
           ++ rewrite <- app_assoc. simpl.
              change (remaining (set_worker w (Busy u p) f1)) with (remaining f1).
              rewrite Hrest. exact Hprod.
           ++ rewrite Hw1, Hpr1, (busy_pairs_take _ Drawing) by done.
              rewrite Hperm, <- app_assoc. apply Permutation_app_head.
              symmetry. apply Permutation_cons_append.
      * intros Hs Hin. simpl in *.
        rewrite Hw1 in Hin. apply Exited_after_insert in Hin; [|discriminate].
        rewrite Hs1 in Hs. specialize (Hexit Hs Hin).
        rewrite Hrem in Hexit. discriminate.
  - (* Busy *)
    eexists. split; [reflexivity|]. split.
    + constructor; simpl; auto.
      * by rewrite length_insert.
      * exists handed. split; [exact Hprod|].
        rewrite Hperm, (busy_pairs_finish _ _ _ _ Hw), <- app_assoc.
        apply Permutation_app_head. reflexivity.
    + intros Hs Hin. simpl in *.
      apply Exited_after_insert in Hin; [|discriminate].
      apply Hexit; [|exact Hin].
      destruct (task_success && stop_on_success (params_ f)); [discriminate|exact Hs].
  - (* Exited *)
    eexists. split; [reflexivity|]. split; [constructor; eauto|exact Hexit].
  - eexists. split; [reflexivity|]. split; [constructor; eauto|exact Hexit].
Qed.

Lemma run_consistent schedule : forall f,
  consistent params f -> exhausted_if_exited f ->
  exists f', run schedule f = Ok f'
             /\ consistent params f' /\ exhausted_if_exited f'.
Proof.
  induction schedule as [|[w b] schedule IH]; intros f Hc He; simpl; [eauto|].
  destruct (WorkerThread_step_consistent w b f Hc He) as (f1 & -> & Hc1 & He1).
  simpl. apply IH; assumption.
Qed.

End orchestrator_runs.

(** C6 (amended).  When the passwords are not empty, the pairs
    GetNextCredentials hands out, call after call, are the cartesian
    product usernames x passwords in row-major order (outer loop =
    username), each position once, followed by the pair of empty strings
    for ever.  When moreover the empty string is not both a username and a
    password: in every state of every run the pairs probed or being probed
    are, up to order, a prefix of the product; and when all workers (at
    least one) have left their loop with no stop requested, the pairs
    probed are exactly the product, up to order. *)
Theorem credentials_follow_cartesian_product (params : smtp.BruteForceParams) :
  smtp.passwords params <> [] ->
  (forall k,
     smtp.draw (List.length (list_prod (smtp.usernames params) (smtp.passwords params)) + k)
       (smtp.Start params)
     = Ok (list_prod (smtp.usernames params) (smtp.passwords params)
           ++ replicate k (EmptyString, EmptyString)))
  /\ (~ (EmptyString ∈ smtp.usernames params /\ EmptyString ∈ smtp.passwords params) ->
      forall schedule,
        exists f,
          smtp.run schedule (smtp.Start params) = Ok f
          /\ (exists handed,
                handed `prefix_of` list_prod (smtp.usernames params) (smtp.passwords params)
                /\ handed ≡ₚ smtp.probed f ++ smtp.busy_pairs (smtp.worker_threads_ f))
          /\ (smtp.stop_requested_ f = false ->
              (0 < smtp.max_concurrent_connections params)%nat ->
              Forall (eq smtp.Exited) (smtp.worker_threads_ f) ->
              smtp.probed f ≡ₚ list_prod (smtp.usernames params) (smtp.passwords params))).
Proof.
  intros Hpass.
  destruct (Start_consistent params Hpass) as [Hc He].
  split.
  - intros k. rewrite <- (remaining_Start params).
    apply draw_remaining; [|reflexivity].
    destruct Hc as [_ Hi _ _]. exact Hi.
  - intros Hempty schedule.
    destruct (run_consistent params Hempty schedule _ Hc He)
      as (f & Hrun & [Hparams Hindex Hworkers (handed & Hprod & Hperm)] & Hexit).
    exists f. split; [exact Hrun|]. split.
    + exists handed. split; [|exact Hperm]. exists (smtp.remaining f). auto.
    + intros Hstop Hsome Hall.
      assert (Hin : smtp.Exited ∈ smtp.worker_threads_ f).
      { destruct (smtp.worker_threads_ f) as [|x ws]; [simpl in Hworkers; lia|].
        apply Forall_cons in Hall as [<- _]. left. }
      rewrite (Hexit Hstop Hin), app_nil_r in Hprod.
      rewrite (busy_pairs_all_Exited _ Hall), app_nil_r in Hperm.
      rewrite <- Hprod. symmetry. exact Hperm.
Qed.

(** A witness for C6 (amended): two usernames, two passwords, two workers
    that interleave; all four pairs are probed, each once. *)
Lemma credentials_follow_cartesian_product_witness :
  let params := {| smtp.usernames := ["user1"; "user2"]%string;
                   smtp.passwords := ["p1"; "p2"]%string;
                   smtp.max_concurrent_connections := 2;
                   smtp.stop_on_success := true |} in
  let schedule := [(0, false); (1, false); (0, false); (1, false); (1, false);
                   (0, false); (0, false); (0, false); (0, false); (1, false);
                   (1, false); (1, false); (0, false); (0, false); (1, false);
                   (1, false)]%nat in
  exists f,
    smtp.run schedule (smtp.Start params) = Ok f
    /\ smtp.worker_threads_ f = [smtp.Exited; smtp.Exited]
    /\ smtp.probed f = [("user1", "p2"); ("user1", "p1");
                        ("user2", "p1"); ("user2", "p2")]%string
    /\ smtp.probed f ≡ₚ list_prod (smtp.usernames params) (smtp.passwords params).
Proof.
  intros params schedule.
  assert (Hpass : smtp.passwords params <> []) by discriminate.
  assert (Hempty : ~ (EmptyString ∈ smtp.usernames params
                      /\ EmptyString ∈ smtp.passwords params)).
  { intros [H _]. apply list_elem_of_In in H. simpl in H.
    destruct H as [H|[H|[]]]; discriminate. }
  destruct (credentials_follow_cartesian_product params Hpass) as [_ Hruns].
  destruct (Hruns Hempty schedule) as (f & Hrun & _ & Hdone).
  exists f. split; [exact Hrun|].
  vm_compute in Hrun. injection Hrun as <-.
  split; [reflexivity|]. split; [reflexivity|].
  apply Hdone; [reflexivity|simpl; lia|repeat constructor].
Defined.

(** Without passwords, the first call reads passwords[0] out of range. *)
Example GetNextCredentials_without_passwords :
  smtp.GetNextCredentials
    (smtp.Start {| smtp.usernames := ["user1"%string]; smtp.passwords := [];
                   smtp.max_concurrent_connections := 1;
                   smtp.stop_on_success := true |})
  = OutOfBounds 0.
Proof. reflexivity. Qed.

(** C6, as stated, fails: with the empty string as the only username and
    the only password, the single worker draws the pair of empty strings,
    takes it for the end of the credentials and leaves; the run completes
    with no stop requested and nothing probed, while the product holds one
    pair. *)
Lemma empty_credentials_complete_unprobed :
  let params := {| smtp.usernames := [EmptyString];
                   smtp.passwords := [EmptyString];
                   smtp.max_concurrent_connections := 1;
                   smtp.stop_on_success := true |} in
  exists f,
    smtp.run [(0%nat, false); (0%nat, false)] (smtp.Start params) = Ok f
    /\ smtp.worker_threads_ f = [smtp.Exited]
    /\ smtp.stop_requested_ f = false
    /\ smtp.probed f = []
    /\ list_prod (smtp.usernames params) (smtp.passwords params)
       = [(EmptyString, EmptyString)]
    /\ ~ (smtp.probed f ≡ₚ list_prod (smtp.usernames params) (smtp.passwords params)).
Proof.
  intros params. eexists. split; [vm_compute; reflexivity|].
  simpl. repeat split.
  intros H%Permutation_length. discriminate.
Qed.

Section orchestrator_stop_signal.
Import smtp.

(** No move of a worker gives the pair of empty strings to a task. *)
Lemma WorkerThread_step_never_probes_empty w task_success f f' :
  never_probes_empty f ->
  WorkerThread_step w task_success f = Ok f' ->
  never_probes_empty f'.
Proof.
  intros [Hprobed Hbusy]. unfold WorkerThread_step.
  destruct (worker_threads_ f !! w) as [[| |u p|]|] eqn:Hw.
  - destruct (stop_requested_ f); intros [= <-]; split; simpl; try done;
      by rewrite (busy_pairs_idle _ Idle).
  - destruct (GetNextCredentials f) as [[[u p] f1]| |] eqn:Hget;
      simpl; try discriminate.
    apply GetNextCredentials_frame in Hget as (_ & _ & _ & Hw1 & Hp1).
    destruct (bool_decide (u = EmptyString) && bool_decide (p = EmptyString))
      eqn:Hempty; intros [= <-]; split; simpl; rewrite ?Hp1, ?Hw1; try done.
    + by rewrite (busy_pairs_idle _ Drawing).
    + rewrite (busy_pairs_take _ Drawing) by done.
      apply not_elem_of_cons. split; [|done].
      intros [= <- <-]. discriminate.
  - intros [= <-].
    pose proof (busy_pairs_finish _ _ _ _ Hw) as Hperm.
    rewrite Hperm in Hbusy. apply not_elem_of_cons in Hbusy as [Hne Hbusy'].
    split; simpl; [|done].
    rewrite elem_of_app, list_elem_of_singleton. intros [?|?]; done.
  - intros [= <-]. split; done.
  - intros [= <-]. split; done.
Qed.

Lemma run_never_probes_empty schedule : forall f f',
  never_probes_empty f -> run schedule f = Ok f' -> never_probes_empty f'.
Proof.
  induction schedule as [|[w b] schedule IH]; intros f f' Hf; simpl.
  - intros [= <-]. exact Hf.
  - destruct (WorkerThread_step w b f) as [f1| |] eqn:Hstep; simpl; try discriminate.
    apply IH. eapply WorkerThread_step_never_probes_empty; eauto.
Qed.

End orchestrator_stop_signal.

(** C10.  GetNextCredentials signals exhaustion by returning the pair of
    two empty strings, and it returns the same pair when both indices stand
    on empty strings; a worker that draws the pair of empty strings leaves
    its loop at once, with nothing probed and no attempt counted; and in no
    run is the pair of empty strings ever given to a task. *)
Theorem empty_pair_is_the_stop_signal :
  (forall f,
     (List.length (smtp.usernames (smtp.params_ f)) <= smtp.current_user_index_ f)%nat ->
     smtp.GetNextCredentials f = Ok (EmptyString, EmptyString, f))
  /\ (forall f,
        smtp.usernames (smtp.params_ f) !! smtp.current_user_index_ f = Some EmptyString ->
        smtp.passwords (smtp.params_ f) !! smtp.current_pass_index_ f = Some EmptyString ->
        exists f', smtp.GetNextCredentials f = Ok (EmptyString, EmptyString, f')
                   /\ smtp.remaining f = (EmptyString, EmptyString) :: smtp.remaining f')
  /\ (forall f w task_success f1,
        smtp.worker_threads_ f !! w = Some smtp.Drawing ->
        smtp.GetNextCredentials f = Ok (EmptyString, EmptyString, f1) ->
        exists f',
          smtp.WorkerThread_step w task_success f = Ok f'
          /\ smtp.worker_threads_ f' = <[w := smtp.Exited]> (smtp.worker_threads_ f)
          /\ smtp.probed f' = smtp.probed f
          /\ smtp.attempts_count_ f' = smtp.attempts_count_ f)
  /\ (forall params schedule f,
        smtp.run schedule (smtp.Start params) = Ok f ->
        smtp.never_probes_empty f).
Proof.
  split; [exact GetNextCredentials_exhausted|]. split; [|split].
  - intros f Hu Hp.
    pose proof (GetNextCredentials_remaining f (lookup_lt_Some _ _ _ Hp)) as Hnext.
    unfold smtp.remaining in *.
    rewrite (drop_S _ _ _ Hu), (drop_S _ _ _ Hp) in *. simpl in Hnext.
    destruct Hnext as (f' & Hget & Hrest & _).
    exists f'. split; [exact Hget|]. simpl. by rewrite Hrest.
  - intros f w b f1 Hw Hget.
    unfold smtp.WorkerThread_step. rewrite Hw, Hget. simpl.
    apply GetNextCredentials_frame in Hget as (_ & _ & Ha & Hw1 & Hp1).
    eexists. split; [reflexivity|]. simpl. by rewrite Hw1.
  - intros params schedule f Hrun.
    eapply run_never_probes_empty; [|exact Hrun].
    split; simpl; [apply not_elem_of_nil|].
    rewrite busy_pairs_replicate_Idle. apply not_elem_of_nil.
Qed.

(** A witness for C10: the first username and the only password are
    empty; the single worker draws that pair and leaves, so no pair is
    probed, not even that of the second username. *)
Lemma empty_pair_is_the_stop_signal_witness :
  let params := {| smtp.usernames := [EmptyString; "bob"%string];
                   smtp.passwords := [EmptyString];
                   smtp.max_concurrent_connections := 1;
                   smtp.stop_on_success := true |} in
  exists f,
    smtp.run [(0%nat, false); (0%nat, false)] (smtp.Start params) = Ok f
    /\ smtp.worker_threads_ f = [smtp.Exited]
    /\ smtp.probed f = []
    /\ smtp.never_probes_empty f.
Proof.
  intros params.
  destruct empty_pair_is_the_stop_signal as (_ & _ & _ & Hnever).
  eexists. split; [vm_compute; reflexivity|].
  split; [reflexivity|]. split; [reflexivity|].
  apply (Hnever params [(0%nat, false); (0%nat, false)]).
  vm_compute. reflexivity.
Defined.

(** ** Base64 *)

Section base64_arithmetic.

Lemma land_63 x : Z.land x 0x3F = x mod 64.
Proof. exact (Z.land_ones x 6 ltac:(lia)). Qed.

Lemma land_255 x : Z.land x 0xFF = x mod 256.
Proof. exact (Z.land_ones x 8 ltac:(lia)). Qed.

Lemma land_63_range x : 0 <= Z.land x 0x3F < 64.
Proof. rewrite land_63. apply Z.mod_pos_bound. lia. Qed.

(** The 24-bit group of three octets. *)
Lemma triple_value a b c :
  0 <= a < 256 -> 0 <= b < 256 -> 0 <= c < 256 ->
  (Z.shiftl a 16 + Z.shiftl b 8 + c) mod 2 ^ 32 = 65536 * a + 256 * b + c.
Proof.
  intros Ha Hb Hc. rewrite !Z.shiftl_mul_pow2 by lia.
  change (2 ^ 16) with 65536. change (2 ^ 8) with 256.
  change (2 ^ 32) with 4294967296.
  rewrite Z.mod_small; lia.
Qed.

(** Four sextets of a 24-bit number put it together again. *)
Lemma sextets_recombine t :
  0 <= t < 2 ^ 24 ->
  (Z.shiftl (Z.land (Z.shiftr t 18) 0x3F) 18
   + Z.shiftl (Z.land (Z.shiftr t 12) 0x3F) 12
   + Z.shiftl (Z.land (Z.shiftr t 6) 0x3F) 6
   + Z.land t 0x3F) mod 2 ^ 32 = t.
Proof.
  intros Ht. rewrite !land_63, !Z.shiftr_div_pow2, !Z.shiftl_mul_pow2 by lia.
  change (2 ^ 18) with 262144. change (2 ^ 12) with 4096. change (2 ^ 6) with 64.
  change (2 ^ 24) with 16777216 in Ht. change (2 ^ 32) with 4294967296.
  rewrite Z.mod_small; Z.div_mod_to_equations; lia.
Qed.

(** The three octets of a 24-bit group. *)
Lemma triple_octets a b c :
  0 <= a < 256 -> 0 <= b < 256 -> 0 <= c < 256 ->
  let t := 65536 * a + 256 * b + c in
  Z.land (Z.shiftr t 16) 0xFF = a
  /\ Z.land (Z.shiftr t 8) 0xFF = b
  /\ Z.land t 0xFF = c.
Proof.
  intros Ha Hb Hc t. subst t.
  rewrite !land_255, !Z.shiftr_div_pow2 by lia.
  change (2 ^ 16) with 65536. change (2 ^ 8) with 256.
  repeat split; Z.div_mod_to_equations; lia.
Qed.

Lemma byte_of_Z_val b : byte_of_Z (byte_val b) = b.
Proof.
  unfold byte_of_Z. rewrite Z.mod_small by apply byte_val_range.
  unfold byte_val. rewrite N2Z.id, Byte.of_to_N. reflexivity.
Qed.

End base64_arithmetic.

(** Division and remainder by a literal are linear arithmetic. *)
Ltac div_mod_lia := Z.div_mod_to_equations; lia.

Section base64_encode.
Import Base64.

(** Lists are read three elements at a time. *)
Lemma list_ind3 {A : Type} (P : list A -> Prop) :
  P [] -> (forall a, P [a]) -> (forall a b, P [a; b]) ->
  (forall a b c l, P l -> P (a :: b :: c :: l)) ->
  forall l, P l.
Proof.
  intros H0 H1 H2 H3 l.
  enough (H : forall n l, (List.length l <= n)%nat -> P l) by (apply (H (List.length l)); lia).
  clear l. induction n as [|n IH]; intros [|a [|b [|c l]]] Hlen; simpl in Hlen;
    auto; try lia.
  apply H3, IH. lia.
Qed.

(** The 64 characters of the alphabet: none is '=' or white space, each
    decodes to its index, each is in the table. *)
Lemma alphabet_check :
  forallb (fun n =>
    let c := encoding_at (Z.of_nat n) in
    negb (bool_decide (c = "="%byte)) && negb (isspace c)
    && (decoding_at c =? Z.of_nat n)
    && bool_decide (encoding_table !! n = Some c)) (seq 0 64) = true.
Proof. vm_compute. reflexivity. Qed.

Lemma alphabet k :
  0 <= k < 64 ->
  encoding_at k <> "="%byte /\ isspace (encoding_at k) = false
  /\ decoding_at (encoding_at k) = k /\ encoding_at k ∈ encoding_table.
Proof.
  intros Hk. pose proof alphabet_check as H.
  rewrite forallb_forall in H. specialize (H (Z.to_nat k)).
  rewrite Z2Nat.id in H by lia.
  assert (Hin : In (Z.to_nat k) (seq 0 64)) by (apply in_seq; lia).
  apply H in Hin. simpl in Hin.
  apply andb_true_iff in Hin as [Hin H0].
  apply andb_true_iff in Hin as [Hin H1].
  apply andb_true_iff in Hin as [Hin H2].
  repeat split.
  - apply negb_true_iff, bool_decide_eq_false in Hin. exact Hin.
  - by apply negb_true_iff.
  - lia.
  - apply list_elem_of_lookup. exists (Z.to_nat k).
    by apply bool_decide_eq_true in H0.
Qed.

Lemma sextet_alphabet k : 0 <= k < 64 -> sextet (encoding_at k) = k.
Proof.
  intros Hk. destruct (alphabet k Hk) as (Hne & _ & Hdec & _).
  unfold sextet. rewrite decide_False by done. exact Hdec.
Qed.

Lemma encode_triple_length a b c : List.length (encode_triple a b c) = 4%nat.
Proof. reflexivity. Qed.

Lemma Encode_loop_app input : forall output,
  Encode_loop input output = output ++ Encode_loop input [].
Proof.
  induction input as [|a|a b|a b c input IH] using list_ind3; intros output; simpl.
  - by rewrite app_nil_r.
  - reflexivity.
  - reflexivity.
  - rewrite IH. rewrite (IH (encode_triple _ _ _)). by rewrite app_assoc.
Qed.

Lemma Encode_loop_length input :
  List.length (Encode_loop input []) = (4 * ((List.length input + 2) / 3))%nat.
Proof.
  induction input as [|a|a b|a b c input IH] using list_ind3; try reflexivity.
  cbn [Encode_loop app]. rewrite Encode_loop_app, length_app, IH, encode_triple_length.
  cbn [List.length]. 
  replace (S (S (S (List.length input))) + 2)%nat
    with (List.length input + 2 + 1 * 3)%nat by lia.
  rewrite Nat.div_add by lia. lia.
Qed.

(** The padding of a longer input is the padding of its last groups. *)
Lemma add_padding_skip m group output :
  List.length group = 4%nat ->
  List.length output = (4 * ((m + 2) / 3))%nat ->
  add_padding (3 + m) (group ++ output) = group ++ add_padding m output.
Proof.
  intros Hgroup Houtput. unfold add_padding.
  replace (3 + m + 2)%nat with (m + 2 + 1 * 3)%nat by lia.
  replace (3 + m)%nat with (m + 1 * 3)%nat by lia.
  rewrite Nat.div_add, Nat.Div0.mod_add by lia.
  set (q := ((m + 2) / 3)%nat) in *.
  assert (Hq : (m mod 3 <> 0 -> 1 <= q)%nat).
  { subst q. intros Hm.
    assert (3 <= m + 2)%nat by (destruct m as [|[|m]]; simpl in *; lia).
    apply (Nat.Div0.div_le_mono _ _ 3) in H. exact H. }
  assert (Hr : (m mod 3 < 3)%nat) by (apply Nat.mod_upper_bound; lia).
  destruct (decide (3 - m mod 3 < 3)%nat) as [Hp|Hp]; [|reflexivity].
  rewrite (insert_app_r_alt group) by lia.
  replace (4 * (q + 1) - 1 - List.length group)%nat with (4 * q - 1)%nat by lia.
  destruct (decide (3 - m mod 3 = 2)%nat); [|reflexivity].
  rewrite (insert_app_r_alt group) by lia.
  replace (4 * (q + 1) - 2 - List.length group)%nat with (4 * q - 2)%nat by lia.
  reflexivity.
Qed.

(** Encode computes the encoding group by group. *)
Lemma Encode_groups input : Encode input = encode_groups input.
Proof.
  unfold Encode. destruct (decide (List.length input = 0)%nat) as [H0|_].
  { destruct input; [reflexivity|discriminate]. }
  induction input as [|a|a b|a b c input IH] using list_ind3; try reflexivity.
  cbn [Encode_loop app encode_groups]. rewrite Encode_loop_app.
  change (List.length (a :: b :: c :: input)) with (3 + List.length input)%nat.
  rewrite add_padding_skip by (apply encode_triple_length || apply Encode_loop_length).
  f_equal. exact IH.
Qed.

Lemma encode_groups_length input :
  List.length (encode_groups input) = (4 * ((List.length input + 2) / 3))%nat.
Proof.
  induction input as [|a|a b|a b c input IH] using list_ind3; try reflexivity.
  cbn [encode_groups]. rewrite length_app, IH, encode_triple_length.
  cbn [List.length].
  replace (S (S (S (List.length input))) + 2)%nat
    with (List.length input + 2 + 1 * 3)%nat by lia.
  rewrite Nat.div_add by lia. lia.
Qed.

Lemma encode_triple_alphabet a b c :
  Forall (fun x => x ∈ encoding_table) (encode_triple a b c).
Proof.
  unfold encode_triple.
  repeat (apply Forall_cons; split; [apply alphabet, land_63_range|]).
  apply Forall_nil. done.
Qed.

Lemma encode_groups_alphabet input :
  Forall (fun x => x ∈ encoding_table \/ x = "="%byte) (encode_groups input).
Proof.
  induction input as [|a|a b|a b c input IH] using list_ind3; cbn [encode_groups].
  - constructor.
  - pose proof (encode_triple_alphabet (byte_val a) 0 0) as H.
    unfold encode_triple in *. cbn [take app].
    repeat (apply Forall_cons in H as [? H]).
    repeat (apply Forall_cons; split;
            [first [left; assumption | right; reflexivity]|]).
    by apply Forall_nil.
  - pose proof (encode_triple_alphabet (byte_val a) (byte_val b) 0) as H.
    unfold encode_triple in *. cbn [take app].
    repeat (apply Forall_cons in H as [? H]).
    repeat (apply Forall_cons; split;
            [first [left; assumption | right; reflexivity]|]).
    by apply Forall_nil.
  - apply Forall_app. split; [|exact IH].
    eapply Forall_impl; [apply encode_triple_alphabet|]. auto.
Qed.

End base64_encode.

Section base64_decode.
Import Base64.

(** *** IsValid accepts what Encode produces *)

Lemma IsValid_loop_alphabet length k input i :
  0 <= k < 64 ->
  IsValid_loop length (encoding_at k :: input) i 0
  = IsValid_loop length input (S i) 0.
Proof.
  intros Hk. destruct (alphabet k Hk) as (Hne & Hsp & Hdec & _).
  cbn [IsValid_loop]. rewrite decide_False by done.
  rewrite decide_False by lia. rewrite Hsp, Hdec.
  replace (k =? 255) with false by lia. reflexivity.
Qed.

Lemma IsValid_loop_groups input : forall length i,
  (i + List.length (encode_groups input))%nat = length ->
  IsValid_loop length (encode_groups input) i 0 = true.
Proof.
  induction input as [|a|a b|a b c input IH] using list_ind3;
    intros length i Hlen; cbn [encode_groups] in *.
  - reflexivity.
  - unfold encode_triple in *. cbn [take app List.length] in *.
    rewrite !IsValid_loop_alphabet by apply land_63_range.
    cbn [IsValid_loop]. repeat case_decide; first [reflexivity | lia | congruence].
  - unfold encode_triple in *. cbn [take app List.length] in *.
    rewrite !IsValid_loop_alphabet by apply land_63_range.
    cbn [IsValid_loop]. repeat case_decide; first [reflexivity | lia | congruence].
  - rewrite length_app, encode_triple_length in Hlen.
    unfold encode_triple. cbn [app].
    rewrite !IsValid_loop_alphabet by apply land_63_range.
    apply IH. lia.
Qed.

Lemma IsValid_groups input : IsValid (encode_groups input) = true.
Proof.
  unfold IsValid. case_decide; [reflexivity|].
  rewrite decide_False.
  - apply IsValid_loop_groups. reflexivity.
  - rewrite encode_groups_length, Nat.mul_comm, Nat.Div0.mod_mul. lia.
Qed.

(** *** The capacity reserved is the length of the original *)

Lemma count_padding_le input : (count_padding input <= 2)%nat.
Proof. unfold count_padding. repeat case_decide; lia. Qed.

Lemma count_padding_skip group input :
  (2 <= List.length input)%nat ->
  count_padding (group ++ input) = count_padding input.
Proof.
  intros Hlen. unfold count_padding. rewrite length_app.
  rewrite !(lookup_app_r group) by lia.
  replace (List.length group + List.length input - 1 - List.length group)%nat
    with (List.length input - 1)%nat by lia.
  replace (List.length group + List.length input - 2 - List.length group)%nat
    with (List.length input - 2)%nat by lia.
  repeat case_decide; try reflexivity; exfalso;
    match goal with
    | H : ~ (_ /\ _), H' : _ /\ _ |- _ =>
        apply H; destruct H'; split; [lia|assumption]
    end.
Qed.

Lemma capacity_groups input :
  (List.length (encode_groups input) / 4 * 3 - count_padding (encode_groups input))%nat
  = List.length input.
Proof.
  induction input as [|a|a b|a b c input IH] using list_ind3.
  - reflexivity.
  - reflexivity.
  - cbn [encode_groups]. unfold encode_triple. cbn [take app].
    unfold count_padding. cbn [List.length Nat.sub lookup list_lookup].
    rewrite decide_True by done.
    rewrite decide_False; [reflexivity|].
    intros [_ [= H]]. by apply (alphabet _ (land_63_range _)) in H.
  - cbn [encode_groups].
    destruct input as [|d input].
    + unfold encode_triple. cbn [encode_groups app].
      unfold count_padding. cbn [List.length Nat.sub lookup list_lookup].
      rewrite !decide_False; [reflexivity| |].
      * intros [_ [= H]]. by apply (alphabet _ (land_63_range _)) in H.
      * intros [= H]. by apply (alphabet _ (land_63_range _)) in H.
    + set (rest := d :: input) in *.
      assert (Hlen : (4 <= List.length (encode_groups rest))%nat).
      { rewrite encode_groups_length. subst rest. cbn [List.length].
        assert (1 <= (S (List.length input) + 2) / 3)%nat; [|lia].
        apply (Nat.Div0.div_le_mono 3 _ 3). lia. }
      rewrite count_padding_skip by lia.
      rewrite length_app, encode_triple_length.
      pose proof (count_padding_le (encode_groups rest)).
      replace (4 + List.length (encode_groups rest))%nat
        with (List.length (encode_groups rest) + 1 * 4)%nat by lia.
      rewrite Nat.div_add by lia.
      assert (1 <= List.length (encode_groups rest) / 4)%nat
        by (apply (Nat.Div0.div_le_mono 4 _ 4); lia).
      cbn [List.length]. lia.
Qed.

End base64_decode.

Section base64_roundtrip.
Import Base64.

(** *** The loop of DecodeBytes undoes the groups *)

Lemma encode_triple_sextets a b c :
  let t := 65536 * byte_val a + 256 * byte_val b + byte_val c in
  encode_triple (byte_val a) (byte_val b) (byte_val c)
  = [encoding_at (Z.land (Z.shiftr t 18) 0x3F);
     encoding_at (Z.land (Z.shiftr t 12) 0x3F);
     encoding_at (Z.land (Z.shiftr t 6) 0x3F);
     encoding_at (Z.land t 0x3F)].
Proof.
  intros t. unfold encode_triple.
  rewrite triple_value by apply byte_val_range. reflexivity.
Qed.

(** What the guarded push_back store of the group of three octets. *)
Lemma decode_quad_sextets capacity output a b c :
  let t := 65536 * byte_val a + 256 * byte_val b + byte_val c in
  decode_quad capacity output
    (Z.land (Z.shiftr t 18) 0x3F) (Z.land (Z.shiftr t 12) 0x3F)
    (Z.land (Z.shiftr t 6) 0x3F) (Z.land t 0x3F)
  = push_back_within capacity
      (push_back_within capacity
         (push_back_within capacity output (byte_val a)) (byte_val b))
      (byte_val c).
Proof.
  intros t. subst t. unfold decode_quad.
  pose proof (byte_val_range a). pose proof (byte_val_range b).
  pose proof (byte_val_range c).
  rewrite sextets_recombine by lia.
  destruct (triple_octets (byte_val a) (byte_val b) (byte_val c))
    as (-> & -> & ->); auto.
Qed.

Lemma push_back_within_room capacity output x :
  (List.length output < capacity)%nat ->
  push_back_within capacity output (byte_val x) = output ++ [x].
Proof.
  intros H. unfold push_back_within.
  rewrite decide_True by done. by rewrite byte_of_Z_val.
Qed.

Lemma push_back_within_full capacity output x :
  (capacity <= List.length output)%nat ->
  push_back_within capacity output x = output.
Proof. intros H. unfold push_back_within. by rewrite decide_False by lia. Qed.

(** Zero octets give zero sextets. *)
Lemma low_sextets_zero a b :
  0 <= a < 256 -> 0 <= b < 256 ->
  Z.land (65536 * a + 256 * b + 0) 0x3F = 0
  /\ Z.land (Z.shiftr (65536 * a + 256 * 0 + 0) 6) 0x3F = 0.
Proof.
  intros Ha Hb. rewrite !land_63, Z.shiftr_div_pow2 by lia.
  change (2 ^ 6) with 64. split; div_mod_lia.
Qed.

(** The groups that end in padding: '=' is read as the sextet 0, which is
    the sextet the zero octets gave. *)
Lemma decode_quad_padded_twice capacity output a :
  let t := 65536 * byte_val a + 256 * 0 + 0 in
  decode_quad capacity output
    (Z.land (Z.shiftr t 18) 0x3F) (Z.land (Z.shiftr t 12) 0x3F) 0 0
  = push_back_within capacity
      (push_back_within capacity
         (push_back_within capacity output (byte_val a)) 0) 0.
Proof.
  intros t. subst t. pose proof (byte_val_range a) as Ha.
  destruct (low_sextets_zero (byte_val a) 0 Ha ltac:(lia)) as [H4 H3].
  pose proof (decode_quad_sextets capacity output a x00 x00) as Hquad.
  change (byte_val x00) with 0 in Hquad. cbv zeta in Hquad.
  rewrite <- Hquad, H3, H4. reflexivity.
Qed.

Lemma decode_quad_padded_once capacity output a b :
  let t := 65536 * byte_val a + 256 * byte_val b + 0 in
  decode_quad capacity output
    (Z.land (Z.shiftr t 18) 0x3F) (Z.land (Z.shiftr t 12) 0x3F)
    (Z.land (Z.shiftr t 6) 0x3F) 0
  = push_back_within capacity
      (push_back_within capacity
         (push_back_within capacity output (byte_val a)) (byte_val b)) 0.
Proof.
  intros t. subst t.
  pose proof (byte_val_range a) as Ha. pose proof (byte_val_range b) as Hb.
  destruct (low_sextets_zero (byte_val a) (byte_val b) Ha Hb) as [H4 _].
  pose proof (decode_quad_sextets capacity output a b x00) as Hquad.
  change (byte_val x00) with 0 in Hquad. cbv zeta in Hquad.
  rewrite <- Hquad, H4. reflexivity.
Qed.

Lemma DecodeBytes_loop_group capacity k1 k2 c3 c4 input i output :
  0 <= k1 < 64 ->
  DecodeBytes_loop capacity (encoding_at k1 :: encoding_at k2 :: c3 :: c4 :: input) i output
  = DecodeBytes_loop capacity input (i + 4)
      (decode_quad capacity output k1 (sextet (encoding_at k2)) (sextet c3) (sextet c4)).
Proof.
  intros H1. destruct (alphabet k1 H1) as (_ & Hsp & _ & _).
  cbn [DecodeBytes_loop]. rewrite Hsp, (sextet_alphabet k1 H1). reflexivity.
Qed.

Lemma DecodeBytes_loop_groups input : forall capacity i output,
  capacity = (List.length output + List.length input)%nat ->
  DecodeBytes_loop capacity (encode_groups input) i output = Ok (output ++ input).
Proof.
  induction input as [|a|a b|a b c input IH] using list_ind3;
    intros capacity i output Hcap; cbn [encode_groups].
  - cbn [DecodeBytes_loop]. by rewrite app_nil_r.
  - pose proof (encode_triple_sextets a x00 x00) as Hshape.
    change (byte_val x00) with 0 in Hshape. cbv zeta in Hshape.
    rewrite Hshape. cbn [take app].
    rewrite DecodeBytes_loop_group by apply land_63_range.
    rewrite sextet_alphabet by apply land_63_range.
    change (sextet "="%byte) with 0.
    rewrite decode_quad_padded_twice.
    cbn [DecodeBytes_loop List.length] in *.
    rewrite (push_back_within_room capacity output a) by lia.
    rewrite !(push_back_within_full capacity (output ++ [a]))
      by (rewrite length_app; simpl; lia).
    reflexivity.
  - pose proof (encode_triple_sextets a b x00) as Hshape.
    change (byte_val x00) with 0 in Hshape. cbv zeta in Hshape.
    rewrite Hshape. cbn [take app].
    rewrite DecodeBytes_loop_group by apply land_63_range.
    rewrite !sextet_alphabet by apply land_63_range.
    change (sextet "="%byte) with 0.
    rewrite decode_quad_padded_once.
    cbn [DecodeBytes_loop List.length] in *.
    rewrite (push_back_within_room capacity output a) by lia.
    rewrite (push_back_within_room capacity _ b) by (rewrite length_app; simpl; lia).
    rewrite push_back_within_full by (rewrite !length_app; simpl; lia).
    by rewrite <- app_assoc.
  - rewrite encode_triple_sextets. cbv zeta. cbn [app].
    rewrite DecodeBytes_loop_group by apply land_63_range.
    rewrite !sextet_alphabet by apply land_63_range.
    rewrite decode_quad_sextets.
    cbn [List.length] in Hcap.
    rewrite (push_back_within_room capacity output a) by lia.
    rewrite (push_back_within_room capacity _ b) by (rewrite length_app; simpl; lia).
    rewrite (push_back_within_room capacity _ c) by (rewrite !length_app; simpl; lia).
    rewrite IH by (rewrite !length_app; simpl; lia).
    by rewrite <- !app_assoc.
Qed.

End base64_roundtrip.

(** C9.  Decoding the Base64 encoding of any byte string gives the string
    back; the encoding has 4 * ceil(|s| / 3) characters, each a character
    of the standard alphabet or the padding '='. *)
Theorem Decode_Encode (s : list byte) :
  Base64.Decode (Base64.Encode s) = Ok s
  /\ List.length (Base64.Encode s) = (4 * ((List.length s + 2) / 3))%nat
  /\ Forall (fun c => c ∈ Base64.encoding_table \/ c = "="%byte) (Base64.Encode s).
Proof.
  rewrite Encode_groups. split; [|split].
  - unfold Base64.Decode, Base64.DecodeBytes.
    rewrite IsValid_groups, capacity_groups. simpl.
    apply DecodeBytes_loop_groups. reflexivity.
  - apply encode_groups_length.
  - apply encode_groups_alphabet.
Qed.

(** The encodings main.cpp and the SMTP scenario rely on. *)
Example Encode_examples :
  string_of_list_byte (Base64.Encode (list_byte_of_string "Hello, World!"))
  = "SGVsbG8sIFdvcmxkIQ=="%string
  /\ string_of_list_byte (Base64.Encode (list_byte_of_string "alice"))
     = "YWxpY2U="%string
  /\ string_of_list_byte (Base64.Encode (list_byte_of_string "s3cret"))
     = "czNjcmV0"%string.
Proof. vm_compute. auto. Qed.

(** * Further properties of the same code *)

(** ** The DNS decoder: errors, counts, offsets *)

Section dns_messages.
Import dns.
Variables (buffer : list byte) (length : nat).

Lemma catch_false_never_throws {A : Type} (r : result DNSParseError A) e :
  catch_false r <> Throw e.
Proof. destruct r; discriminate. Qed.

Lemma parse_many_never_throws {A : Type}
  (parse : nat -> result DNSParseError (option (A * nat))) :
  (forall offset e, parse offset <> Throw e) ->
  forall count offset items e, parse_many parse count offset items <> Throw e.
Proof.
  intros Hparse. induction count as [|count IH]; intros offset items e; simpl.
  - discriminate.
  - pose proof (Hparse offset) as Hp.
    destruct (parse offset) as [[[item offset']|]| |]; simpl;
      try discriminate; [apply IH|]. intros [= <-]. by eapply Hp.
Qed.

(** A loop of ParseMessage that ends well has pushed [count] items. *)
Lemma parse_many_true_length {A : Type}
  (parse : nat -> result DNSParseError (option (A * nat))) :
  forall count offset items items' offset',
    parse_many parse count offset items = Ok (true, items', offset') ->
    List.length items' = (List.length items + count)%nat.
Proof.
  induction count as [|count IH]; intros offset items items' offset'; simpl.
  - intros [= <- _]. lia.
  - destruct (parse offset) as [[[item offset1]|]| |]; simpl; try discriminate.
    intros H%IH. rewrite length_app in H. simpl in H. lia.
Qed.


Lemma read_never_throws i e : read buffer i <> Throw e.
Proof. unfold read. destruct (buffer !! i); discriminate. Qed.

Lemma ReadUInt16_never_throws offset e : ReadUInt16 buffer offset <> Throw e.
Proof.
  unfold ReadUInt16, read.
  destruct (buffer !! offset); simpl; try discriminate.
  destruct (buffer !! (offset + 1)%nat); simpl; discriminate.
Qed.

(** A field ReadUInt16 returns is a 16-bit number. *)
Lemma ReadUInt16_range offset v offset' :
  ReadUInt16 buffer offset = Ok (v, offset') -> 0 <= v < 2 ^ 16.
Proof.
  unfold ReadUInt16, read.
  destruct (buffer !! offset); simpl; try discriminate.
  destruct (buffer !! (offset + 1)%nat); simpl; try discriminate.
  intros [= <- _]. apply Z.mod_pos_bound. lia.
Qed.

End dns_messages.

Section dns_message_results.
Import dns.

Lemma ParseHeader_never_throws buffer length e :
  ParseHeader buffer length <> Throw e.
Proof.
  unfold ParseHeader. case_decide; [discriminate|].
  repeat match goal with
    | |- context [ReadUInt16 ?b ?o] =>
        let H := fresh "Hread" in
        pose proof (ReadUInt16_never_throws b o) as H;
        destruct (ReadUInt16 b o) as [[? ?]| |]; simpl;
        [| exfalso; by eapply H | discriminate]
    end.
  discriminate.
Qed.


Lemma ParseQuestion_never_throws buffer length offset e :
  ParseQuestion buffer length offset <> Throw e.
Proof. apply catch_false_never_throws. Qed.

Lemma ParseResourceRecord_never_throws buffer length offset e :
  ParseResourceRecord buffer length offset <> Throw e.
Proof. apply catch_false_never_throws. Qed.

End dns_message_results.

(** X1.  ParseMessage throws exactly when the length is below the 12 bytes
    of a header: every DNSParseError raised while a question or a record
    is parsed is caught and reported as false. *)
Theorem ParseMessage_throws_only_on_short_buffer (buffer : list byte) (length : nat) :
  ((length < 12)%nat ->
   dns.ParseMessage buffer length
   = Throw (dns.ParseError "Buffer too small for DNS header"))
  /\ ((12 <= length)%nat ->
      forall e, dns.ParseMessage buffer length <> Throw e).
Proof.
  split; intros Hlen.
  - unfold dns.ParseMessage, dns.sizeof_DNSHeader.
    rewrite decide_True by lia. reflexivity.
  - intros e. unfold dns.ParseMessage, dns.sizeof_DNSHeader.
    rewrite decide_False by lia.
    pose proof (ParseHeader_never_throws buffer length) as Hh.
    destruct (dns.ParseHeader buffer length) as [[h|]| |]; simpl;
      [|discriminate|exfalso; by eapply Hh|discriminate].
    repeat match goal with
      | |- context [dns.parse_many ?p ?c ?o ?i] =>
          let H := fresh "Hsection" in
          destruct (dns.parse_many p c o i) as [[[[] ?] ?]| |] eqn:H; simpl;
          try discriminate
      end;
    match goal with
    | H : dns.parse_many _ _ _ _ = Throw _ |- _ =>
        apply parse_many_never_throws in H; [done|];
        first [apply ParseQuestion_never_throws
              |apply ParseResourceRecord_never_throws]
    end.
Qed.

Section dns_message_into.
Import dns.



End dns_message_into.



Section dns_offsets.
Import dns.
Variables (buffer : list byte) (start : nat).

Lemma body_keeps_offset_tracked st st' :
  offset_tracked buffer start st ->
  ExtractDomainName_body buffer (List.length buffer) st = Ok (Jump st')
  \/ ExtractDomainName_body buffer (List.length buffer) st = Ok (Label st') ->
  offset_tracked buffer start st'.
Proof.
  unfold offset_tracked. intros Hst [Hb|Hb]; revert Hb.
  - unfold ExtractDomainName_body.
    destruct (read buffer (offset st)) as [l| |]; simpl; try discriminate.
    repeat (case_decide; try discriminate).
    + destruct (read buffer (offset st + 1)) as [lo| |]; simpl; try discriminate.
      case_decide; try discriminate.
      intros [= <-]. simpl. destruct (jumped st); lia.
    + destruct (read_range _ _ _); simpl; discriminate.
    + destruct (read_range _ _ _); simpl; discriminate.
  - unfold ExtractDomainName_body.
    destruct (read buffer (offset st)) as [l| |]; simpl; try discriminate.
    repeat (case_decide; try discriminate).
    + destruct (read buffer (offset st + 1)) as [lo| |]; simpl; try discriminate.
      case_decide; discriminate.
    + destruct (read_range _ _ _); simpl; try discriminate.
      intros [= <-]. simpl. destruct (jumped st); lia.
    + destruct (read_range _ _ _); simpl; try discriminate.
      intros [= <-]. simpl. destruct (jumped st); lia.
Qed.

Lemma body_Exit_in_buffer st :
  ExtractDomainName_body buffer (List.length buffer) st = Ok Exit ->
  (offset st < List.length buffer)%nat.
Proof.
  unfold ExtractDomainName_body, read.
  destruct (buffer !! offset st) eqn:H; [|discriminate].
  intros _. by eapply lookup_lt_Some.
Qed.

Lemma loop_final_offset fuel : forall st st',
  offset_tracked buffer start st ->
  ExtractDomainName_loop fuel buffer (List.length buffer) st = Some (Ok st') ->
  (start < final_offset st' <= List.length buffer)%nat.
Proof.
  induction fuel as [|fuel IH]; intros st st' Hst; simpl; [discriminate|].
  destruct (ExtractDomainName_body buffer (List.length buffer) st)
    as [[|st1|st1]| |] eqn:Hb; try discriminate.
  - intros [= <-]. apply body_Exit_in_buffer in Hb.
    unfold final_offset, offset_tracked in *. destruct (jumped st); lia.
  - apply IH. eapply body_keeps_offset_tracked; eauto.
  - apply IH. eapply body_keeps_offset_tracked; eauto.
Qed.

(** Once the loop has jumped, the caller's offset is settled. *)
Lemma loop_jumped_offset fuel : forall st st',
  jumped st = true ->
  ExtractDomainName_loop fuel buffer (List.length buffer) st = Some (Ok st') ->
  final_offset st' = originalOffset st.
Proof.
  induction fuel as [|fuel IH]; intros st st' Hj; simpl; [discriminate|].
  destruct (ExtractDomainName_body buffer (List.length buffer) st)
    as [[|st1|st1]| |] eqn:Hb; try discriminate.
  - intros [= <-]. unfold final_offset. by rewrite Hj.
  - intros Hloop. revert Hb. unfold ExtractDomainName_body.
    destruct (read buffer (offset st)) as [l| |]; simpl; try discriminate.
    repeat (case_decide; try discriminate);
      try (destruct (read_range _ _ _); simpl; discriminate).
    destruct (read buffer (offset st + 1)) as [lo| |]; simpl; try discriminate.
    case_decide; try discriminate.
    intros [= <-]. apply IH in Hloop; [|reflexivity].
    simpl in Hloop. by rewrite Hj in Hloop.
  - intros Hloop. revert Hb. unfold ExtractDomainName_body.
    destruct (read buffer (offset st)) as [l| |]; simpl; try discriminate.
    repeat (case_decide; try discriminate);
      try (destruct (read buffer (offset st + 1)) as [lo| |]; simpl;
           try discriminate; case_decide; discriminate);
      (destruct (read_range _ _ _); simpl; try discriminate;
       intros [= <-]; apply IH in Hloop; [|exact Hj];
       simpl in Hloop; by rewrite Hj in Hloop).
Qed.

End dns_offsets.

(** X3.  When ExtractDomainName returns a name, the offset it gives back
    to its caller lies after the offset it was given and not past the end
    of the buffer; and when the name starts with a compression pointer,
    the new offset is just after the two bytes of that pointer, wherever
    the pointer led. *)
Theorem ExtractDomainName_advances_within_buffer
  (buffer : list byte) (offset : nat) (name : string) (offset' : nat) :
  dns.ExtractDomainName buffer (List.length buffer) offset = Ok (name, offset') ->
  (offset < offset' <= List.length buffer)%nat
  /\ (forall b0,
        buffer !! offset = Some b0 -> Z.land (byte_val b0) 0xC0 = 0xC0 ->
        offset' = (offset + 2)%nat).
Proof.
  unfold dns.ExtractDomainName.
  destruct (dns.ExtractDomainName_loop _ _ _ _) as [[st| |]|] eqn:Hloop;
    try discriminate.
  intros [= <- <-]. split.
  - eapply (loop_final_offset buffer offset); [|exact Hloop].
    unfold dns.offset_tracked. simpl. lia.
  - intros b0 H0 Hptr.
    unfold dns.ExtractDomainName_fuel in Hloop.
    destruct (iterations_left_S (List.length buffer) (dns.initial_state offset))
      as [n Hn]. rewrite Hn in Hloop. simpl in Hloop.
    assert (Hb :
      (exists st1,
         dns.ExtractDomainName_body buffer (List.length buffer)
           (dns.initial_state offset) = Ok (dns.Jump st1)
         /\ dns.jumped st1 = true
         /\ dns.originalOffset st1 = (offset + 2)%nat)
      \/ match dns.ExtractDomainName_body buffer (List.length buffer)
                 (dns.initial_state offset) with
         | Ok _ => False
         | _ => True
         end).
    { unfold dns.ExtractDomainName_body, dns.read. simpl. rewrite H0. simpl.
      destruct (decide (byte_val b0 = 0)) as [Hz|_].
      { rewrite Hz in Hptr. discriminate. }
      rewrite decide_True by done.
      repeat case_decide; try (right; exact I).
      destruct (buffer !! (offset + 1)%nat); simpl; [|right; exact I].
      case_decide; [right; exact I|].
      left. eexists. split; [reflexivity|]. simpl. auto. }
    destruct Hb as [(st1 & Hb & Hj & Ho)|Hb].
    + rewrite Hb in Hloop.
      rewrite <- Ho. eapply loop_jumped_offset; eauto.
    + destruct (dns.ExtractDomainName_body _ _ _) as [[| |]| |];
        try done; discriminate.
Qed.

(** A witness for X3: the answer name of the example.com message, a
    pointer at offset 29 to offset 12. *)
Lemma ExtractDomainName_advances_within_buffer_witness :
  let buffer :=
    [x00; x01; x81; x80; x00; x01; x00; x01; x00; x00; x00; x00;
     x07; x65; x78; x61; x6d; x70; x6c; x65; x03; x63; x6f; x6d; x00;
     x00; x01; x00; x01;
     xc0; x0c; x00; x01; x00; x01; x00; x00; x00; x3c; x00; x04;
     x5d; xb8; xd8; x22] in
  dns.ExtractDomainName buffer (List.length buffer) 29
  = Ok ("example.com"%string, 31%nat)
  /\ (29 < 31 <= List.length buffer)%nat.
Proof.
  intros buffer.
  assert (H : dns.ExtractDomainName buffer (List.length buffer) 29
              = Ok ("example.com"%string, 31%nat)) by (vm_compute; reflexivity).
  split; [exact H|].
  exact (proj1 (ExtractDomainName_advances_within_buffer buffer 29 _ _ H)).
Defined.

Section dns_integers.
Import dns.

(** Bits that do not overlap add up. *)
Lemma lor_shiftl_low hi lo k :
  0 <= k -> 0 <= lo < 2 ^ k ->
  Z.lor (Z.shiftl hi k) lo = hi * 2 ^ k + lo.
Proof.
  intros Hk Hlo.
  assert (Hland : Z.land (Z.shiftl hi k) lo = 0).
  { apply Z.bits_inj'. intros n Hn. rewrite Z.land_spec, Z.bits_0.
    destruct (Z.lt_ge_cases n k) as [Hlt|Hge].
    - rewrite Z.shiftl_spec_low by lia. reflexivity.
    - rewrite <- (Z.mod_small lo (2 ^ k)) by lia.
      rewrite Z.mod_pow2_bits_high by lia. apply andb_false_r. }
  rewrite <- Z.lxor_lor, <- Z.add_nocarry_lxor by exact Hland.
  by rewrite Z.shiftl_mul_pow2.
Qed.

End dns_integers.

(** X4.  Where the bytes exist, ReadUInt16 and ReadUInt32 return the
    big-endian value of the two (four) bytes at the offset and move the
    offset past them. *)
Theorem ReadUInt_big_endian (buffer : list byte) (offset : nat) :
  (forall b0 b1,
     buffer !! offset = Some b0 -> buffer !! (offset + 1)%nat = Some b1 ->
     dns.ReadUInt16 buffer offset
     = Ok (256 * byte_val b0 + byte_val b1, (offset + 2)%nat))
  /\ (forall b0 b1 b2 b3,
        buffer !! offset = Some b0 -> buffer !! (offset + 1)%nat = Some b1 ->
        buffer !! (offset + 2)%nat = Some b2 -> buffer !! (offset + 3)%nat = Some b3 ->
        dns.ReadUInt32 buffer offset
        = Ok (16777216 * byte_val b0 + 65536 * byte_val b1
              + 256 * byte_val b2 + byte_val b3, (offset + 4)%nat)).
Proof.
  split.
  - intros b0 b1 H0 H1. unfold dns.ReadUInt16, dns.read. rewrite H0, H1. simpl.
    pose proof (byte_val_range b0). pose proof (byte_val_range b1).
    rewrite (lor_shiftl_low _ _ 8) by lia.
    change (2 ^ 8) with 256. change (2 ^ 16) with 65536.
    rewrite Z.mod_small by lia. do 2 f_equal. lia.
  - intros b0 b1 b2 b3 H0 H1 H2 H3.
    unfold dns.ReadUInt32, dns.read. rewrite H0, H1, H2, H3. simpl.
    pose proof (byte_val_range b0). pose proof (byte_val_range b1).
    pose proof (byte_val_range b2). pose proof (byte_val_range b3).
    replace (Z.shiftl (byte_val b0) 24)
      with (Z.shiftl (Z.shiftl (Z.shiftl (byte_val b0) 8) 8) 8)
      by (rewrite !Z.shiftl_shiftl by lia; reflexivity).
    replace (Z.shiftl (byte_val b1) 16)
      with (Z.shiftl (Z.shiftl (byte_val b1) 8) 8)
      by (rewrite !Z.shiftl_shiftl by lia; reflexivity).
    rewrite <- !Z.shiftl_lor.
    rewrite (lor_shiftl_low _ (byte_val b1) 8) by lia.
    rewrite (lor_shiftl_low _ (byte_val b2) 8) by lia.
    rewrite (lor_shiftl_low _ (byte_val b3) 8) by lia.
    change (2 ^ 8) with 256. change (2 ^ 32) with 4294967296.
    rewrite Z.mod_small by lia. do 2 f_equal. lia.
Qed.

Section dns_literal_names.
Import dns.

Lemma append_cons x (a b : string) :
  (String x a +:+ b = String x (a +:+ b))%string.
Proof. reflexivity. Qed.

Lemma append_assoc (a b c : string) : ((a +:+ b) +:+ c = a +:+ (b +:+ c))%string.
Proof.
  induction a as [|x a IH]; [reflexivity|].
  rewrite !append_cons. by rewrite IH.
Qed.

Lemma append_not_empty (a : string) x (s : string) :
  (a +:+ String x s)%string <> EmptyString.
Proof. destruct a; [change (String x s <> EmptyString)|rewrite append_cons]; discriminate. Qed.

Lemma byte_val_of_Z n : 0 <= n < 256 -> byte_val (byte_of_Z n) = n.
Proof.
  intros Hn. unfold byte_val, byte_of_Z. rewrite Z.mod_small by lia.
  destruct (Byte.of_N (Z.to_N n)) as [b|] eqn:Hb.
  - apply Byte.to_of_N in Hb. rewrite Hb. lia.
  - apply Byte.of_N_None_iff in Hb. lia.
Qed.

(** Lengths below 192 do not have the two top bits of a pointer. *)
Lemma label_length_no_pointer n :
  0 <= n < 192 -> Z.land n 0xC0 <> 0xC0.
Proof.
  intros Hn.
  assert (H : forallb (fun k => negb (Z.land (Z.of_nat k) 0xC0 =? 0xC0)) (seq 0 192)
              = true) by (vm_compute; reflexivity).
  rewrite forallb_forall in H. specialize (H (Z.to_nat n)).
  rewrite Z2Nat.id in H by lia.
  assert (Hin : In (Z.to_nat n) (seq 0 192)) by (apply in_seq; lia).
  apply H in Hin. apply negb_true_iff in Hin. lia.
Qed.

(** The name the loop builds from the labels it meets, one after the
    other, is the labels joined by dots. *)
Lemma labels_joined (labels : list (list byte)) : forall d,
  Forall (fun label => label <> []) labels ->
  fold_left (fun d label =>
               ((if decide (d = EmptyString) then d else d +:+ ".")
                +:+ string_of_list_byte label)%string) labels d
  = if decide (d = EmptyString)
    then String.concat "." (map string_of_list_byte labels)
    else match labels with
         | [] => d
         | _ => (d +:+ "." +:+ String.concat "." (map string_of_list_byte labels))%string
         end.
Proof.
  induction labels as [|label labels IH]; intros d Hne; simpl.
  - by case_decide.
  - apply Forall_cons in Hne as [Hlabel Hne].
    rewrite (IH _ Hne).
    destruct label as [|b label]; [done|].
    rewrite decide_False by apply append_not_empty.
    destruct (decide (d = EmptyString)) as [->|Hd]; simpl.
    + destruct labels; reflexivity.
    + destruct labels as [|l ls]; simpl.
      * by rewrite append_assoc.
      * rewrite !append_assoc. reflexivity.
Qed.

Lemma wire_labels_cons label labels :
  wire_labels (label :: labels)
  = (byte_of_Z (Z.of_nat (List.length label)) :: label) ++ wire_labels labels.
Proof. unfold wire_labels. simpl. by rewrite <- !app_assoc. Qed.

Lemma body_at_zero buffer length st :
  buffer !! offset st = Some x00 ->
  ExtractDomainName_body buffer length st = Ok Exit.
Proof. intros H. unfold ExtractDomainName_body, read. by rewrite H. Qed.

(** The loop over a name written without compression. *)
Lemma literal_labels_loop (post : list byte) (labels : list (list byte)) :
  forall (pre : list byte) d j,
    Forall (fun label => (1 <= List.length label < 192)%nat) labels ->
    let buffer := pre ++ wire_labels labels ++ post in
    ExtractDomainName_from buffer (List.length buffer)
      {| offset := List.length pre; domain := d; jumps := j;
         originalOffset := List.length pre; jumped := false |}
    = Some (Ok {| offset := (List.length pre + List.length (wire_labels labels) - 1)%nat;
                  domain :=
                    fold_left (fun d label =>
                                 ((if decide (d = EmptyString) then d else d +:+ ".")
                                  +:+ string_of_list_byte label)%string) labels d;
                  jumps := j;
                  originalOffset :=
                    (List.length pre + List.length (wire_labels labels) - 1)%nat;
                  jumped := false |}).
Proof.
  induction labels as [|label labels IH]; intros pre d j Hok buffer.
  - subst buffer. unfold ExtractDomainName_from.
    destruct (iterations_left_S (List.length (pre ++ wire_labels [] ++ post))
                {| offset := List.length pre; domain := d; jumps := j;
                   originalOffset := List.length pre; jumped := false |}) as [n ->].
    cbn [ExtractDomainName_loop].
    rewrite body_at_zero by (by apply list_lookup_middle).
    cbn [wire_labels map concat app List.length fold_left].
    do 3 f_equal; lia.
  - apply Forall_cons in Hok as [Hlabel Hok].
    set (n := List.length label) in *.
    set (st := {| offset := List.length pre; domain := d; jumps := j;
                  originalOffset := List.length pre; jumped := false |}).
    set (pre' := pre ++ byte_of_Z (Z.of_nat n) :: label).
    assert (Hbuffer : buffer = pre' ++ wire_labels labels ++ post).
    { subst buffer pre'. rewrite wire_labels_cons. by rewrite <- !app_assoc. }
    assert (Hpre' : List.length pre' = (List.length pre + (n + 1))%nat).
    { subst pre'. rewrite length_app. simpl. lia. }
    assert (Hbody :
      ExtractDomainName_body buffer (List.length buffer) st
      = Ok (Label {| offset := List.length pre';
                     domain := ((if decide (d = EmptyString) then d else d +:+ ".")
                                +:+ string_of_list_byte label)%string;
                     jumps := j;
                     originalOffset := List.length pre';
                     jumped := false |})).
    { unfold ExtractDomainName_body, read. simpl.
      assert (Hat : buffer !! List.length pre = Some (byte_of_Z (Z.of_nat n))).
      { subst buffer. rewrite wire_labels_cons. simpl.
        by rewrite list_lookup_middle. }
      rewrite Hat. simpl. rewrite byte_val_of_Z by lia.
      rewrite decide_False by lia.
      rewrite decide_False by (apply label_length_no_pointer; lia).
      rewrite Nat2Z.id.
      assert (Hlen : (List.length pre + 1 + n <= List.length buffer)%nat).
      { rewrite Hbuffer, length_app. lia. }
      rewrite decide_False by lia.
      unfold read_range.
      rewrite (decide_True (P := (List.length pre + 1 + n <= List.length buffer)%nat))
        by lia.
      simpl.
      assert (Hrange : take n (drop (List.length pre + 1) buffer) = label).
      { subst buffer. rewrite wire_labels_cons. simpl.
        rewrite drop_app_add. simpl.
        rewrite <- app_assoc. by apply take_app_length'. }
      rewrite Hrange, Hpre'. reflexivity. }
    rewrite (reaches_same_result _ _ _ _
               (reaches_label _ _ _ _ _ Hbody (reaches_refl _ _ _))).
    rewrite Hbuffer. rewrite (IH pre' _ j Hok). cbn [fold_left].
    rewrite wire_labels_cons, Hpre', length_app. cbn [List.length]. fold n.
    do 3 f_equal; lia.
Qed.

End dns_literal_names.

(** X5.  A name written without compression (labels of 1 to 191 bytes,
    each after its length byte, then a zero byte) is decoded, wherever it
    stands in the buffer, to its labels joined by dots, and the new offset
    is just past its zero byte.  Lengths 64 to 191 are read as labels like
    the others. *)
Theorem ExtractDomainName_literal_labels
  (pre post : list byte) (labels : list (list byte)) :
  Forall (fun label => (1 <= List.length label < 192)%nat) labels ->
  dns.ExtractDomainName (pre ++ dns.wire_labels labels ++ post)
    (List.length (pre ++ dns.wire_labels labels ++ post)) (List.length pre)
  = Ok (String.concat "." (map string_of_list_byte labels),
        (List.length pre + List.length (dns.wire_labels labels))%nat).
Proof.
  intros Hok. unfold dns.ExtractDomainName.
  change (dns.ExtractDomainName_loop _ _ _ _)
    with (dns.ExtractDomainName_from (pre ++ dns.wire_labels labels ++ post)
            (List.length (pre ++ dns.wire_labels labels ++ post))
            (dns.initial_state (List.length pre))).
  unfold dns.initial_state.
  rewrite (literal_labels_loop post labels pre EmptyString 0 Hok).
  unfold dns.final_offset. cbn [dns.jumped dns.offset dns.domain].
  rewrite labels_joined.
  - rewrite decide_True by done. f_equal. f_equal.
    assert (1 <= List.length (dns.wire_labels labels))%nat; [|lia].
    unfold dns.wire_labels. rewrite length_app. simpl. lia.
  - eapply Forall_impl; [exact Hok|]. intros [|b l]; simpl; [lia|done].
Qed.

(** A witness for X5: example.com after a 12-byte header, before its type
    and class. *)
Lemma ExtractDomainName_literal_labels_witness :
  dns.ExtractDomainName
    [x00; x01; x81; x80; x00; x01; x00; x00; x00; x00; x00; x00;
     x07; x65; x78; x61; x6d; x70; x6c; x65; x03; x63; x6f; x6d; x00;
     x00; x01; x00; x01] 29 12
  = Ok ("example.com"%string, 25%nat).
Proof.
  apply (ExtractDomainName_literal_labels
           [x00; x01; x81; x80; x00; x01; x00; x00; x00; x00; x00; x00]
           [x00; x01; x00; x01]
           [[x65; x78; x61; x6d; x70; x6c; x65]; [x63; x6f; x6d]]).
  repeat constructor.
Defined.

(** ** The domains cache: insertion, other keys, Cleanup, invariants *)

Section cache_operations.

Import cache.

Lemma Cleanup_lookup (now : Z) (c : DomainsCache) (k : string) (e : CacheEntry) :
  cache_ (Cleanup now c) !! k = Some e
  <-> cache_ c !! k = Some e /\ now < expiration_time e.
Proof.
  unfold Cleanup. simpl. rewrite map_lookup_filter_Some. simpl.
  split; intros [H1 H2]; (split; [exact H1|lia]).
Qed.

Lemma Cleanup_lookup_None (now : Z) (c : DomainsCache) (k : string) :
  cache_ (Cleanup now c) !! k = None
  <-> forall e, cache_ c !! k = Some e -> expiration_time e <= now.
Proof.
  split.
  - intros Hn e He. destruct (decide (now < expiration_time e)) as [Hlt|]; [|lia].
    assert (cache_ (Cleanup now c) !! k = Some e) as Hs
      by (apply Cleanup_lookup; auto).
    rewrite Hn in Hs. discriminate.
  - intros Hall. destruct (cache_ (Cleanup now c) !! k) as [e|] eqn:He; [|done].
    apply Cleanup_lookup in He as [He Hlt]. specialize (Hall e He). lia.
Qed.

Lemma wrap64_fits (z : Z) : fits64 z -> wrap64 z = z.
Proof.
  unfold fits64, wrap64. intros H. rewrite Z.mod_small by lia. lia.
Qed.

Lemma expiration_fits (now ttl : Z) :
  fits64 (ttl * 1000000000) -> fits64 (now + ttl * 1000000000) ->
  expiration now ttl = now + ttl * 1000000000.
Proof.
  intros Httl Hsum. unfold expiration.
  rewrite (wrap64_fits _ Httl). apply wrap64_fits. exact Hsum.
Qed.

Lemma GetDomain_ttl (now : Z) (k : string) (c : DomainsCache) :
  ttl_ (GetDomain now k c).2 = ttl_ c.
Proof.
  unfold GetDomain. destruct (cache_ c !! k); [case_decide|]; reflexivity.
Qed.

Lemma GetDomain_lookup (now : Z) (k k' : string) (c : DomainsCache) (e : CacheEntry) :
  cache_ (GetDomain now k c).2 !! k' = Some e -> cache_ c !! k' = Some e.
Proof.
  unfold GetDomain. destruct (cache_ c !! k) eqn:Hk; [case_decide|]; simpl; auto.
  intros H0. apply lookup_delete_Some in H0 as [_ H0]. exact H0.
Qed.

Lemma GetDomain_size (now : Z) (k : string) (c : DomainsCache) :
  (size (cache_ (GetDomain now k c).2) <= size (cache_ c))%nat.
Proof.
  unfold GetDomain. destruct (cache_ c !! k) eqn:Hk; [case_decide|]; simpl; auto.
  pose proof (map_size_delete k (cache_ c)) as Hs. rewrite Hk in Hs. simpl in Hs. lia.
Qed.

Lemma AddDomain_size (now : Z) (k ip : string) (c : DomainsCache) :
  size (cache_ (AddDomain now k ip c))
  = match cache_ c !! k with
    | Some _ => size (cache_ c)
    | None => S (size (cache_ c))
    end.
Proof.
  unfold AddDomain. simpl. destruct (cache_ c !! k) as [e|] eqn:Hk.
  - rewrite <- (insert_delete_id (cache_ c) k e Hk) at 2.
    rewrite <- insert_delete_eq.
    rewrite !map_size_insert_None by apply lookup_delete_eq. reflexivity.
  - apply map_size_insert_None. exact Hk.
Qed.

Lemma Cleanup_size (now : Z) (c : DomainsCache) :
  (size (cache_ (Cleanup now c)) <= size (cache_ c))%nat.
Proof.
  unfold Cleanup. simpl. apply map_subseteq_size, map_filter_subseteq.
Qed.

End cache_operations.



(** Past the 64-bit range the sum comes out negative: with a time to live
    of 9223372037 seconds an address stored at clock value 0 is absent at
    clock value 0 already. *)
Example AddDomain_time_to_live_overflow :
  (cache.GetDomain 0 "a" (cache.AddDomain 0 "a" "1" (cache.new 9223372037))).1
  = None.
Proof.
  unfold cache.GetDomain, cache.AddDomain. cbn [cache.cache_ cache.ttl_ cache.new].
  rewrite lookup_insert_eq. cbn [cache.expiration_time].
  rewrite decide_False; [reflexivity|]. vm_compute. discriminate.
Qed.

(** X7.  AddDomain and GetDomain touch one key: what any other key holds is
    the same after the call, and neither changes the time to live. *)
Theorem other_keys_untouched
  (now : Z) (k k' ip : string) (c : cache.DomainsCache) :
  k <> k' ->
  cache.cache_ (cache.AddDomain now k ip c) !! k' = cache.cache_ c !! k'
  /\ cache.cache_ (cache.GetDomain now k c).2 !! k' = cache.cache_ c !! k'
  /\ cache.ttl_ (cache.AddDomain now k ip c) = cache.ttl_ c
  /\ cache.ttl_ (cache.GetDomain now k c).2 = cache.ttl_ c.
Proof.
  intros Hk. split; [|split; [|split]].
  - unfold cache.AddDomain. simpl. apply lookup_insert_ne. exact Hk.
  - unfold cache.GetDomain.
    destruct (cache.cache_ c !! k); [case_decide|]; simpl; try reflexivity.
    apply lookup_delete_ne. exact Hk.
  - reflexivity.
  - apply GetDomain_ttl.
Qed.

(** A witness for X7: an expired entry under "a" is erased by the lookup,
    the entry under "b" stays. *)
Lemma other_keys_untouched_witness :
  let c := cache.AddDomain 0 "b" "2" (cache.AddDomain 0 "a" "1" (cache.new 10)) in
  cache.cache_ (cache.AddDomain 20000000000 "a" "3" c) !! "b" = cache.cache_ c !! "b"
  /\ cache.cache_ (cache.GetDomain 20000000000 "a" c).2 !! "b" = cache.cache_ c !! "b"
  /\ cache.ttl_ (cache.AddDomain 20000000000 "a" "3" c) = cache.ttl_ c
  /\ cache.ttl_ (cache.GetDomain 20000000000 "a" c).2 = cache.ttl_ c.
Proof.
  intros c. apply (other_keys_untouched 20000000000 "a" "b" "3" c). discriminate.
Defined.

(** X8.  Cleanup keeps exactly the entries whose expiry lies after the clock
    value, each as it was.  A lookup at the same clock value gives the same
    answer after the Cleanup as without it and finds nothing left to erase;
    and a Cleanup after a lookup gives the same cache as the Cleanup alone:
    the erasure a lookup does is part of what Cleanup does. *)
Theorem Cleanup_keeps_unexpired (now : Z) (c : cache.DomainsCache) :
  (forall k e,
     cache.cache_ (cache.Cleanup now c) !! k = Some e
     <-> cache.cache_ c !! k = Some e /\ now < cache.expiration_time e)
  /\ (forall k,
        cache.GetDomain now k (cache.Cleanup now c)
        = ((cache.GetDomain now k c).1, cache.Cleanup now c))
  /\ (forall k,
        cache.Cleanup now (cache.GetDomain now k c).2 = cache.Cleanup now c).
Proof.
  split; [|split].
  - intros k e. apply Cleanup_lookup.
  - intros k. unfold cache.GetDomain at 1 2.
    destruct (cache.cache_ c !! k) as [e|] eqn:Hk.
    + destruct (decide (now < cache.expiration_time e)) as [Hlt|Hge].
      * assert (cache.cache_ (cache.Cleanup now c) !! k = Some e) as ->
          by (apply Cleanup_lookup; auto).
        rewrite decide_True by exact Hlt. reflexivity.
      * assert (cache.cache_ (cache.Cleanup now c) !! k = None) as ->.
        { apply Cleanup_lookup_None. intros e' He'.
          rewrite Hk in He'. injection He' as <-. lia. }
        reflexivity.
    + assert (cache.cache_ (cache.Cleanup now c) !! k = None) as ->.
      { apply Cleanup_lookup_None. intros e' He'.
        rewrite Hk in He'. discriminate. }
      reflexivity.
  - intros k. unfold cache.GetDomain.
    destruct (cache.cache_ c !! k) as [e|] eqn:Hk; [|reflexivity].
    case_decide as Hlt; [reflexivity|].
    unfold cache.Cleanup. simpl. f_equal.
    rewrite map_filter_delete. apply delete_id.
    apply map_lookup_filter_None. right. intros e' He'.
    rewrite Hk in He'. injection He' as <-. simpl. lia.
Qed.

(** X9.  Two Cleanups in a row are one Cleanup at the later of the two
    clock values; so Cleanup is idempotent, and a Cleanup with an earlier
    clock value after one with a later value removes nothing. *)
Theorem Cleanup_twice (t1 t2 : Z) (c : cache.DomainsCache) :
  cache.Cleanup t2 (cache.Cleanup t1 c) = cache.Cleanup (Z.max t1 t2) c.
Proof.
  unfold cache.Cleanup. simpl. f_equal.
  rewrite map_filter_filter. apply map_filter_ext.
  intros k e _. simpl. lia.
Qed.

Section cache_invariants.

Import cache.

Lemma served_new (ttl : Z) : served ttl [] (new ttl).
Proof.
  split; [reflexivity|]. split; [simpl; rewrite map_size_empty; lia|].
  intros k e H. simpl in H. rewrite lookup_empty in H. discriminate.
Qed.

Lemma served_perform (ttl : Z) (ops : list call) (c : DomainsCache) (op : call) :
  served ttl ops c -> served ttl (ops ++ [op]) (perform c op).
Proof.
  intros (Httl & Hsize & Hentries).
  assert (forall k e,
            (domain e = k
             /\ exists now, In (CallAddDomain now k (ip_address e)) ops
                            /\ expiration_time e = expiration now ttl) ->
            domain e = k
            /\ exists now, In (CallAddDomain now k (ip_address e)) (ops ++ [op])
                           /\ expiration_time e = expiration now ttl) as Hmore.
  { intros k e (Hd & now & Hin & Hexp). split; [exact Hd|].
    exists now. split; [apply in_or_app; left; exact Hin|exact Hexp]. }
  unfold served. rewrite List.filter_app, length_app.
  destruct op as [now k ip|now k|now];
    cbn [perform List.filter is_AddDomain List.length].
  - split; [exact Httl|]. split.
    + rewrite AddDomain_size. destruct (cache_ c !! k); lia.
    + intros k' e. unfold AddDomain. simpl.
      destruct (decide (k = k')) as [<-|Hne].
      * rewrite lookup_insert_eq. intros [= <-]. simpl.
        split; [reflexivity|]. exists now.
        split; [apply in_or_app; right; left; reflexivity|].
        rewrite Httl. reflexivity.
      * rewrite lookup_insert_ne by exact Hne. intros H. auto.
  - split; [rewrite GetDomain_ttl; exact Httl|]. split.
    + pose proof (GetDomain_size now k c). lia.
    + intros k' e H. apply GetDomain_lookup in H. auto.
  - split; [exact Httl|]. split.
    + pose proof (Cleanup_size now c). lia.
    + intros k' e H. apply Cleanup_lookup in H as [H _]. auto.
Qed.

Lemma served_perform_all (ttl : Z) (ops : list call) :
  served ttl ops (perform_all (new ttl) ops).
Proof.
  induction ops as [|op ops IH] using rev_ind.
  - apply served_new.
  - unfold perform_all in *. rewrite fold_left_app. simpl.
    apply served_perform. exact IH.
Qed.

End cache_invariants.

(** X10.  Whatever calls a cache has served since its construction: its time
    to live is the constructor's; it holds at most as many entries as there
    were AddDomain calls; and every entry stands under its own [domain],
    with the address of one of the AddDomain calls for that key and the
    expiry that call computed from its clock value and the time to live:
    their sum in nanoseconds when the conversion and the sum stay within
    the 64-bit range. *)
Theorem cache_entries_come_from_AddDomain (ttl : Z) (ops : list cache.call) :
  let c := cache.perform_all (cache.new ttl) ops in
  cache.ttl_ c = ttl
  /\ (size (cache.cache_ c)
      <= List.length (List.filter cache.is_AddDomain ops))%nat
  /\ forall k e,
       cache.cache_ c !! k = Some e ->
       cache.domain e = k
       /\ exists now,
            In (cache.CallAddDomain now k (cache.ip_address e)) ops
            /\ cache.expiration_time e = cache.expiration now ttl
            /\ (cache.fits64 (ttl * 1000000000) ->
                cache.fits64 (now + ttl * 1000000000) ->
                cache.expiration_time e = now + ttl * 1000000000).
Proof.
  destruct (served_perform_all ttl ops) as (Httl & Hsize & Hentries).
  split; [exact Httl|]. split; [exact Hsize|].
  intros k e He. destruct (Hentries k e He) as (Hd & now & Hin & Hexp).
  split; [exact Hd|]. exists now. split; [exact Hin|]. split; [exact Hexp|].
  intros H1 H2. rewrite Hexp. apply expiration_fits; assumption.
Qed.

(** ** SMTP: what ReadResponse and ProcessResponse can return *)

Section smtp_read_outcomes.
Import smtp smtp.utils.

Lemma Receive_outcomes use_ssl_ net :
  match Receive use_ssl_ 1023 net with
  | Ok (buffer, _) => String.length buffer = 0%nat -> use_ssl_ = false
  | Throw e => receive_error use_ssl_ e
  | OutOfBounds _ => False
  end.
Proof.
  unfold Receive, receive_error. rewrite decide_False by lia.
  destruct net as [|[bytes| | |error] net]; auto.
  - case_decide as Hlen; [destruct use_ssl_; eauto 6|].
    case_decide as Hle; [intros H; contradiction|].
    intros H. exfalso.
    assert (String.length (substring 0 1023 bytes) = 1023%nat); [|lia].
    clear -Hle. apply Nat.nle_gt in Hle.
    generalize dependent 1023%nat. 
    induction bytes as [|c bytes IH]; intros [|n] Hn; simpl in *; try lia.
    rewrite IH by lia. reflexivity.
  - destruct use_ssl_; eauto 6.
  - destruct use_ssl_; eauto 6.
Qed.

Lemma ReadResponse_loop_outcomes use_ssl_ fuel : forall net response r,
  complete_response response = false ->
  ReadResponse_loop fuel use_ssl_ net response = Some r ->
  match r with
  | Ok (true, response', _) => complete_response response' = true
  | Ok (false, response', _) =>
      use_ssl_ = false /\ complete_response response' = false
  | Throw e => receive_error use_ssl_ e
  | OutOfBounds _ => False
  end.
Proof.
  induction fuel as [|fuel IH]; intros net response r Hresponse; [discriminate|].
  simpl. pose proof (Receive_outcomes use_ssl_ net) as Hrecv.
  destruct (Receive use_ssl_ 1023 net) as [[buffer net']|e|i].
  - case_decide as Hlen.
    + intros [= <-]. auto.
    + destruct (complete_response (response +:+ c_str buffer)) eqn:Hc.
      * intros [= <-]. exact Hc.
      * apply IH. exact Hc.
  - intros [= <-]. exact Hrecv.
  - contradiction.
Qed.

Lemma ReadResponse_eq use_ssl_ net :
  ReadResponse_loop (S (script_size net)) use_ssl_ net EmptyString
  = Some (ReadResponse use_ssl_ net).
Proof.
  unfold ReadResponse.
  destruct (ReadResponse_loop_terminates use_ssl_ (S (script_size net)) net
              EmptyString) as [r ->]; [lia|reflexivity].
Qed.

Lemma ReadResponse_outcomes_aux use_ssl_ net :
  match ReadResponse use_ssl_ net with
  | Ok (true, response, _) => complete_response response = true
  | Ok (false, response, _) =>
      use_ssl_ = false /\ complete_response response = false
  | Throw e => receive_error use_ssl_ e
  | OutOfBounds _ => False
  end.
Proof.
  apply (ReadResponse_loop_outcomes use_ssl_ (S (script_size net)) net EmptyString);
    [reflexivity|apply ReadResponse_eq].
Qed.

Lemma complete_response_shape response :
  complete_response response = true ->
  exists c0 c1 c2 rest,
    response = String c0 (String c1 (String c2 (String " " rest)))
    /\ isdigit c0 = true /\ isdigit c1 = true /\ isdigit c2 = true.
Proof.
  destruct response as [|c0 [|c1 [|c2 [|c3 rest]]]]; try discriminate.
  simpl. rewrite !andb_true_iff. intros [[[H3 H0] H1] H2].
  apply bool_decide_eq_true in H3 as ->. eauto 10.
Qed.

Lemma GetResponseCode_three_digits c0 c1 c2 rest :
  isdigit c0 = true -> isdigit c1 = true -> isdigit c2 = true ->
  GetResponseCode (String c0 (String c1 (String c2 rest)))
  = 100 * (code c0 - 48) + 10 * (code c1 - 48) + (code c2 - 48).
Proof.
  intros H0 H1 H2. unfold GetResponseCode.
  rewrite decide_False by (simpl; lia).
  rewrite substring_3, (stoi_three_digits _ _ _ H0 H1 H2). reflexivity.
Qed.

End smtp_read_outcomes.

(** X11.  ReadResponse returns true only with a response that starts with
    three digits and a space, and false only on a connection without TLS
    whose peer closed, with a response that does not start so.  It throws
    nothing but what Receive throws: the SocketException of the receive
    timeout; without TLS the SocketException of a failed [recv], whose
    message is "Receive failed: " and the text of the system error; under
    TLS the SSLException of a failed [SSL_read], whose message is "SSL read
    failed: " and the SSL error number.  It never throws an SMTPException,
    so the handler in Execute does not catch what it throws. *)
Theorem ReadResponse_outcomes (use_ssl_ : bool) (net : list smtp.recv_event) :
  match smtp.ReadResponse use_ssl_ net with
  | Ok (true, response, _) => smtp.complete_response response = true
  | Ok (false, response, _) =>
      use_ssl_ = false /\ smtp.complete_response response = false
  | Throw e =>
      (e = smtp.SocketException "Receive timeout"
       \/ (use_ssl_ = false
           /\ exists error,
                e = smtp.SocketException ("Receive failed: " +:+ error))
       \/ (use_ssl_ = true
           /\ exists ssl_error,
                e = smtp.SSLException ("SSL read failed: " +:+ ssl_error)))
      /\ forall what, e <> smtp.SMTPException what
  | OutOfBounds _ => False
  end.
Proof.
  pose proof (ReadResponse_outcomes_aux use_ssl_ net) as H.
  destruct (smtp.ReadResponse use_ssl_ net) as [[[[|] response] net']|e|i]; auto.
  split; [exact H|]. intros what ->.
  destruct H as [H|[[_ [error H]]|[_ [ssl_error H]]]]; discriminate.
Qed.

(** The three exceptions of X11 are thrown: each by a peer that sends the
    first line of a reply and then stays silent, or whose connection
    fails. *)
Example ReadResponse_exceptions :
  smtp.ReadResponse false [smtp.Data "250-mail"]
  = Throw (smtp.SocketException "Receive timeout")
  /\ smtp.ReadResponse false
       [smtp.Data "250-mail"; smtp.Failed "Connection reset by peer"]
     = Throw (smtp.SocketException "Receive failed: Connection reset by peer")
  /\ smtp.ReadResponse true [smtp.Data "250-mail"; smtp.Failed "1"]
     = Throw (smtp.SSLException "SSL read failed: 1")
  /\ smtp.ReadResponse true [smtp.Data "250-mail"; smtp.Closed]
     = Throw (smtp.SSLException "SSL read failed: 6").
Proof. vm_compute. repeat split. Qed.

(** X12.  Every AuthResult that ProcessResponse hands to the callback holds
    a reply that starts with three digits and a space; its response code is
    the number those digits write, from 0 to 999; it counts as a success
    exactly when the code is from 200 to 399, that is when the first digit
    is 2 or 3; and it names the credentials of the task. *)
Theorem ProcessResponse_result_shape
  (use_ssl_ : bool) (current_username_ current_password_ : string)
  (net net' : list smtp.recv_event) (result : smtp.AuthResult) :
  smtp.ProcessResponse use_ssl_ current_username_ current_password_ net
  = Ok (result, net') ->
  exists c0 c1 c2 rest,
    smtp.error_message result = String c0 (String c1 (String c2 (String " " rest)))
    /\ smtp.utils.isdigit c0 = true
    /\ smtp.utils.isdigit c1 = true
    /\ smtp.utils.isdigit c2 = true
    /\ smtp.response_code result
       = 100 * (smtp.utils.code c0 - 48) + 10 * (smtp.utils.code c1 - 48)
         + (smtp.utils.code c2 - 48)
    /\ 0 <= smtp.response_code result <= 999
    /\ (smtp.success result = true <-> 200 <= smtp.response_code result < 400)
    /\ (smtp.success result = true <-> c0 = "2"%char \/ c0 = "3"%char)
    /\ smtp.username result = current_username_
    /\ smtp.password result = current_password_.
Proof.
  unfold smtp.ProcessResponse.
  pose proof (ReadResponse_outcomes_aux use_ssl_ net) as H.
  destruct (smtp.ReadResponse use_ssl_ net) as [[[[|] response] net'']|e|i];
    simpl; try discriminate.
  intros [= <- <-]. simpl.
  destruct (complete_response_shape _ H) as (c0 & c1 & c2 & rest & -> & H0 & H1 & H2).
  exists c0, c1, c2, rest.
  pose proof (GetResponseCode_three_digits c0 c1 c2 (String " " rest) H0 H1 H2) as Hcode.
  pose proof (isdigit_code _ H0) as R0.
  pose proof (isdigit_code _ H1) as R1.
  pose proof (isdigit_code _ H2) as R2.
  pose proof (IsSuccessResponse_iff
                (String c0 (String c1 (String c2 (String " " rest))))) as Hs.
  rewrite Hcode in *.
  split; [reflexivity|]. do 3 (split; [assumption|]).
  split; [reflexivity|]. split; [lia|]. split; [exact Hs|].
  split; [|split; reflexivity].
  rewrite Hs. split.
  - intros Hr.
    assert (smtp.utils.code c0 = 50 \/ smtp.utils.code c0 = 51) as [Hc|Hc] by lia;
      [left|right]; apply (f_equal Z.to_N) in Hc;
      unfold smtp.utils.code in Hc; rewrite N2Z.id in Hc;
      apply (f_equal ascii_of_N) in Hc; rewrite ascii_N_embedding in Hc;
      exact Hc.
  - intros [-> | ->]; change (smtp.utils.code "2") with 50;
      change (smtp.utils.code "3") with 51; lia.
Qed.

(** A witness for X12: a one-line rejection. *)
Lemma ProcessResponse_result_shape_witness :
  exists c0 c1 c2 rest,
    ("535 5.7.8 try later" +:+ smtp.CRLF)%string
    = String c0 (String c1 (String c2 (String " " rest)))
    /\ smtp.utils.isdigit c0 = true
    /\ smtp.utils.isdigit c1 = true
    /\ smtp.utils.isdigit c2 = true
    /\ 535
       = 100 * (smtp.utils.code c0 - 48) + 10 * (smtp.utils.code c1 - 48)
         + (smtp.utils.code c2 - 48)
    /\ 0 <= 535 <= 999
    /\ (false = true <-> 200 <= 535 < 400)
    /\ (false = true <-> c0 = "2"%char \/ c0 = "3"%char)
    /\ "alice"%string = "alice"%string
    /\ "s3cret"%string = "s3cret"%string.
Proof.
  apply (ProcessResponse_result_shape false "alice" "s3cret"
           [smtp.Data ("535 5.7.8 try later" +:+ smtp.CRLF)%string] []
           {| smtp.success := false;
              smtp.error_message := ("535 5.7.8 try later" +:+ smtp.CRLF)%string;
              smtp.response_code := 535;
              smtp.username := "alice"; smtp.password := "s3cret" |}).
  vm_compute. reflexivity.
Defined.

Section smtp_chunks.
Import smtp smtp.utils.

Lemma append_length (a b : string) :
  String.length (a +:+ b) = (String.length a + String.length b)%nat.
Proof.
  induction a as [|x a IH]; [reflexivity|].
  rewrite append_cons. simpl. by rewrite IH.
Qed.

Lemma c_str_without_NUL (buffer : string) :
  Forall (fun c => c <> "000"%char) (list_ascii_of_string buffer) ->
  c_str buffer = buffer.
Proof.
  induction buffer as [|c buffer IH]; [reflexivity|].
  simpl. intros H. apply Forall_cons in H as [Hc H].
  rewrite decide_False by exact Hc. by rewrite IH.
Qed.

Lemma complete_response_short (response : string) :
  (String.length response < 4)%nat -> complete_response response = false.
Proof.
  destruct response as [|c0 [|c1 [|c2 [|c3 rest]]]]; simpl; auto. lia.
Qed.

Lemma Receive_chunk use_ssl_ (chunk : string) net :
  (1 <= String.length chunk <= 1023)%nat ->
  Receive use_ssl_ 1023 (Data chunk :: net) = Ok (chunk, net).
Proof.
  intros H. unfold Receive. rewrite decide_False by lia.
  rewrite decide_False by lia. rewrite decide_True by lia. reflexivity.
Qed.

Lemma ReadResponse_loop_chunks use_ssl_ (last : string) net :
  forall (chunks : list string) response fuel,
    Forall whole_chunk chunks -> whole_chunk last ->
    (String.length (response +:+ fold_right String.append EmptyString chunks) < 4)%nat ->
    complete_response
      (response +:+ fold_right String.append EmptyString chunks +:+ last) = true ->
    (List.length chunks < fuel)%nat ->
    ReadResponse_loop fuel use_ssl_ (map Data chunks ++ Data last :: net) response
    = Some (Ok (true,
                (response +:+ fold_right String.append EmptyString chunks +:+ last)%string,
                net)).
Proof.
  induction chunks as [|chunk chunks IH];
    intros response [|fuel] Hchunks [Hlast Hnul] Hshort Hcomplete Hfuel;
    simpl in Hfuel; try lia.
  - cbn [fold_right map app] in *. change (EmptyString +:+ last)%string with last in *.
    cbn [ReadResponse_loop]. rewrite (Receive_chunk _ _ _ Hlast).
    rewrite decide_False by lia. rewrite (c_str_without_NUL _ Hnul).
    rewrite Hcomplete. reflexivity.
  - apply Forall_cons in Hchunks as [[Hchunk Hnul'] Hchunks].
    cbn [fold_right map app] in *.
    cbn [ReadResponse_loop]. rewrite (Receive_chunk _ _ _ Hchunk).
    rewrite decide_False by lia. rewrite (c_str_without_NUL _ Hnul').
    rewrite (append_assoc chunk) in Hcomplete |- *.
    rewrite <- (append_assoc response chunk) in Hcomplete, Hshort |- *.
    rewrite complete_response_short.
    + apply IH; [exact Hchunks|by split|exact Hshort|exact Hcomplete|lia].
    + rewrite !append_length in Hshort. rewrite append_length. lia.
Qed.

End smtp_chunks.

(** X13.  ReadResponse returns at the first chunk that brings the response
    to four characters or more, when those start with three digits and a
    space: the response is what was delivered up to the end of that chunk,
    and the chunks after it are left unread.  It does not look for the end
    of the line. *)
Theorem ReadResponse_returns_at_first_complete_chunk
  (use_ssl_ : bool) (chunks : list string) (last : string)
  (net : list smtp.recv_event) :
  Forall smtp.whole_chunk chunks -> smtp.whole_chunk last ->
  (String.length (fold_right String.append EmptyString chunks) < 4)%nat ->
  smtp.complete_response
    (fold_right String.append EmptyString chunks +:+ last) = true ->
  smtp.ReadResponse use_ssl_ (map smtp.Data chunks ++ smtp.Data last :: net)
  = Ok (true, (fold_right String.append EmptyString chunks +:+ last)%string, net).
Proof.
  intros Hchunks Hlast Hshort Hcomplete.
  pose proof (ReadResponse_eq use_ssl_ (map smtp.Data chunks ++ smtp.Data last :: net))
    as Heq.
  rewrite (ReadResponse_loop_chunks use_ssl_ last net chunks EmptyString) in Heq;
    auto.
  - by injection Heq as <-.
  - clear. induction chunks as [|chunk chunks IH]; simpl; lia.
Qed.

(** A witness for X13: the reply 250 OK delivered as "25", "0 O", "K" and
    the line end is returned as "250 O". *)
Lemma ReadResponse_returns_at_first_complete_chunk_witness :
  smtp.ReadResponse false
    [smtp.Data "25"; smtp.Data "0 O"; smtp.Data ("K" +:+ smtp.CRLF)%string]
  = Ok (true, "250 O"%string, [smtp.Data ("K" +:+ smtp.CRLF)%string]).
Proof.
  apply (ReadResponse_returns_at_first_complete_chunk false ["25"%string]
           "0 O" [smtp.Data ("K" +:+ smtp.CRLF)%string]).
  - repeat constructor; simpl; try lia; discriminate.
  - repeat constructor; simpl; try lia; discriminate.
  - simpl. lia.
  - reflexivity.
Defined.

(** ** SMTP: authentication methods *)

Section smtp_auth_methods.
Import smtp smtp.utils.

Lemma toupper_idempotent (c : ascii) : toupper (toupper c) = toupper c.
Proof.
  destruct c as [[] [] [] [] [] [] [] []]; vm_compute; reflexivity.
Qed.

Lemma transform_toupper_idempotent (s : string) :
  transform toupper (transform toupper s) = transform toupper s.
Proof.
  induction s as [|c s IH]; [reflexivity|].
  simpl. by rewrite toupper_idempotent, IH.
Qed.

Lemma HandleAuth_loop_all_AUTO (supported : list string) :
  Forall (fun s => ParseAuthMethod s = AUTO) supported ->
  HandleAuth_loop supported AUTO = AUTO.
Proof.
  induction 1 as [|s supported Hs _ IH]; [reflexivity|].
  simpl. rewrite Hs. rewrite decide_False by auto. exact IH.
Qed.

Lemma HandleAuth_loop_first (before : list string) (s : string) (after : list string) :
  Forall (fun s => ParseAuthMethod s = AUTO) before ->
  ParseAuthMethod s <> AUTO ->
  HandleAuth_loop (before ++ s :: after) AUTO = ParseAuthMethod s.
Proof.
  intros Hbefore Hs. induction Hbefore as [|s0 before Hs0 _ IH]; simpl.
  - rewrite decide_True by exact Hs. reflexivity.
  - rewrite Hs0. rewrite decide_False by auto. exact IH.
Qed.

End smtp_auth_methods.

(** X14.  ParseAuthMethod reads back what GetAuthMethodString prints for
    LOGIN, PLAIN and CRAM_MD5; AUTO is printed as LOGIN and so reads back as
    LOGIN.  In the other direction, a string that parses to a method other
    than AUTO is, in upper case, the string printed for that method.
    Parsing does not depend on the case of the letters a to z. *)
Theorem AuthMethod_strings_round_trip :
  (forall method,
     smtp.utils.ParseAuthMethod (smtp.utils.GetAuthMethodString method)
     = if decide (method = smtp.AUTO) then smtp.LOGIN else method)
  /\ (forall method_str,
        smtp.utils.ParseAuthMethod method_str <> smtp.AUTO ->
        smtp.utils.GetAuthMethodString (smtp.utils.ParseAuthMethod method_str)
        = smtp.utils.transform smtp.utils.toupper method_str)
  /\ (forall method_str,
        smtp.utils.ParseAuthMethod
          (smtp.utils.transform smtp.utils.toupper method_str)
        = smtp.utils.ParseAuthMethod method_str).
Proof.
  split; [|split].
  - intros []; reflexivity.
  - intros method_str. unfold smtp.utils.ParseAuthMethod.
    repeat case_decide; simpl; congruence.
  - intros method_str. unfold smtp.utils.ParseAuthMethod.
    rewrite transform_toupper_idempotent. reflexivity.
Qed.

(** X15.  The AUTH command of HandleAuth names LOGIN, PLAIN or CRAM-MD5 and
    nothing else.  A configured method other than AUTO is used as it is.
    With AUTO the method is the first entry of the server's list that
    parses to a method, in the server's order; when no entry does (or the
    list is empty) the method stays AUTO and the command sent is AUTH
    LOGIN. *)
Theorem HandleAuth_method_choice
  (auth_method : smtp.AuthMethod) (supported_auth_methods_ : list string) :
  (smtp.auth_cmd (smtp.HandleAuth_method auth_method supported_auth_methods_)
   ∈ [("AUTH LOGIN" +:+ smtp.CRLF)%string;
      ("AUTH PLAIN" +:+ smtp.CRLF)%string;
      ("AUTH CRAM-MD5" +:+ smtp.CRLF)%string])
  /\ (auth_method <> smtp.AUTO ->
      smtp.HandleAuth_method auth_method supported_auth_methods_ = auth_method)
  /\ (auth_method = smtp.AUTO ->
      Forall (fun s => smtp.utils.ParseAuthMethod s = smtp.AUTO)
        supported_auth_methods_ ->
      smtp.HandleAuth_method auth_method supported_auth_methods_ = smtp.AUTO
      /\ smtp.auth_cmd (smtp.HandleAuth_method auth_method supported_auth_methods_)
         = ("AUTH LOGIN" +:+ smtp.CRLF)%string)
  /\ (auth_method = smtp.AUTO ->
      forall before s after,
        supported_auth_methods_ = before ++ s :: after ->
        Forall (fun s => smtp.utils.ParseAuthMethod s = smtp.AUTO) before ->
        smtp.utils.ParseAuthMethod s <> smtp.AUTO ->
        smtp.HandleAuth_method auth_method supported_auth_methods_
        = smtp.utils.ParseAuthMethod s).
Proof.
  split; [|split; [|split]].
  - destruct (smtp.HandleAuth_method auth_method supported_auth_methods_);
      unfold smtp.auth_cmd; simpl.
    + apply list_elem_of_here.
    + apply list_elem_of_further, list_elem_of_here.
    + do 2 apply list_elem_of_further. apply list_elem_of_here.
    + apply list_elem_of_here.
  - intros H. unfold smtp.HandleAuth_method. rewrite decide_False by exact H.
    reflexivity.
  - intros -> Hall. unfold smtp.HandleAuth_method. rewrite decide_True by reflexivity.
    rewrite (HandleAuth_loop_all_AUTO _ Hall). split; reflexivity.
  - intros -> before s after -> Hbefore Hs.
    unfold smtp.HandleAuth_method. rewrite decide_True by reflexivity.
    apply HandleAuth_loop_first; assumption.
Qed.

(** ** SMTP: the methods of the EHLO reply *)

Section smtp_ehlo.
Import smtp smtp.utils.

Lemma append_empty_r (a : string) : (a +:+ EmptyString)%string = a.
Proof. induction a as [|x a IH]; [reflexivity|]. rewrite append_cons. by rewrite IH. Qed.

Lemma list_ascii_of_string_app (a b : string) :
  list_ascii_of_string (a +:+ b)
  = list_ascii_of_string a ++ list_ascii_of_string b.
Proof.
  induction a as [|x a IH]; [reflexivity|]. rewrite append_cons. simpl. by rewrite IH.
Qed.

(** *** operator>> *)

Lemma extract_methods_shape (auth_line : string) : forall method,
  Forall (fun c => isspace c = false) (list_ascii_of_string method) ->
  Forall (fun m => m <> EmptyString
                   /\ Forall (fun c => isspace c = false) (list_ascii_of_string m))
    (extract_methods method auth_line).
Proof.
  induction auth_line as [|c auth_line IH]; intros method Hmethod; simpl.
  - case_decide; [constructor|]. constructor; [auto|constructor].
  - destruct (isspace c) eqn:Hc.
    + case_decide.
      * apply IH. constructor.
      * constructor; [auto|]. apply IH. constructor.
    + apply IH. rewrite list_ascii_of_string_app. apply Forall_app. split; [exact Hmethod|].
      simpl. constructor; [exact Hc|constructor].
Qed.

Lemma extract_methods_word (word : string) : forall method auth_line,
  Forall (fun c => isspace c = false) (list_ascii_of_string word) ->
  extract_methods method (word +:+ auth_line)
  = extract_methods (method +:+ word) auth_line.
Proof.
  induction word as [|c word IH]; intros method auth_line Hword.
  - by rewrite append_empty_r.
  - simpl in Hword. apply Forall_cons in Hword as [Hc Hword].
    rewrite append_cons. simpl. rewrite Hc. rewrite (IH _ _ Hword).
    rewrite append_assoc. reflexivity.
Qed.

Lemma extract_methods_trailing (trailing : string) : forall method,
  Forall (fun c => isspace c = true) (list_ascii_of_string trailing) ->
  method <> EmptyString ->
  extract_methods method trailing = [method].
Proof.
  induction trailing as [|c trailing IH]; intros method Htrailing Hmethod; simpl.
  - rewrite decide_False by exact Hmethod. reflexivity.
  - simpl in Htrailing. apply Forall_cons in Htrailing as [Hc Htrailing].
    rewrite Hc. rewrite decide_False by exact Hmethod. f_equal.
    clear -Htrailing. induction trailing as [|c trailing IH]; [reflexivity|].
    simpl in *. apply Forall_cons in Htrailing as [Hc Htrailing].
    rewrite Hc. simpl. auto.
Qed.

Lemma extract_methods_spaces (trailing : string) :
  Forall (fun c => isspace c = true) (list_ascii_of_string trailing) ->
  extract_methods EmptyString trailing = [].
Proof.
  induction trailing as [|c trailing IH]; [reflexivity|].
  simpl. intros H. apply Forall_cons in H as [Hc H]. rewrite Hc. simpl. auto.
Qed.

(** The methods of a list written with single spaces between them are
    read back. *)
Lemma extract_methods_joined (trailing : string) (methods : list string) :
  Forall (fun m => m <> EmptyString
                   /\ Forall (fun c => isspace c = false) (list_ascii_of_string m))
    methods ->
  Forall (fun c => isspace c = true) (list_ascii_of_string trailing) ->
  extract_methods EmptyString (String.concat " " methods +:+ trailing) = methods.
Proof.
  intros Hmethods Htrailing.
  induction Hmethods as [|m methods [Hm Hspace] Hmethods IH].
  - simpl. change (EmptyString +:+ trailing)%string with trailing.
    apply extract_methods_spaces. exact Htrailing.
  - destruct methods as [|m' methods].
    + cbn [String.concat]. rewrite (extract_methods_word _ _ _ Hspace).
      change (EmptyString +:+ m)%string with m.
      apply extract_methods_trailing; assumption.
    + change (String.concat " " (m :: m' :: methods))
        with (m +:+ " " +:+ String.concat " " (m' :: methods))%string.
      rewrite !append_assoc. rewrite (extract_methods_word _ _ _ Hspace).
      change (EmptyString +:+ m)%string with m.
      rewrite append_cons. cbn [extract_methods].
      change (isspace " ") with true. cbv iota.
      rewrite decide_False by exact Hm. f_equal.
      change (EmptyString +:+ String.concat " " (m' :: methods) +:+ trailing)%string
        with (String.concat " " (m' :: methods) +:+ trailing)%string.
      exact IH.
Qed.

(** *** std::getline *)

Lemma up_to_line_feed_line (line rest : string) :
  Forall (fun c => c <> "010"%char) (list_ascii_of_string line) ->
  up_to_line_feed (line +:+ String "010" rest) = (line, rest).
Proof.
  induction line as [|c line IH]; intros Hline.
  - change (EmptyString +:+ String "010" rest)%string with (String "010" rest).
    reflexivity.
  - simpl in Hline. apply Forall_cons in Hline as [Hc Hline].
    rewrite append_cons. simpl. rewrite decide_False by exact Hc.
    rewrite (IH Hline). reflexivity.
Qed.

Lemma getline_line (line rest : string) :
  Forall (fun c => c <> "010"%char) (list_ascii_of_string line) ->
  getline (line +:+ String "010" rest) = Some (line, rest).
Proof.
  intros Hline. unfold getline.
  rewrite <- (up_to_line_feed_line line rest Hline).
  destruct line; reflexivity.
Qed.

(** What getline splits off, put back together. *)
Lemma up_to_line_feed_parts (iss : string) :
  let '(line, rest) := up_to_line_feed iss in
  (iss = line /\ rest = EmptyString
   \/ iss = (line +:+ String "010" rest)%string)
  /\ (String.length rest <= String.length iss - 1)%nat.
Proof.
  induction iss as [|c iss IH]; simpl.
  - split; [left; split; reflexivity|lia].
  - case_decide as Hc.
    + subst c. split; [right; reflexivity|lia].
    + destruct (up_to_line_feed iss) as [line rest].
      destruct IH as [Hparts Hlen]. split; [|lia].
      rewrite append_cons.
      destruct Hparts as [[-> ->]| ->]; [left; split|right]; reflexivity.
Qed.

(** *** std::string::find *)

Lemma prefix_app (s a b : string) :
  (String.length s <= String.length a)%nat ->
  String.prefix s (a +:+ b) = String.prefix s a.
Proof.
  revert a. induction s as [|x s IH]; intros a Hlen.
  - destruct a, b; reflexivity.
  - destruct a as [|y a]; [simpl in Hlen; lia|].
    rewrite append_cons. simpl. destruct (ascii_dec x y); [|reflexivity].
    apply IH. simpl in Hlen. lia.
Qed.

Lemma prefix_true_app (s a b : string) :
  String.prefix s a = true -> String.prefix s (a +:+ b) = true.
Proof.
  revert a. induction s as [|x s IH]; intros a H.
  - destruct a, b; reflexivity.
  - destruct a as [|y a]; [discriminate|].
    rewrite append_cons. simpl in *. destruct (ascii_dec x y); [|discriminate].
    apply IH. exact H.
Qed.

Lemma index_0_cons (s : string) y (a : string) :
  index 0 s (String y a)
  = if String.prefix s (String y a) then Some 0%nat
    else match index 0 s a with
         | Some n => Some (S n)
         | None => None
         end.
Proof. reflexivity. Qed.

Lemma index_found_app (s a b : string) :
  index 0 s a <> None -> index 0 s (a +:+ b) <> None.
Proof.
  induction a as [|y a IH]; intros H.
  - destruct s; [|done]. destruct b; simpl; discriminate.
  - rewrite append_cons, index_0_cons. rewrite index_0_cons in H.
    destruct (String.prefix s (String y a)) eqn:Hp.
    + pose proof (prefix_true_app s (String y a) b Hp) as Hp'.
      rewrite append_cons in Hp'. rewrite Hp'. discriminate.
    + destruct (String.prefix s (String y (a +:+ b))); [discriminate|].
      destruct (index 0 s a) eqn:Hi; [|done].
      destruct (index 0 s (a +:+ b)) eqn:Hi'; [discriminate|].
      exfalso. by apply IH.
Qed.

Lemma index_found_later (s a b : string) :
  index 0 s b <> None -> index 0 s (a +:+ b) <> None.
Proof.
  induction a as [|y a IH]; intros H; [exact H|].
  rewrite append_cons, index_0_cons.
  destruct (String.prefix s (String y (a +:+ b))); [discriminate|].
  destruct (index 0 s (a +:+ b)) eqn:Hi; [discriminate|]. by apply IH.
Qed.

Lemma index_AUTH (rest : string) : forall before : string,
  index 0 "AUTH " (before +:+ "AUTH") = None ->
  index 0 "AUTH " (before +:+ "AUTH " +:+ rest) = Some (String.length before).
Proof.
  induction before as [|y before IH]; intros H.
  - change (EmptyString +:+ "AUTH " +:+ rest)%string
      with (String "A" (String "U" (String "T" (String "H" (String " " rest))))).
    rewrite index_0_cons. simpl. destruct rest; reflexivity.
  - rewrite append_cons, index_0_cons in H. rewrite append_cons, index_0_cons.
    change ("AUTH " +:+ rest)%string with ("AUTH" +:+ (" " +:+ rest))%string.
    rewrite <- append_assoc, <- append_cons.
    rewrite prefix_app by (simpl; rewrite append_length; simpl; lia).
    destruct (String.prefix "AUTH " (String y (before +:+ "AUTH"))); [discriminate|].
    rewrite append_assoc.
    change ("AUTH" +:+ (" " +:+ rest))%string with ("AUTH " +:+ rest)%string.
    rewrite IH; [reflexivity|].
    destruct (index 0 "AUTH " (before +:+ "AUTH")); [discriminate|reflexivity].
Qed.

Lemma substring_all (s : string) : substring 0 (String.length s) s = s.
Proof. induction s as [|c s IH]; [reflexivity|]. simpl. by rewrite IH. Qed.

Lemma substring_after (a b : string) (n m : nat) :
  substring (String.length a + n) m (a +:+ b) = substring n m b.
Proof.
  induction a as [|c a IH]; [reflexivity|]. rewrite append_cons. simpl. exact IH.
Qed.

(** The part of a line after its first AUTH and space. *)
Lemma after_AUTH (before rest : string) :
  index 0 "AUTH " (before +:+ "AUTH") = None ->
  let line := (before +:+ "AUTH " +:+ rest)%string in
  match index 0 "AUTH " line with
  | Some pos => substring (pos + 5) (String.length line - (pos + 5)) line
  | None => EmptyString
  end = rest.
Proof.
  intros H line. unfold line. rewrite (index_AUTH rest before H).
  rewrite !append_length. rewrite <- append_assoc.
  replace (String.length before + 5)%nat
    with (String.length (before +:+ "AUTH ") + 0)%nat
    by (rewrite append_length; simpl; lia).
  rewrite substring_after.
  replace (String.length before + (String.length "AUTH " + String.length rest)
           - (String.length (before +:+ "AUTH ") + 0))%nat
    with (String.length rest) by (rewrite append_length; simpl; lia).
  apply substring_all.
Qed.

(** The lines before the AUTH line, each closed by a line feed. *)
Lemma GetSupportedAuthMethods_loop_skips (iss : string) (earlier : list string) :
  forall fuel,
    Forall (fun line =>
              Forall (fun c => c <> "010"%char) (list_ascii_of_string line)
              /\ index 0 "AUTH " line = None) earlier ->
    GetSupportedAuthMethods_loop (List.length earlier + fuel)
      (fold_right (fun line rest => line +:+ String "010" rest)%string iss earlier)
    = GetSupportedAuthMethods_loop fuel iss.
Proof.
  induction earlier as [|line earlier IH]; intros fuel Hearlier; [reflexivity|].
  apply Forall_cons in Hearlier as [[Hline Hfind] Hearlier].
  cbn [fold_right List.length Nat.add GetSupportedAuthMethods_loop].
  rewrite (getline_line _ _ Hline), Hfind. apply IH. exact Hearlier.
Qed.

Lemma lines_length (iss : string) (earlier : list string) :
  (List.length earlier + String.length iss
   <= String.length
        (fold_right (fun line rest => line +:+ String "010" rest)%string iss earlier))%nat.
Proof.
  induction earlier as [|line earlier IH]; simpl; [lia|].
  rewrite append_length. simpl. lia.
Qed.

Lemma GetSupportedAuthMethods_loop_shape (fuel : nat) : forall iss,
  Forall (fun m => m <> EmptyString
                   /\ Forall (fun c => isspace c = false) (list_ascii_of_string m))
    (GetSupportedAuthMethods_loop fuel iss).
Proof.
  induction fuel as [|fuel IH]; intros iss; simpl; [constructor|].
  destruct (getline iss) as [[line iss']|]; [|constructor].
  destruct (index 0 "AUTH " line); [|apply IH].
  apply extract_methods_shape. constructor.
Qed.

Lemma GetSupportedAuthMethods_loop_none (fuel : nat) : forall iss,
  index 0 "AUTH " iss = None -> GetSupportedAuthMethods_loop fuel iss = [].
Proof.
  induction fuel as [|fuel IH]; intros iss Hnone; simpl; [reflexivity|].
  unfold getline. destruct iss as [|c iss]; [reflexivity|].
  pose proof (up_to_line_feed_parts (String c iss)) as Hparts.
  destruct (up_to_line_feed (String c iss)) as [line rest].
  destruct Hparts as [Hparts _].
  destruct (index 0 "AUTH " line) eqn:Hline.
  - exfalso. destruct Hparts as [[Hparts _]|Hparts]; rewrite Hparts in Hnone.
    + congruence.
    + revert Hnone. apply index_found_app. congruence.
  - apply IH. destruct Hparts as [[_ ->]|Hparts]; [reflexivity|].
    destruct (index 0 "AUTH " rest) eqn:Hrest; [|reflexivity].
    exfalso. rewrite Hparts in Hnone. revert Hnone.
    apply (index_found_later "AUTH " line (String "010" rest)).
    rewrite index_0_cons. rewrite Hrest.
    destruct (String.prefix "AUTH " (String "010" rest)); discriminate.
Qed.

(** The iterations GetSupportedAuthMethods allows are enough: more change
    nothing. *)
Lemma GetSupportedAuthMethods_loop_fuel (fuel1 : nat) : forall fuel2 iss,
  (String.length iss < fuel1)%nat -> (String.length iss < fuel2)%nat ->
  GetSupportedAuthMethods_loop fuel1 iss = GetSupportedAuthMethods_loop fuel2 iss.
Proof.
  induction fuel1 as [|fuel1 IH]; intros [|fuel2] iss H1 H2; try lia.
  cbn [GetSupportedAuthMethods_loop]. unfold getline.
  destruct iss as [|c iss]; [reflexivity|].
  pose proof (up_to_line_feed_parts (String c iss)) as Hparts.
  destruct (up_to_line_feed (String c iss)) as [line rest].
  destruct Hparts as [_ Hlen]. simpl in Hlen, H1, H2.
  destruct (index 0 "AUTH " line); [reflexivity|].
  apply IH; lia.
Qed.

End smtp_ehlo.

(** X16.  Every method GetSupportedAuthMethods returns is a non-empty word
    without white space (no carriage return either), and a reply in which
    AUTH followed by a space does not occur gives no method at all.  The
    loop over the lines ends within the iterations the definition allows:
    with more of them the result is the same. *)
Theorem GetSupportedAuthMethods_words (ehlo_response : string) :
  Forall (fun method =>
            method <> EmptyString
            /\ Forall (fun c => smtp.utils.isspace c = false)
                 (list_ascii_of_string method))
    (smtp.GetSupportedAuthMethods ehlo_response)
  /\ (index 0 "AUTH " ehlo_response = None ->
      smtp.GetSupportedAuthMethods ehlo_response = [])
  /\ (forall fuel,
        (String.length ehlo_response < fuel)%nat ->
        smtp.GetSupportedAuthMethods_loop fuel ehlo_response
        = smtp.GetSupportedAuthMethods ehlo_response).
Proof.
  split; [|split].
  - apply GetSupportedAuthMethods_loop_shape.
  - apply GetSupportedAuthMethods_loop_none.
  - intros fuel Hfuel. apply GetSupportedAuthMethods_loop_fuel; [exact Hfuel|lia].
Qed.

(** X17.  GetSupportedAuthMethods reads the methods off the first line that
    holds AUTH and a space: when the lines before hold none, that line
    holds its first one after [before], and the methods are words set apart
    by single spaces and followed by white space (the carriage return)
    up to the line feed, the result is the list of these words.  Lines
    after that one are not read. *)
Theorem GetSupportedAuthMethods_reads_first_AUTH_line
  (earlier : list string) (before : string) (methods : list string)
  (trailing rest : string) :
  Forall (fun line =>
            Forall (fun c => c <> "010"%char) (list_ascii_of_string line)
            /\ index 0 "AUTH " line = None) earlier ->
  Forall (fun c => c <> "010"%char) (list_ascii_of_string before) ->
  index 0 "AUTH " (before +:+ "AUTH") = None ->
  Forall (fun method =>
            method <> EmptyString
            /\ Forall (fun c => smtp.utils.isspace c = false)
                 (list_ascii_of_string method)) methods ->
  Forall (fun c => smtp.utils.isspace c = true /\ c <> "010"%char)
    (list_ascii_of_string trailing) ->
  smtp.GetSupportedAuthMethods
    (fold_right (fun line rest => line +:+ String "010" rest)%string
       ((before +:+ "AUTH " +:+ String.concat " " methods +:+ trailing)
        +:+ String "010" rest)%string
       earlier)
  = methods.
Proof.
  intros Hearlier Hbefore Hfirst Hmethods Htrailing.
  unfold smtp.GetSupportedAuthMethods.
  set (line := (before +:+ "AUTH " +:+ String.concat " " methods +:+ trailing)%string).
  pose proof (lines_length (line +:+ String "010" rest) earlier) as Hlen.
  rewrite append_length in Hlen. simpl in Hlen.
  match goal with
  | |- smtp.GetSupportedAuthMethods_loop (S ?n) _ = _ =>
      replace (S n)
        with (List.length earlier + S (n - List.length earlier))%nat by lia
  end.
  rewrite (GetSupportedAuthMethods_loop_skips _ _ _ Hearlier).
  cbn [smtp.GetSupportedAuthMethods_loop].
  assert (Forall (fun c => c <> "010"%char) (list_ascii_of_string line)) as Hline.
  { unfold line. rewrite !list_ascii_of_string_app.
    apply Forall_app. split; [exact Hbefore|].
    apply Forall_app. split; [repeat constructor; discriminate|].
    apply Forall_app. split.
    - clear -Hmethods. induction Hmethods as [|m methods [_ Hm] Hmethods IH];
        [constructor|].
      assert (Forall (fun c => c <> "010"%char) (list_ascii_of_string m)) as Hm'.
      { eapply Forall_impl; [exact Hm|]. intros c Hc ->. discriminate. }
      destruct methods as [|m' methods]; [exact Hm'|].
      change (String.concat " " (m :: m' :: methods))
        with (m +:+ " " +:+ String.concat " " (m' :: methods))%string.
      rewrite !list_ascii_of_string_app.
      apply Forall_app. split; [exact Hm'|].
      apply Forall_app. split; [repeat constructor; discriminate|exact IH].
    - eapply Forall_impl; [exact Htrailing|]. intros c [_ Hc]. exact Hc. }
  rewrite (getline_line _ _ Hline).
  pose proof (after_AUTH before (String.concat " " methods +:+ trailing) Hfirst)
    as Hafter.
  cbv zeta in Hafter. fold line in Hafter.
  destruct (index 0 "AUTH " line) as [pos|] eqn:Hpos.
  - rewrite Hafter. apply extract_methods_joined; [exact Hmethods|].
    eapply Forall_impl; [exact Htrailing|]. intros c [Hc _]. exact Hc.
  - exfalso. unfold line in Hpos. rewrite (index_AUTH _ _ Hfirst) in Hpos.
    discriminate.
Qed.

(** A witness for X17: a reply of four lines, the third offering LOGIN and
    PLAIN. *)
Lemma GetSupportedAuthMethods_reads_first_AUTH_line_witness :
  smtp.GetSupportedAuthMethods
    ("250-mail.example.com" +:+ smtp.CRLF
     +:+ "250-STARTTLS" +:+ smtp.CRLF
     +:+ "250-AUTH LOGIN PLAIN" +:+ smtp.CRLF
     +:+ "250 AUTH CRAM-MD5" +:+ smtp.CRLF)%string
  = ["LOGIN"; "PLAIN"]%string.
Proof.
  apply (GetSupportedAuthMethods_reads_first_AUTH_line
           [("250-mail.example.com" +:+ String "013" EmptyString)%string;
            ("250-STARTTLS" +:+ String "013" EmptyString)%string]
           "250-" ["LOGIN"; "PLAIN"]%string
           (String "013" EmptyString)
           ("250 AUTH CRAM-MD5" +:+ smtp.CRLF)%string).
  - repeat constructor; discriminate.
  - repeat constructor; discriminate.
  - reflexivity.
  - repeat constructor; discriminate.
  - repeat constructor; discriminate.
Defined.

(** ** SMTP: the steps of a task *)

Section smtp_execute.
Import smtp.

Variables (retry_count : Z) (use_tls : bool).

(** What one call of Execute can do. *)
Lemma Execute_cases socket_created h t status t' :
  Execute retry_count use_tls socket_created h t = Ok (status, t') ->
  (status = network.SUCCESS /\ state_ t = AUTH_PASSWORD
   /\ ProcessResponse_result h = Ok true /\ t' = set_state AUTH_COMPLETE t)
  \/ (status = network.CONTINUE /\ rank (state_ t') = S (rank (state_ t))
      /\ (rank (state_ t') <= 5)%nat /\ retry_count_ t' = retry_count_ t)
  \/ (status = network.CONTINUE /\ t' = new_task
      /\ retry_count_ t + 1 < retry_count /\ socket_created = true)
  \/ (status = network.ERROR /\ t' = t)
  \/ (status = network.ERROR /\ state_ t' = state_ t
      /\ retry_count_ t' = retry_count_ t + 1
      /\ retry_count <= retry_count_ t + 1).
Proof.
  destruct t as [state retries]. unfold Execute, Execute_try.
  destruct state; cbn [state_ retry_count_];
    repeat match goal with
      | |- context [HandleConnect h] => destruct (HandleConnect h) as [[|]|[]|]
      | |- context [HandleEHLO h] => destruct (HandleEHLO h) as [[|]|[]|]
      | |- context [HandleStartTLS h] => destruct (HandleStartTLS h) as [[|]|[]|]
      | |- context [HandleAuth h] => destruct (HandleAuth h) as [[|]|[]|]
      | |- context [HandleUsername h] => destruct (HandleUsername h) as [[|]|[]|]
      | |- context [HandlePassword h] => destruct (HandlePassword h) as [[|]|[]|]
      | |- context [ProcessResponse_result h] =>
          destruct (ProcessResponse_result h) as [[|]|[]|]
      | |- context [if use_tls then _ else _] => destruct use_tls
      | |- context [decide (?a < ?b)] => destruct (decide (a < b))
      | |- context [Initialize socket_created] =>
          unfold Initialize, SocketTask_Initialize; destruct socket_created
      | _ => progress simpl
      end;
    intros Heq; try discriminate; injection Heq as <- <-;
    unfold set_state, new_task; cbn [state_ retry_count_ rank];
    first
      [ left; repeat split; reflexivity
      | right; left; repeat split; (reflexivity || lia)
      | right; right; left; repeat split; (reflexivity || lia)
      | right; right; right; left; repeat split; reflexivity
      | right; right; right; right; repeat split; (reflexivity || lia) ].
Qed.

(** What holds of a task [n] calls of Execute after Initialize. *)
Lemma Execute_keeps socket_created h t status t' (n : nat) :
  Execute retry_count use_tls socket_created h t = Ok (status, t') ->
  (rank (state_ t) <= Nat.min n 6)%nat ->
  (2 <= retry_count -> retry_count_ t = 0) ->
  (rank (state_ t') <= Nat.min (S n) 6)%nat
  /\ (2 <= retry_count -> retry_count_ t' = 0)
  /\ status <> network.TIMEOUT
  /\ (status = network.SUCCESS -> (5 <= n)%nat).
Proof.
  intros Heq Hrank Hretry. apply Execute_cases in Heq.
  destruct Heq as [(-> & Hs & _ & ->)|[(-> & Hr & Hle & Hc)|[(-> & -> & _)|
                   [(-> & ->)|(-> & Hs & Hc & Hge)]]]];
    cbn [set_state state_ retry_count_ rank new_task] in *.
  - rewrite Hs in Hrank. simpl in Hrank. repeat split; first [lia|discriminate].
  - repeat split; first [lia|discriminate].
  - repeat split; first [lia|discriminate].
  - repeat split; first [lia|discriminate].
  - rewrite Hs. repeat split; first [lia|discriminate].
Qed.

End smtp_execute.

(** X18.  Execute returns SUCCESS only in the state AUTH_PASSWORD, when
    ProcessResponse returned true; it leaves the state AUTH_COMPLETE and
    the retry counter as it was.  From then on every call of Execute
    returns ERROR, whatever the handlers would do, and changes nothing. *)
Theorem Execute_SUCCESS_ends_the_task
  (retry_count : Z) (use_tls socket_created : bool) (h : smtp.handlers)
  (t t' : smtp.SMTPBruteForceTask) :
  smtp.Execute retry_count use_tls socket_created h t = Ok (network.SUCCESS, t') ->
  smtp.state_ t = smtp.AUTH_PASSWORD
  /\ smtp.ProcessResponse_result h = Ok true
  /\ smtp.state_ t' = smtp.AUTH_COMPLETE
  /\ smtp.retry_count_ t' = smtp.retry_count_ t
  /\ forall retry_count' use_tls' socket_created' h',
       smtp.Execute retry_count' use_tls' socket_created' h' t'
       = Ok (network.ERROR, t').
Proof.
  intros Heq. apply Execute_cases in Heq.
  destruct Heq as [(_ & Hs & Hp & ->)|[(H & _)|[(H & _)|[(H & _)|(H & _)]]]];
    try discriminate.
  split; [exact Hs|]. split; [exact Hp|]. split; [reflexivity|].
  split; [reflexivity|]. intros. reflexivity.
Qed.

(** A witness for X18: the server accepts the password. *)
Lemma Execute_SUCCESS_ends_the_task_witness :
  let h := {| smtp.HandleConnect := Ok true; smtp.HandleEHLO := Ok true;
              smtp.HandleStartTLS := Ok true; smtp.HandleAuth := Ok true;
              smtp.HandleUsername := Ok true; smtp.HandlePassword := Ok true;
              smtp.ProcessResponse_result := Ok true |} in
  let t := {| smtp.state_ := smtp.AUTH_PASSWORD; smtp.retry_count_ := 0 |} in
  let t' := {| smtp.state_ := smtp.AUTH_COMPLETE; smtp.retry_count_ := 0 |} in
  smtp.state_ t = smtp.AUTH_PASSWORD
  /\ smtp.ProcessResponse_result h = Ok true
  /\ smtp.state_ t' = smtp.AUTH_COMPLETE
  /\ smtp.retry_count_ t' = smtp.retry_count_ t
  /\ forall retry_count' use_tls' socket_created' h',
       smtp.Execute retry_count' use_tls' socket_created' h' t'
       = Ok (network.ERROR, t').
Proof.
  intros h t t'.
  apply (Execute_SUCCESS_ends_the_task 3 false true h t t'). reflexivity.
Defined.

(** X19.  The first Execute after Initialize calls HandleConnect and no
    other handler: its result is the same whatever the others would do.  It
    never returns SUCCESS, and when HandleConnect returns true it returns
    CONTINUE in the state CONNECTED. *)
Theorem first_Execute_only_connects
  (retry_count : Z) (use_tls socket_created0 socket_created : bool)
  (t0 t : smtp.SMTPBruteForceTask) (h : smtp.handlers) :
  smtp.Initialize socket_created0 t0 = Ok (true, t) ->
  (forall h',
     smtp.HandleConnect h' = smtp.HandleConnect h ->
     smtp.Execute retry_count use_tls socket_created h' t
     = smtp.Execute retry_count use_tls socket_created h t)
  /\ (forall t',
        smtp.Execute retry_count use_tls socket_created h t
        <> Ok (network.SUCCESS, t'))
  /\ (smtp.HandleConnect h = Ok true ->
      smtp.Execute retry_count use_tls socket_created h t
      = Ok (network.CONTINUE,
            {| smtp.state_ := smtp.CONNECTED; smtp.retry_count_ := 0 |})).
Proof.
  unfold smtp.Initialize, smtp.SocketTask_Initialize.
  destruct socket_created0; simpl; [|discriminate]. intros [= <-].
  split; [|split].
  - intros h' Hh. unfold smtp.Execute, smtp.Execute_try. simpl. rewrite Hh.
    reflexivity.
  - intros t' Heq. apply Execute_cases in Heq.
    destruct Heq as [(_ & Hs & _)|[(H & _)|[(H & _)|[(H & _)|(H & _)]]]];
      discriminate.
  - intros Hh. unfold smtp.Execute, smtp.Execute_try. simpl. rewrite Hh.
    reflexivity.
Qed.

(** A witness for X19: a fresh task, a server that greets. *)
Lemma first_Execute_only_connects_witness :
  let h := {| smtp.HandleConnect := Ok true; smtp.HandleEHLO := Ok true;
              smtp.HandleStartTLS := Ok true; smtp.HandleAuth := Ok true;
              smtp.HandleUsername := Ok true; smtp.HandlePassword := Ok true;
              smtp.ProcessResponse_result := Ok true |} in
  (forall h',
     smtp.HandleConnect h' = smtp.HandleConnect h ->
     smtp.Execute 3 false true h' smtp.new_task
     = smtp.Execute 3 false true h smtp.new_task)
  /\ (forall t',
        smtp.Execute 3 false true h smtp.new_task <> Ok (network.SUCCESS, t'))
  /\ (smtp.HandleConnect h = Ok true ->
      smtp.Execute 3 false true h smtp.new_task
      = Ok (network.CONTINUE,
            {| smtp.state_ := smtp.CONNECTED; smtp.retry_count_ := 0 |})).
Proof.
  intros h.
  apply (first_Execute_only_connects 3 false true true smtp.new_task smtp.new_task h).
  reflexivity.
Defined.

Section orchestrator_tasks.
Import smtp.



End orchestrator_tasks.


Section smtp_execute_all.
Import smtp.

Variables (retry_count : Z) (use_tls : bool).

Lemma Execute_all_keeps (calls : list (handlers * bool)) :
  forall (n : nat) t statuses t',
    Execute_all retry_count use_tls calls t = Ok (statuses, t') ->
    (rank (state_ t) <= Nat.min n 6)%nat ->
    (2 <= retry_count -> retry_count_ t = 0) ->
    List.length statuses = List.length calls
    /\ (rank (state_ t') <= Nat.min (n + List.length calls) 6)%nat
    /\ (2 <= retry_count -> retry_count_ t' = 0)
    /\ (network.TIMEOUT ∉ statuses)
    /\ (forall i, statuses !! i = Some network.SUCCESS -> (5 <= n + i)%nat).
Proof.
  induction calls as [|[h socket_created] calls IH];
    intros n t statuses t' Heq Hrank Hretry.
  - simpl in Heq. injection Heq as <- <-. simpl.
    split; [reflexivity|]. split; [lia|]. split; [exact Hretry|].
    split; [apply not_elem_of_nil|]. intros i Hi. rewrite lookup_nil in Hi.
    discriminate.
  - cbn [Execute_all] in Heq.
    destruct (Execute retry_count use_tls socket_created h t)
      as [[status t1]|e|i] eqn:Hstep; try discriminate.
    simpl in Heq.
    destruct (Execute_all retry_count use_tls calls t1)
      as [[statuses1 t2]|e|i] eqn:Hrest; try discriminate.
    simpl in Heq. injection Heq as <- <-.
    destruct (Execute_keeps _ _ _ _ _ _ _ n Hstep Hrank Hretry)
      as (Hrank1 & Hretry1 & Htimeout & Hsuccess).
    destruct (IH (S n) _ _ _ Hrest Hrank1 Hretry1)
      as (Hlen & Hrank2 & Hretry2 & Htimeouts & Hsuccesses).
    simpl. split; [lia|]. split; [replace (n + S (List.length calls))%nat
                                    with (S n + List.length calls)%nat by lia;
                                  exact Hrank2|].
    split; [exact Hretry2|]. split.
    + intros Hin. apply elem_of_cons in Hin as [Hin|Hin]; [by apply Htimeout|].
      by apply Htimeouts.
    + intros [|i] Hi; simpl in Hi.
      * injection Hi as ->. specialize (Hsuccess eq_refl). lia.
      * specialize (Hsuccesses i Hi). lia.
Qed.

End smtp_execute_all.

(** X20.  Of the calls of Execute that follow Initialize: every call
    returns SUCCESS, CONTINUE or ERROR, never TIMEOUT; SUCCESS is returned
    by the sixth call at the earliest; the state ERROR is never entered;
    and when the configured retry count is 2 or more, the retry counter is
    0 after every call. *)
Theorem Execute_all_after_Initialize
  (retry_count : Z) (use_tls socket_created0 : bool)
  (calls : list (smtp.handlers * bool))
  (t0 t t' : smtp.SMTPBruteForceTask) (statuses : list network.TaskStatus) :
  smtp.Initialize socket_created0 t0 = Ok (true, t) ->
  smtp.Execute_all retry_count use_tls calls t = Ok (statuses, t') ->
  List.length statuses = List.length calls
  /\ (network.TIMEOUT ∉ statuses)
  /\ (forall i, statuses !! i = Some network.SUCCESS -> (5 <= i)%nat)
  /\ smtp.state_ t' <> smtp.ERROR
  /\ (2 <= retry_count -> smtp.retry_count_ t' = 0).
Proof.
  unfold smtp.Initialize, smtp.SocketTask_Initialize.
  destruct socket_created0; simpl; [|discriminate]. intros [= <-] Heq.
  destruct (Execute_all_keeps retry_count use_tls calls 0 _ _ _ Heq)
    as (Hlen & Hrank & Hretry & Htimeout & Hsuccess); simpl; try lia; auto.
  split; [exact Hlen|]. split; [exact Htimeout|]. split; [exact Hsuccess|].
  split; [|exact Hretry].
  intros Hs. rewrite Hs in Hrank. simpl in Hrank. lia.
Qed.

(** A witness for X20: six calls against a server that accepts
    everything. *)
Lemma Execute_all_after_Initialize_witness :
  let statuses :=
    [network.CONTINUE; network.CONTINUE; network.CONTINUE; network.CONTINUE;
     network.CONTINUE; network.SUCCESS] in
  let t' := {| smtp.state_ := smtp.AUTH_COMPLETE; smtp.retry_count_ := 0 |} in
  List.length statuses = 6%nat
  /\ (network.TIMEOUT ∉ statuses)
  /\ (forall i, statuses !! i = Some network.SUCCESS -> (5 <= i)%nat)
  /\ smtp.state_ t' <> smtp.ERROR
  /\ (2 <= 3 -> smtp.retry_count_ t' = 0).
Proof.
  intros statuses t'.
  pose (h := {| smtp.HandleConnect := Ok true; smtp.HandleEHLO := Ok true;
                smtp.HandleStartTLS := Ok true; smtp.HandleAuth := Ok true;
                smtp.HandleUsername := Ok true; smtp.HandlePassword := Ok true;
                smtp.ProcessResponse_result := Ok true |}).
  apply (Execute_all_after_Initialize 3 false true (replicate 6 (h, true))
           smtp.new_task smtp.new_task t' statuses); reflexivity.
Defined.

(** X21.  The handler of Execute calls Initialize, which sets the retry
    counter back to 0; so with a configured retry count of 2 or more the
    limit is never reached: a task whose connection attempt fails with an
    SMTPException at every call returns CONTINUE at every call, without
    end.  With a retry count of 1 or less the first such call returns
    ERROR. *)
Theorem retry_limit_is_never_reached
  (retry_count : Z) (use_tls : bool) (calls : list (smtp.handlers * bool)) :
  Forall (fun call => (exists what,
                         smtp.HandleConnect call.1
                         = Throw (smtp.SMTPException what))
                      /\ call.2 = true) calls ->
  (2 <= retry_count ->
   smtp.Execute_all retry_count use_tls calls smtp.new_task
   = Ok (replicate (List.length calls) network.CONTINUE, smtp.new_task))
  /\ (retry_count <= 1 ->
      forall call, calls !! 0%nat = Some call ->
        smtp.Execute retry_count use_tls call.2 call.1 smtp.new_task
        = Ok (network.ERROR,
              {| smtp.state_ := smtp.INIT; smtp.retry_count_ := 1 |})).
Proof.
  intros Hcalls. split.
  - intros Hretry. induction Hcalls as [|[h s] calls [[what Hh] Hs] _ IH];
      [reflexivity|].
    simpl in Hh, Hs. subst s. cbn [smtp.Execute_all].
    assert (smtp.Execute retry_count use_tls true h smtp.new_task
            = Ok (network.CONTINUE, smtp.new_task)) as ->.
    { unfold smtp.Execute, smtp.Execute_try. simpl. rewrite Hh. simpl.
      rewrite decide_True by lia. reflexivity. }
    simpl. rewrite IH. reflexivity.
  - intros Hretry [h s] Hcall.
    destruct Hcalls as [|[h' s'] calls [[what Hh] Hs] _]; [discriminate|].
    simpl in Hcall. injection Hcall as -> ->. simpl in *.
    unfold smtp.Execute, smtp.Execute_try. simpl. rewrite Hh. simpl.
    rewrite decide_False by lia. reflexivity.
Qed.

(** A witness for X21: three refused connections in a row. *)
Lemma retry_limit_is_never_reached_witness :
  let h := {| smtp.HandleConnect :=
                Throw (smtp.SMTPException "Failed to connect to SMTP server");
              smtp.HandleEHLO := Ok true;
              smtp.HandleStartTLS := Ok true; smtp.HandleAuth := Ok true;
              smtp.HandleUsername := Ok true; smtp.HandlePassword := Ok true;
              smtp.ProcessResponse_result := Ok true |} in
  (2 <= 3 ->
   smtp.Execute_all 3 false (replicate 3 (h, true)) smtp.new_task
   = Ok (replicate 3 network.CONTINUE, smtp.new_task))
  /\ (3 <= 1 ->
      forall call, replicate 3 (h, true) !! 0%nat = Some call ->
        smtp.Execute 3 false call.2 call.1 smtp.new_task
        = Ok (network.ERROR,
              {| smtp.state_ := smtp.INIT; smtp.retry_count_ := 1 |})).
Proof.
  intros h.
  apply (retry_limit_is_never_reached 3 false (replicate 3 (h, true))).
  do 3 (constructor; [split; [eexists; reflexivity|reflexivity]|]).
  constructor.
Defined.

(** ** The orchestrator: the attempts counter and the stop request *)

Section orchestrator_counters.
Import smtp.

Lemma WorkerThread_step_counts w task_success f f' :
  WorkerThread_step w task_success f = Ok f' ->
  attempts_count_ f = List.length (probed f) ->
  attempts_count_ f' = List.length (probed f').
Proof.
  unfold WorkerThread_step.
  destruct (worker_threads_ f !! w) as [[| |username password|]|].
  - destruct (stop_requested_ f); intros [= <-]; auto.
  - destruct (GetNextCredentials f) as [[[username password] f1]|e|i] eqn:Hnext;
      try discriminate.
    apply GetNextCredentials_frame in Hnext as (_ & _ & Hcount & _ & Hprobed).
    simpl. destruct (_ && _); intros [= <-]; simpl; congruence.
  - intros [= <-] Hcount. simpl. rewrite length_app. simpl. lia.
  - intros [= <-]. auto.
  - intros [= <-]. auto.
Qed.

Lemma run_counts schedule : forall f f',
  run schedule f = Ok f' ->
  attempts_count_ f = List.length (probed f) ->
  attempts_count_ f' = List.length (probed f').
Proof.
  induction schedule as [|[w b] schedule IH]; intros f f'; simpl.
  - intros [= <-]. auto.
  - destruct (WorkerThread_step w b f) as [f1|e|i] eqn:Hstep; try discriminate.
    simpl. intros Hrun Hcount. apply (IH _ _ Hrun).
    apply (WorkerThread_step_counts _ _ _ _ Hstep Hcount).
Qed.

Lemma in_flight_insert (workers : list worker) : forall w old new,
  workers !! w = Some old ->
  (in_flight (<[w := new]> workers) + flying old
   = in_flight workers + flying new)%nat.
Proof.
  induction workers as [|x workers IH]; intros [|w] old new Hw; try discriminate.
  - simpl in Hw. injection Hw as ->. destruct old, new; simpl; lia.
  - simpl in Hw. specialize (IH w old new Hw).
    change (<[S w := new]> (x :: workers)) with (x :: <[w := new]> workers).
    destruct x; simpl; lia.
Qed.

Lemma in_flight_le (workers : list worker) :
  (in_flight workers <= List.length workers)%nat.
Proof. induction workers as [|[] workers IH]; simpl; lia. Qed.

Lemma WorkerThread_step_stopping w task_success f f' :
  WorkerThread_step w task_success f = Ok f' ->
  stop_requested_ f = true ->
  stop_requested_ f' = true
  /\ (List.length (probed f') + in_flight (worker_threads_ f')
      <= List.length (probed f) + in_flight (worker_threads_ f))%nat
  /\ List.length (worker_threads_ f') = List.length (worker_threads_ f).
Proof.
  unfold WorkerThread_step.
  destruct (worker_threads_ f !! w) as [[| |username password|]|] eqn:Hw.
  - intros Heq Hstop. rewrite Hstop in Heq. injection Heq as <-. simpl.
    pose proof (in_flight_insert _ _ _ Exited Hw). simpl in *.
    rewrite length_insert. auto with lia.
  - destruct (GetNextCredentials f) as [[[username password] f1]|e|i] eqn:Hnext;
      try discriminate.
    apply GetNextCredentials_frame in Hnext as (_ & Hstop1 & _ & Hworkers & Hprobed).
    simpl. rewrite <- Hworkers, <- Hprobed, <- Hstop1. rewrite <- Hworkers in Hw.
    destruct (_ && _); intros [= <-] Hstop; simpl; rewrite length_insert.
    + pose proof (in_flight_insert _ _ _ Exited Hw). simpl in *. auto with lia.
    + pose proof (in_flight_insert _ _ _ (Busy username password) Hw).
      simpl in *. auto with lia.
  - intros [= <-] Hstop. simpl. rewrite length_app, length_insert. simpl.
    pose proof (in_flight_insert _ _ _ Idle Hw). simpl in *.
    split; [destruct (_ && _); auto|]. split; lia.
  - intros [= <-]. auto.
  - intros [= <-]. auto.
Qed.

Lemma run_stopping schedule : forall f f',
  run schedule f = Ok f' ->
  stop_requested_ f = true ->
  stop_requested_ f' = true
  /\ (List.length (probed f') + in_flight (worker_threads_ f')
      <= List.length (probed f) + in_flight (worker_threads_ f))%nat
  /\ List.length (worker_threads_ f') = List.length (worker_threads_ f).
Proof.
  induction schedule as [|[w b] schedule IH]; intros f f'; simpl.
  - intros [= <-]. auto.
  - destruct (WorkerThread_step w b f) as [f1|e|i] eqn:Hstep; try discriminate.
    simpl. intros Hrun Hstop.
    destruct (WorkerThread_step_stopping _ _ _ _ Hstep Hstop) as (Hstop1 & Hle1 & Hlen1).
    destruct (IH _ _ Hrun Hstop1) as (Hstop2 & Hle2 & Hlen2).
    split; [exact Hstop2|]. split; lia.
Qed.

End orchestrator_counters.

(** X22.  The attempts counter counts the tasks that have run: in every
    state of every run it is the number of pairs probed.  When the password
    list is not empty and the empty string is not both a username and a
    password, the counter plus the number of tasks under way never exceeds
    the number of pairs, usernames times passwords: the progress callback
    is never told of more attempts than the total it is told. *)
Theorem attempts_count_within_total
  (params : smtp.BruteForceParams) (schedule : list (nat * bool))
  (f : smtp.SMTPBruteForcer) :
  smtp.run schedule (smtp.Start params) = Ok f ->
  smtp.attempts_count_ f = List.length (smtp.probed f)
  /\ (smtp.passwords params <> [] ->
      ~ (EmptyString ∈ smtp.usernames params /\ EmptyString ∈ smtp.passwords params) ->
      (smtp.attempts_count_ f + List.length (smtp.busy_pairs (smtp.worker_threads_ f))
       <= List.length (smtp.usernames params) * List.length (smtp.passwords params))%nat).
Proof.
  intros Hrun.
  assert (smtp.attempts_count_ f = List.length (smtp.probed f)) as Hcount
    by (apply (run_counts _ _ _ Hrun); reflexivity).
  split; [exact Hcount|]. intros Hpass Hempty.
  destruct (Start_consistent params Hpass) as [Hc He].
  destruct (run_consistent params Hempty schedule _ Hc He) as (f' & Hrun' & Hc' & _).
  rewrite Hrun in Hrun'. injection Hrun' as <-.
  destruct (smtp.consistent_handed _ _ Hc') as (handed & Hprod & Hperm).
  apply (f_equal (@List.length _)) in Hprod.
  rewrite length_app, length_prod in Hprod.
  apply Permutation_length in Hperm. rewrite length_app in Hperm.
  rewrite Hcount. lia.
Qed.

(** A witness for X22: two workers, two users and two passwords; one task
    has run and one is under way. *)
Lemma attempts_count_within_total_witness :
  exists f,
    smtp.run [(0, false); (0, false); (1, false); (1, false); (0, false)]%nat
      (smtp.Start {| smtp.usernames := ["alice"; "bob"]%string;
                     smtp.passwords := ["one"; "two"]%string;
                     smtp.max_concurrent_connections := 2;
                     smtp.stop_on_success := true |}) = Ok f
    /\ smtp.attempts_count_ f = List.length (smtp.probed f)
    /\ (smtp.attempts_count_ f
        + List.length (smtp.busy_pairs (smtp.worker_threads_ f)) <= 2 * 2)%nat.
Proof.
  eexists. split; [vm_compute; reflexivity|].
  match goal with
  | |- smtp.attempts_count_ ?f = _ /\ _ =>
      destruct (attempts_count_within_total
                  {| smtp.usernames := ["alice"; "bob"]%string;
                     smtp.passwords := ["one"; "two"]%string;
                     smtp.max_concurrent_connections := 2;
                     smtp.stop_on_success := true |}
                  [(0, false); (0, false); (1, false); (1, false); (0, false)]%nat
                  f) as [Hcount Htotal]; [vm_compute; reflexivity|]
  end.
  split; [exact Hcount|]. apply Htotal.
  - discriminate.
  - intros [Hu _]. simpl in Hu.
    apply elem_of_cons in Hu as [Hu|Hu]; [discriminate|].
    apply elem_of_cons in Hu as [Hu|Hu]; [discriminate|].
    by apply elem_of_nil in Hu.
Defined.

(** X23.  A stop request is never taken back by the workers, and once it
    is made each worker that is past the test of the flag finishes at most
    the one task it is drawing or running: the pairs probed from then on
    are at most as many as the workers in flight at that moment, whatever
    the schedule, and so at most as many as there are workers. *)
Theorem stop_request_bounds_further_probes
  (schedule : list (nat * bool)) (f f' : smtp.SMTPBruteForcer) :
  smtp.stop_requested_ f = true ->
  smtp.run schedule f = Ok f' ->
  smtp.stop_requested_ f' = true
  /\ (List.length (smtp.probed f') + smtp.in_flight (smtp.worker_threads_ f')
      <= List.length (smtp.probed f) + smtp.in_flight (smtp.worker_threads_ f))%nat
  /\ (List.length (smtp.probed f')
      <= List.length (smtp.probed f) + List.length (smtp.worker_threads_ f))%nat.
Proof.
  intros Hstop Hrun.
  destruct (run_stopping _ _ _ Hrun Hstop) as (Hstop' & Hle & _).
  split; [exact Hstop'|]. split; [exact Hle|].
  pose proof (in_flight_le (smtp.worker_threads_ f)). lia.
Qed.

(** A witness for X23: the stop flag is set while one worker runs a task
    and the other is at the top of its loop. *)
Lemma stop_request_bounds_further_probes_witness :
  let f := {| smtp.params_ := {| smtp.usernames := ["alice"; "bob"]%string;
                                 smtp.passwords := ["one"; "two"]%string;
                                 smtp.max_concurrent_connections := 2;
                                 smtp.stop_on_success := true |};
              smtp.stop_requested_ := true;
              smtp.attempts_count_ := 1;
              smtp.current_user_index_ := 1;
              smtp.current_pass_index_ := 0;
              smtp.worker_threads_ := [smtp.Busy "alice" "two"; smtp.Idle];
              smtp.probed := [("alice", "one")]%string |} in
  exists f',
    smtp.run [(1, false); (0, false); (0, false); (1, false)]%nat f = Ok f'
    /\ smtp.stop_requested_ f' = true
    /\ (List.length (smtp.probed f') + smtp.in_flight (smtp.worker_threads_ f')
        <= 1 + 1)%nat
    /\ (List.length (smtp.probed f') <= 1 + 2)%nat.
Proof.
  intros f. eexists. split; [vm_compute; reflexivity|].
  match goal with
  | |- smtp.stop_requested_ ?f' = _ /\ _ =>
      apply (stop_request_bounds_further_probes
               [(1, false); (0, false); (0, false); (1, false)]%nat f f');
        vm_compute; reflexivity
  end.
Defined.

(** ** Base64: more on Encode, the alphabet, IsValid and DecodeBytes *)

Section base64_more.
Import Base64.

Lemma encode_groups_app (s1 s2 : list byte) :
  (List.length s1 mod 3 = 0)%nat ->
  encode_groups (s1 ++ s2) = encode_groups s1 ++ encode_groups s2.
Proof.
  induction s1 as [|a|a b|a b c s1 IH] using list_ind3; intros Hlen;
    try reflexivity; try discriminate.
  change ((a :: b :: c :: s1) ++ s2) with (a :: b :: c :: (s1 ++ s2)).
  cbn [encode_groups]. rewrite <- app_assoc. f_equal. apply IH.
  change (List.length (a :: b :: c :: s1)) with (3 + List.length s1)%nat in Hlen.
  replace (3 + List.length s1)%nat
    with (List.length s1 + 1 * 3)%nat in Hlen by lia.
  rewrite Nat.Div0.mod_add in Hlen. exact Hlen.
Qed.

Lemma encode_groups_no_space (input : list byte) :
  Forall (fun c => isspace c = false) (encode_groups input).
Proof.
  eapply Forall_impl; [apply encode_groups_alphabet|].
  intros c [Hc| ->]; [|reflexivity].
  apply list_elem_of_lookup in Hc as [n Hn].
  assert (n < 64)%nat as Hlt by (apply lookup_lt_Some in Hn; exact Hn).
  destruct (alphabet (Z.of_nat n)) as (_ & Hsp & _ & _); [lia|].
  unfold encoding_at in Hsp. rewrite Nat2Z.id, Hn in Hsp. exact Hsp.
Qed.

(** The decoding table holds 0xFF or the index of its position in the
    alphabet. *)
Lemma decoding_table_check :
  forallb (fun n =>
    match decoding_table !! n with
    | Some v =>
        (v =? 0xFF)
        || ((0 <=? v) && (v <? 64)
            && bool_decide (byte_val (encoding_at v) = Z.of_nat n))
    | None => false
    end) (seq 0 256) = true.
Proof. vm_compute. reflexivity. Qed.

Lemma decoding_at_cases (c : byte) :
  decoding_at c = 0xFF
  \/ (0 <= decoding_at c < 64 /\ encoding_at (decoding_at c) = c).
Proof.
  pose proof decoding_table_check as H. rewrite forallb_forall in H.
  pose proof (byte_val_range c) as Hc.
  specialize (H (Z.to_nat (byte_val c))).
  assert (In (Z.to_nat (byte_val c)) (seq 0 256)) as Hin by (apply in_seq; lia).
  apply H in Hin. unfold decoding_at.
  destruct (decoding_table !! Z.to_nat (byte_val c)) as [v|]; [|discriminate].
  simpl. apply orb_true_iff in Hin as [Hin|Hin]; [left; lia|right].
  apply andb_true_iff in Hin as [Hin Hv]. apply bool_decide_eq_true in Hv.
  split; [lia|]. rewrite Z2Nat.id in Hv by lia.
  rewrite <- (byte_of_Z_val (encoding_at v)), Hv. apply byte_of_Z_val.
Qed.

End base64_more.

(** X24.  Encode works group by group: when the first part has a length
    divisible by 3, the encoding of two parts put together is the two
    encodings put together. *)
Theorem Encode_app (s1 s2 : list byte) :
  (List.length s1 mod 3 = 0)%nat ->
  Base64.Encode (s1 ++ s2) = Base64.Encode s1 ++ Base64.Encode s2.
Proof.
  intros Hlen. rewrite !Encode_groups. apply encode_groups_app. exact Hlen.
Qed.

(** A witness for X24: "foo" and "bar". *)
Lemma Encode_app_witness :
  Base64.Encode (list_byte_of_string "foo" ++ list_byte_of_string "bar")
  = Base64.Encode (list_byte_of_string "foo")
    ++ Base64.Encode (list_byte_of_string "bar").
Proof.
  apply (Encode_app (list_byte_of_string "foo") (list_byte_of_string "bar")).
  reflexivity.
Defined.

(** X25.  What Encode returns passes IsValid and holds no white space; the
    number of '=' that DecodeBytes counts at its end is the number of bytes
    missing from the last group of three. *)
Theorem Encode_is_valid (s : list byte) :
  Base64.IsValid (Base64.Encode s) = true
  /\ Forall (fun c => Base64.isspace c = false) (Base64.Encode s)
  /\ Base64.count_padding (Base64.Encode s)
     = (3 * ((List.length s + 2) / 3) - List.length s)%nat.
Proof.
  rewrite Encode_groups. split; [apply IsValid_groups|].
  split; [apply encode_groups_no_space|].
  pose proof (capacity_groups s) as Hcap.
  pose proof (count_padding_le (Base64.encode_groups s)) as Hle.
  rewrite encode_groups_length in Hcap.
  rewrite (Nat.mul_comm 4), Nat.div_mul in Hcap by lia.
  destruct s as [|a s]; [reflexivity|].
  cbn [List.length] in *. lia.
Qed.

(** X26.  DecodeByte gives 0xFF, or the place below 64 that the character
    has in the alphabet, at which EncodeByte gives the character back;
    DecodeByte after EncodeByte gives the low six bits of the byte
    encoded. *)
Theorem DecodeByte_EncodeByte :
  (forall b, Base64.DecodeByte (Base64.EncodeByte b) = Z.land b 0x3F)
  /\ (forall c,
        Base64.DecodeByte c = 0xFF
        \/ (0 <= Base64.DecodeByte c < 64
            /\ Base64.EncodeByte (Base64.DecodeByte c) = c))
  /\ (forall c, Base64.DecodeByte c <> 0xFF <-> c ∈ Base64.encoding_table).
Proof.
  split; [|split].
  - intros b. unfold Base64.DecodeByte, Base64.EncodeByte.
    apply (alphabet _ (land_63_range b)).
  - intros c. unfold Base64.DecodeByte, Base64.EncodeByte.
    destruct (decoding_at_cases c) as [H|[H1 H2]]; [left; exact H|right].
    split; [exact H1|]. rewrite land_63, Z.mod_small by lia. exact H2.
  - intros c. unfold Base64.DecodeByte. split.
    + intros Hne. destruct (decoding_at_cases c) as [H|[H1 H2]]; [contradiction|].
      rewrite <- H2. apply (alphabet _ H1).
    + intros Hin Heq. apply list_elem_of_lookup in Hin as [n Hn].
      assert (n < 64)%nat as Hlt by (apply lookup_lt_Some in Hn; exact Hn).
      destruct (alphabet (Z.of_nat n)) as (_ & _ & Hdec & _); [lia|].
      unfold Base64.encoding_at in Hdec. rewrite Nat2Z.id, Hn in Hdec.
      simpl in Hdec. lia.
Qed.

Section base64_valid.
Import Base64.

Lemma decoding_at_alphabet (c : byte) :
  decoding_at c <> 0xFF <-> c ∈ encoding_table.
Proof.
  split.
  - intros Hne. destruct (decoding_at_cases c) as [H|[H1 H2]]; [contradiction|].
    rewrite <- H2. apply (alphabet _ H1).
  - intros Hin Heq. apply list_elem_of_lookup in Hin as [n Hn].
    assert (n < 64)%nat as Hlt by (apply lookup_lt_Some in Hn; exact Hn).
    destruct (alphabet (Z.of_nat n)) as (_ & _ & Hdec & _); [lia|].
    unfold encoding_at in Hdec. rewrite Nat2Z.id, Hn in Hdec.
    simpl in Hdec. lia.
Qed.

(** The loop of IsValid once a '=' was seen. *)
Lemma IsValid_loop_padding (length : nat) (input : list byte) : forall i padding,
  (1 <= padding <= 2)%nat ->
  (i + List.length input = length)%nat ->
  IsValid_loop length input i padding = true
  <-> input = replicate (List.length input) "="%byte
      /\ (padding + List.length input <= 2)%nat.
Proof.
  induction input as [|c input IH]; intros i padding Hp Hlen; simpl in *.
  - split; [intros _; split; [reflexivity|lia]|reflexivity].
  - destruct (decide (c = "="%byte)) as [->|Hc].
    + destruct (decide (2 < S padding)%nat) as [H2|H2].
      { split; [discriminate|]. intros [_ H]. lia. }
      destruct (decide (i < length - 2)%nat) as [Hi|Hi].
      { split; [discriminate|]. intros [_ H]. lia. }
      rewrite (IH (S i) (S padding)) by lia.
      split; intros [Heq Hle]; (split; [|lia]).
      * by rewrite <- Heq.
      * by injection Heq.
    + rewrite decide_True by lia.
      split; [discriminate|]. intros [[= H] _]. contradiction.
Qed.

(** The loop of IsValid before any '='. *)
Lemma IsValid_loop_body (length : nat) (input : list byte) : forall i,
  (i + List.length input = length)%nat ->
  IsValid_loop length input i 0 = true
  <-> exists body k,
        (k <= 2)%nat /\ input = body ++ replicate k "="%byte
        /\ Forall body_char body.
Proof.
  induction input as [|c input IH]; intros i Hlen; simpl in *.
  - split; [|reflexivity]. intros _. exists [], 0%nat.
    split; [lia|]. split; [reflexivity|constructor].
  - destruct (decide (c = "="%byte)) as [->|Hc].
    + assert ((exists body k,
                 (k <= 2)%nat /\ "="%byte :: input = body ++ replicate k "="%byte
                 /\ Forall body_char body)
              <-> input = replicate (List.length input) "="%byte
                  /\ (1 + List.length input <= 2)%nat) as ->.
      { split.
        - intros (body & k & Hk & Heq & Hbody).
          destruct body as [|b body].
          + simpl in Heq. destruct k as [|k]; [discriminate|].
            simpl in Heq. injection Heq as ->. rewrite length_replicate.
            split; [reflexivity|lia].
          + apply Forall_cons in Hbody as [[Hb _] _].
            simpl in Heq. injection Heq as <- _. contradiction.
        - intros [Heq Hle]. exists [], (S (List.length input)).
          split; [lia|]. split; [|constructor]. simpl. by rewrite <- Heq. }
      destruct (decide (i < length - 2)%nat) as [Hi|Hi].
      { split; [discriminate|]. intros [_ H]. lia. }
      apply IsValid_loop_padding; lia.
    + assert ((exists body k,
                 (k <= 2)%nat /\ c :: input = body ++ replicate k "="%byte
                 /\ Forall body_char body)
              <-> (isspace c = true \/ c ∈ encoding_table)
                  /\ exists body k,
                       (k <= 2)%nat /\ input = body ++ replicate k "="%byte
                       /\ Forall body_char body) as ->.
      { split.
        - intros (body & k & Hk & Heq & Hbody).
          destruct body as [|b body].
          + simpl in Heq. destruct k as [|k]; [discriminate|].
            simpl in Heq. injection Heq as -> _. contradiction.
          + simpl in Heq. injection Heq as <- ->.
            apply Forall_cons in Hbody as [[_ Hb] Hbody].
            split; [exact Hb|]. exists body, k. auto.
        - intros (Hb & body & k & Hk & -> & Hbody).
          exists (c :: body), k. split; [exact Hk|]. split; [reflexivity|].
          constructor; [split; assumption|exact Hbody]. }
      rewrite <- (IH (S i)) by lia.
      destruct (isspace c) eqn:Hsp; simpl.
      * split; [intros H; split; [left; reflexivity|exact H]|intros [_ H]; exact H].
      * destruct (decoding_at c =? 255) eqn:Hdec.
        -- split; [discriminate|]. intros [[H|H] _]; [discriminate|].
           apply decoding_at_alphabet in H. lia.
        -- split; [|intros [_ H]; exact H]. intros H. split; [|exact H].
           right. apply decoding_at_alphabet. lia.
Qed.

End base64_valid.

(** X27.  IsValid accepts the empty string, and otherwise exactly the
    strings whose length is divisible by 4 and that are made of characters
    of the alphabet and white space, in any number and order, followed by
    at most two '='.  It does not ask that four characters other than white
    space make a group, nor that the padding fits the length. *)
Theorem IsValid_accepts (input : list byte) :
  Base64.IsValid input = true
  <-> input = []
      \/ ((List.length input mod 4 = 0)%nat
          /\ exists body k,
               (k <= 2)%nat /\ input = body ++ replicate k "="%byte
               /\ Forall Base64.body_char body).
Proof.
  unfold Base64.IsValid.
  destruct (decide (List.length input = 0)%nat) as [H0|H0].
  { split; [|reflexivity]. intros _. left. by destruct input. }
  destruct (decide (List.length input mod 4 ≠ 0)%nat) as [H4|H4].
  { split; [discriminate|]. intros [->|[H _]]; [contradiction H0; reflexivity|].
    contradiction. }
  rewrite (IsValid_loop_body (List.length input) input 0) by reflexivity.
  split.
  - intros H. right. split; [lia|exact H].
  - intros [->|[_ H]]; [contradiction H0; reflexivity|exact H].
Qed.

Section base64_decode_length.
Import Base64.

Lemma push_back_within_length capacity output x :
  List.length (push_back_within capacity output x)
  = if decide (List.length output < capacity)%nat
    then S (List.length output) else List.length output.
Proof.
  unfold push_back_within. case_decide; [|reflexivity].
  rewrite length_app. simpl. lia.
Qed.

Lemma decode_quad_length capacity output a b c d :
  (List.length output <= capacity)%nat ->
  List.length (decode_quad capacity output a b c d)
  = Nat.min capacity (List.length output + 3).
Proof.
  intros Hle. unfold decode_quad. rewrite !push_back_within_length.
  repeat case_decide; lia.
Qed.

(** On groups of four characters without white space the loop of
    DecodeBytes reads no character past the end and stores three bytes a
    group, as far as the capacity goes. *)
Lemma DecodeBytes_loop_length capacity (groups : nat) : forall input i output,
  List.length input = (4 * groups)%nat ->
  Forall (fun c => isspace c = false) input ->
  (List.length output <= capacity)%nat ->
  exists output',
    DecodeBytes_loop capacity input i output = Ok output'
    /\ List.length output' = Nat.min capacity (List.length output + 3 * groups).
Proof.
  induction groups as [|groups IH]; intros input i output Hlen Hspace Hcap.
  - destruct input; [|discriminate]. exists output. split; [reflexivity|lia].
  - destruct input as [|c0 [|c1 [|c2 [|c3 input]]]]; try (simpl in Hlen; lia).
    apply Forall_cons in Hspace as [H0 Hspace].
    do 3 apply Forall_cons in Hspace as [_ Hspace].
    cbn [DecodeBytes_loop]. rewrite H0.
    destruct (IH input (i + 4)%nat
                (decode_quad capacity output (sextet c0) (sextet c1) (sextet c2)
                   (sextet c3))) as (output' & -> & Hlen').
    + simpl in Hlen. lia.
    + exact Hspace.
    + rewrite decode_quad_length by exact Hcap. lia.
    + exists output'. split; [reflexivity|].
      rewrite Hlen', decode_quad_length by exact Hcap. lia.
Qed.

End base64_decode_length.

(** X28.  On a string that IsValid accepts and that holds no white space,
    DecodeBytes throws nothing and reads nothing past the end of the
    string: it returns three bytes for every four characters, less one for
    each '=' among the last two characters. *)
Theorem DecodeBytes_length (input : list byte) :
  Base64.IsValid input = true ->
  Forall (fun c => Base64.isspace c = false) input ->
  exists output,
    Base64.DecodeBytes input = Ok output
    /\ List.length output
       = (List.length input / 4 * 3 - Base64.count_padding input)%nat.
Proof.
  intros Hvalid Hspace. unfold Base64.DecodeBytes. rewrite Hvalid. simpl.
  assert (List.length input mod 4 = 0)%nat as Hmod.
  { apply IsValid_accepts in Hvalid as [->|[H _]]; [reflexivity|exact H]. }
  destruct (DecodeBytes_loop_length
              (List.length input / 4 * 3 - Base64.count_padding input)
              (List.length input / 4) input 0 [])
    as (output & Hrun & Hlen).
  - pose proof (Nat.div_mod_eq (List.length input) 4). lia.
  - exact Hspace.
  - simpl. lia.
  - exists output. split; [exact Hrun|]. rewrite Hlen. simpl. lia.
Qed.

(** A witness for X28: "Zm8=" is decoded to the two bytes of "fo". *)
Lemma DecodeBytes_length_witness :
  exists output,
    Base64.DecodeBytes (list_byte_of_string "Zm8=") = Ok output
    /\ List.length output = (4 / 4 * 3 - 1)%nat.
Proof.
  apply (DecodeBytes_length (list_byte_of_string "Zm8=")).
  - vm_compute. reflexivity.
  - repeat constructor.
Defined.

(** ** The DNS decoder: what a resource record consumes *)

Section dns_records.
Import dns.

Variable buffer : list byte.

Lemma ExtractDomainName_offset_range offset name offset' :
  ExtractDomainName buffer (List.length buffer) offset = Ok (name, offset') ->
  (offset < offset' <= List.length buffer)%nat.
Proof.
  unfold ExtractDomainName.
  destruct (ExtractDomainName_loop _ _ _ _) as [[st| |]|] eqn:Hloop;
    try discriminate.
  intros [= <- <-].
  eapply (loop_final_offset buffer offset); [|exact Hloop].
  unfold offset_tracked. simpl. lia.
Qed.

Lemma ReadUInt16_Ok offset v offset' :
  ReadUInt16 buffer offset = Ok (v, offset') ->
  offset' = (offset + 2)%nat /\ 0 <= v < 2 ^ 16.
Proof.
  intros H. split; [|exact (ReadUInt16_range _ _ _ _ H)].
  revert H. unfold ReadUInt16, read.
  destruct (buffer !! offset); simpl; try discriminate.
  destruct (buffer !! (offset + 1)%nat); simpl; try discriminate.
  by intros [= _ <-].
Qed.

Lemma ReadUInt32_Ok offset v offset' :
  ReadUInt32 buffer offset = Ok (v, offset') -> offset' = (offset + 4)%nat.
Proof.
  unfold ReadUInt32, read.
  destruct (buffer !! offset); simpl; try discriminate.
  destruct (buffer !! (offset + 1)%nat); simpl; try discriminate.
  destruct (buffer !! (offset + 2)%nat); simpl; try discriminate.
  destruct (buffer !! (offset + 3)%nat); simpl; try discriminate.
  by intros [= _ <-].
Qed.

End dns_records.

(** X29.  When ParseResourceRecord returns true on a buffer of the stated
    length: the RDATA it stored has [rdlength] bytes and is the part of the
    buffer that ends at the new offset; the new offset lies within the
    buffer, past the name (one byte at least), the ten bytes of type,
    class, TTL and length, and the RDATA. *)
Theorem ParseResourceRecord_consumes_record
  (buffer : list byte) (offset : nat) (rr : dns.DNSResourceRecord) (offset' : nat) :
  dns.ParseResourceRecord buffer (List.length buffer) offset = Ok (Some (rr, offset')) ->
  Z.of_nat (List.length (dns.rdata rr)) = dns.rdlength rr
  /\ (offset + 11 + List.length (dns.rdata rr) <= offset' <= List.length buffer)%nat
  /\ dns.rdata rr
     = take (List.length (dns.rdata rr))
         (drop (offset' - List.length (dns.rdata rr)) buffer).
Proof.
  unfold dns.ParseResourceRecord.
  destruct (dns.ExtractDomainName buffer (List.length buffer) offset)
    as [[name o1]| |] eqn:Hname; try discriminate.
  apply ExtractDomainName_offset_range in Hname. simpl.
  destruct (dns.ReadUInt16 buffer o1) as [[type o2]| |] eqn:H2; try discriminate.
  apply ReadUInt16_Ok in H2 as [-> _]. simpl.
  destruct (dns.ReadUInt16 buffer (o1 + 2)) as [[rclass o3]| |] eqn:H3;
    try discriminate.
  apply ReadUInt16_Ok in H3 as [-> _]. simpl.
  destruct (dns.ReadUInt32 buffer (o1 + 2 + 2)) as [[ttl o4]| |] eqn:H4;
    try discriminate.
  apply ReadUInt32_Ok in H4 as ->. simpl.
  destruct (dns.ReadUInt16 buffer (o1 + 2 + 2 + 4)) as [[rdlength o5]| |] eqn:H5;
    try discriminate.
  apply ReadUInt16_Ok in H5 as [-> Hrange]. simpl.
  case_decide as Hfit; [discriminate|].
  unfold dns.read_range. rewrite decide_True by lia. simpl.
  intros [= <- <-]. simpl.
  assert (List.length (take (Z.to_nat rdlength) (drop (o1 + 2 + 2 + 4 + 2) buffer))
          = Z.to_nat rdlength) as Hlen.
  { rewrite length_take, length_drop. lia. }
  rewrite Hlen. split; [lia|]. split; [lia|].
  f_equal. f_equal. lia.
Qed.

(** A witness for X29: the answer record of the example.com reply, at
    offset 29. *)
Lemma ParseResourceRecord_consumes_record_witness :
  exists rr offset',
    dns.ParseResourceRecord
      [x00; x01; x81; x80; x00; x01; x00; x01; x00; x00; x00; x00;
       x07; x65; x78; x61; x6d; x70; x6c; x65; x03; x63; x6f; x6d; x00;
       x00; x01; x00; x01;
       xc0; x0c; x00; x01; x00; x01; x00; x00; x00; x3c; x00; x04;
       x5d; xb8; xd8; x22] 45 29 = Ok (Some (rr, offset'))
    /\ Z.of_nat (List.length (dns.rdata rr)) = dns.rdlength rr
    /\ (29 + 11 + List.length (dns.rdata rr) <= offset' <= 45)%nat.
Proof.
  eexists. eexists. split; [vm_compute; reflexivity|].
  match goal with
  | |- Z.of_nat (List.length (dns.rdata ?rr)) = _ /\ (_ <= ?o <= _)%nat =>
      destruct (ParseResourceRecord_consumes_record
                  [x00; x01; x81; x80; x00; x01; x00; x01; x00; x00; x00; x00;
                   x07; x65; x78; x61; x6d; x70; x6c; x65; x03; x63; x6f; x6d; x00;
                   x00; x01; x00; x01;
                   xc0; x0c; x00; x01; x00; x01; x00; x00; x00; x3c; x00; x04;
                   x5d; xb8; xd8; x22] 29 rr o) as (Hlen & Hoffset & _)
  end.
  - vm_compute. reflexivity.
  - split; [exact Hlen|exact Hoffset].
Defined.
